(** * Terrain analysis of [Advanced.py]: a shallow embedding

    The development follows the script top to bottom: the Python
    primitives it relies on (slices, substring tests, negative indices,
    integer formatting), the process-wide dictionaries, the biome
    classifier [chunk_biome_analysis], the heightmap refiner
    [calculateTreelessHeightmap], the flood search imported from
    [gdpc.toolbox] and the 4x4 sample pass of the [__main__] block. *)

From Stdlib Require Import ZArith List String Ascii Lia Bool.
From Stdlib Require Import DecimalString DecimalZ.
From stdpp Require Import base option list gmap strings.

Local Open Scope Z_scope.

(** ** Python primitives *)

Module Py.

  (** [s[n:]] for [0 <= n]. *)
Fixpoint drop (n : nat) (s : string) : string :=
    match n, s with
    | O, _ => s
    | S _, EmptyString => EmptyString
    | S n', String _ s' => drop n' s'
    end.

  (** [s[:n]] for [0 <= n]. *)
Fixpoint take (n : nat) (s : string) : string :=
    match n, s with
    | O, _ => EmptyString
    | S _, EmptyString => EmptyString
    | S n', String c s' => String c (take n' s')
    end.

  (** [s[-n:]] for [0 < n]: the last [n] characters, or all of [s] when it
      is shorter. *)
Definition last_slice (n : nat) (s : string) : string :=
    drop (String.length s - n) s.

  (** [needle in hay] on strings: substring test. *)
Fixpoint contains (needle hay : string) : bool :=
    String.prefix needle hay ||
    match hay with
    | EmptyString => false
    | String _ hay' => contains needle hay'
    end.

  (** [x in t] for a tuple or list of strings. *)
Definition mem (x : string) (t : list string) : bool :=
    existsb (String.eqb x) t.

  (** [str(i)], as used by an f-string field [{i}]. *)
Definition str (i : Z) : string :=
    NilZero.string_of_int (Z.to_int i).

  (** [l[i]] with Python's negative indices; [None] stands for IndexError. *)
Definition index {A} (l : list A) (i : Z) : option A :=
    if 0 <=? i then l !! Z.to_nat i
    else if 0 <=? i + Z.of_nat (List.length l)
         then l !! Z.to_nat (i + Z.of_nat (List.length l))
         else None.

  (** The characters of a string, which is what [lst += s] appends. *)
Fixpoint chars (s : string) : list string :=
    match s with
    | EmptyString => []
    | String c s' => String c EmptyString :: chars s'
    end.

End Py.

(** ** The data model *)

Definition coord : Type := Z * Z * Z.

(** One entry of [chunk_info]; [primary_biome] starts as Python's None. *)
Record chunk := Chunk {
  designations : list string;
  primary_biome : option string;
  biomes : list string
}.

Definition chunk_info_template : chunk :=
  {| designations := []; primary_biome := None; biomes := [] |}.

(** A value of [waterbody_info]. *)
Record waterbody := Waterbody {
  connections : list string;
  biomes_touching : list string;
  biome_adjacent : list string
}.

(** The module-level dictionaries and the chunk grid. *)
Record globals := Globals {
  chunk_info : list (list chunk);
  to_avoid : gmap coord string;
  waterways : gmap coord string;
  waterbody_info : gmap string waterbody
}.

Definition initial_chunk_info (xspan zspan : nat) : list (list chunk) :=
  replicate xspan (replicate zspan chunk_info_template).

Definition initial_globals (xspan zspan : nat) : globals :=
  {| chunk_info := initial_chunk_info xspan zspan;
     to_avoid := ∅; waterways := ∅; waterbody_info := ∅ |}.

(** The collaborators reached through [gdpc]: the world slice's biome
    queries, the block query of the interface, the block-category tables
    of [gdpc.lookup] and the build area origin. *)
Class Collaborators := {
  getPrimaryBiomeNear : Z → Z → Z → string;
  getBiomesNear : Z → Z → Z → list string;
  getBlock : Z → Z → Z → string;
  AIR : list string;
  ARTIFICIAL : list string;
  FLUID : list string;
  STARTX : Z;
  STARTY : Z;
  STARTZ : Z
}.

Definition SUB_CHUNK_RES : nat := 4.

(** ** Exceptions and global state *)

Inductive exn := IndexError | KeyError | TypeError.

(** A computation either finishes or raises; both leave a state of the
    globals behind, since a Python exception does not roll anything back. *)
Inductive result (A : Type) :=
| Ok (a : A) (g : globals)
| Raise (e : exn) (g : globals).
Arguments Ok {A} a g.
Arguments Raise {A} e g.

Definition M (A : Type) : Type := globals → result A.

#[export] Instance M_ret : MRet M := λ A a g, Ok a g.
#[export] Instance M_bind : MBind M := λ A B k m g,
  match m g with
  | Ok a g' => k a g'
  | Raise e g' => Raise e g'
  end.

Definition raise {A} (e : exn) : M A := λ g, Raise e g.
Definition get : M globals := λ g, Ok g g.
Definition put (g : globals) : M unit := λ _, Ok tt g.

(** The state a computation leaves behind, however it ends. *)
Definition final {A} (r : result A) : globals :=
  match r with Ok _ g => g | Raise _ g => g end.

Definition lift {A} (e : exn) (o : option A) : M A :=
  match o with Some a => mret a | None => raise e end.

(** [for b in l: f b], threading the loop's local variables [a]. *)
Fixpoint for_each {A B} (f : A → B → M A) (l : list B) (a : A) : M A :=
  match l with
  | [] => mret a
  | b :: l' => a' ← f a b; for_each f l' a'
  end.

(** Modelled from the spec: [loop2d] of [gdpc.toolbox], which is not among
    the sources. It yields every pair of [[0,a) x [0,b)], the first
    coordinate outermost ("left-to-right, top-to-bottom scan order"). *)
Definition loop2d (a b : nat) : list (nat * nat) :=
  x ← seq 0 a; (λ z, (x, z)) <$> seq 0 b.

(** ** The biome classifier (lines 97-140) *)

Definition set_designations (d : list string) (c : chunk) : chunk :=
  {| designations := d; primary_biome := primary_biome c; biomes := biomes c |}.

Definition set_primary_biome (pb : option string) (c : chunk) : chunk :=
  {| designations := designations c; primary_biome := pb; biomes := biomes c |}.

Definition set_biomes (bs : list string) (c : chunk) : chunk :=
  {| designations := designations c; primary_biome := primary_biome c;
     biomes := bs |}.

(** [c['designations'].append(tag)] *)
Definition append_designation (tag : string) (c : chunk) : chunk :=
  set_designations (designations c ++ [tag]) c.

(** The body of the classifier's loop for one chunk record, given the two
    answers of the world slice. *)
Definition classify_chunk (pb : string) (bs : list string) (c : chunk) : chunk :=
  let has (s : string) := Py.contains s pb in
  let c := set_primary_biome (Some pb) c in
  let c := set_biomes bs c in
  let c := set_designations [] c in
  let c := if has "snowy" then append_designation "snowy" c else c in
  let c := if has "forest" || has "taiga" || has "grove" || has "wooded"
           then append_designation "forest" c else c in
  let c := if has "ocean" || has "swamp"
           then append_designation "water" c
           else if has "beach" || has "river" || has "shore"
                then append_designation "water-adjacent" c else c in
  let c := if has "peaks" || has "hills" || has "mountains"
              || has "windswept" || has "eroded"
           then append_designation "harsh" c
           else if has "plains" || has "meadow" || has "fields"
                   || has "sparse" || has "plateau" || has "desert"
                then append_designation "flat" c else c in
  c.

Definition set_chunk_info (ci : list (list chunk)) (g : globals) : globals :=
  {| chunk_info := ci; to_avoid := to_avoid g; waterways := waterways g;
     waterbody_info := waterbody_info g |}.

(** [chunk_info[x][z]] read with the indices of a [range]. *)
Definition read_chunk (x z : nat) : M chunk := λ g,
  match chunk_info g !! x with
  | None => Raise IndexError g
  | Some row => match row !! z with
                | None => Raise IndexError g
                | Some c => Ok c g
                end
  end.

(** In-place update of the record stored at [chunk_info[x][z]]. *)
Definition update_chunk (x z : nat) (f : chunk → chunk) : M unit := λ g,
  match chunk_info g !! x with
  | None => Raise IndexError g
  | Some row => match row !! z with
                | None => Raise IndexError g
                | Some c =>
                    Ok tt (set_chunk_info
                             (<[x := <[z := f c]> row]> (chunk_info g)) g)
                end
  end.

Section Classifier.
Context `{Collaborators}.

Definition analyse_chunk (x z : nat) : M unit :=
    let wx := STARTX + Z.of_nat x * 16 in
    let wz := STARTZ + Z.of_nat z * 16 in
    update_chunk x z
      (classify_chunk (getPrimaryBiomeNear wx 0 wz) (getBiomesNear wx 0 wz)).

Definition chunk_biome_analysis (XCHUNKSPAN ZCHUNKSPAN : nat) : M unit :=
    for_each (λ _ '(x, z), analyse_chunk x z)
             (loop2d XCHUNKSPAN ZCHUNKSPAN) tt.

End Classifier.

(** ** The heightmap refiner (lines 143-157) *)

(** A heightmap is a two-dimensional array indexed by [x, z]; a missing key
    stands for an index out of range. The world slice holds its heightmaps
    by reference. *)
Abbreviation heightmap := (gmap (nat * nat) Z) (only parsing).
Abbreviation loc := nat (only parsing).

Record world_slice := WorldSlice {
  heightmaps : gmap string loc;
  rect : Z * Z * Z * Z
}.

Record memory := Memory {
  slice : world_slice;
  heap : gmap loc heightmap
}.

Inductive outcome (A : Type) :=
| Finished (a : A)
| Failed (e : exn)
| OutOfFuel.
Arguments Finished {A} a.
Arguments Failed {A} e.
Arguments OutOfFuel {A}.

Definition heap_read (l : loc) (k : nat * nat) (hp : gmap loc heightmap)
  : option Z :=
  hm ← hp !! l; hm !! k.

Definition heap_write (l : loc) (k : nat * nat) (v : Z)
    (hp : gmap loc heightmap) : gmap loc heightmap :=
  match hp !! l with
  | Some hm => <[l := <[k := v]> hm]> hp
  | None => hp
  end.

(** The heightmap is a numpy array of 64-bit integers: arithmetic on its
    entries wraps around, so that lowering the least height gives the
    greatest. *)
Definition wrap64 (z : Z) : Z := (z + 2 ^ 63) mod 2 ^ 64 - 2 ^ 63.

Section Refiner.
Context `{Collaborators}.

  (** The condition of line 151. *)
Definition is_foliage_or_air (block : string) : bool :=
    String.eqb (Py.last_slice 4 block) "_log"
    || String.eqb (Py.last_slice 7 block) "_leaves"
    || Py.mem block AIR.

  (** The [while True] loop of one column; [fuel] bounds the number of
      iterations the model follows. *)
Fixpoint descend (fuel : nat) (gx gz : Z) (l : loc) (k : nat * nat)
      (hp : gmap loc heightmap) : outcome (gmap loc heightmap) :=
    match fuel with
    | O => OutOfFuel
    | S fuel' =>
        match heap_read l k hp with
        | None => Failed IndexError
        | Some y =>
            if is_foliage_or_air (getBlock gx y gz)
            then descend fuel' gx gz l k (heap_write l k (wrap64 (y - 1)) hp)
            else Finished hp
        end
    end.

Fixpoint refine_columns (fuel : nat) (ax az : Z) (l : loc)
      (cols : list (nat * nat)) (hp : gmap loc heightmap)
    : outcome (gmap loc heightmap) :=
    match cols with
    | [] => Finished hp
    | (x, z) :: cols' =>
        match descend fuel (ax + Z.of_nat x) (az + Z.of_nat z) l (x, z) hp with
        | Finished hp' => refine_columns fuel ax az l cols' hp'
        | o => o
        end
    end.

  (** Returns the memory after the call and the reference it returns. *)
Definition calculateTreelessHeightmap (fuel : nat) (m : memory)
    : outcome (memory * loc) :=
    match heightmaps (slice m) !! "MOTION_BLOCKING_NO_LEAVES"%string with
    | None => Failed KeyError
    | Some l =>
        let '(ax, az, dx, dz) := rect (slice m) in
        match refine_columns fuel ax az l
                (loop2d (Z.to_nat dx) (Z.to_nat dz)) (heap m) with
        | Finished hp' => Finished ({| slice := slice m; heap := hp' |}, l)
        | Failed e => Failed e
        | OutOfFuel => OutOfFuel
        end
    end.

End Refiner.

(** ** The flood search of [gdpc.toolbox] *)

Definition coord_eqb (a b : coord) : bool :=
  let '(ax, ay, az) := a in
  let '(bx, by_, bz) := b in
  (ax =? bx) && (ay =? by_) && (az =? bz).

(** [c in l] for a list of coordinate tuples. *)
Definition coord_mem (c : coord) (l : list coord) : bool :=
  existsb (coord_eqb c) l.

Definition coord_add (a d : coord) : coord :=
  let '(ax, ay, az) := a in
  let '(dx, dy, dz) := d in
  (ax + dx, ay + dy, az + dz).

Definition AXES : list coord :=
  [(1, 0, 0); (-1, 0, 0); (0, 1, 0); (0, -1, 0); (0, 0, 1); (0, 0, -1)].

Definition DIAGONALS : list coord :=
  [(1, 1, 0); (1, -1, 0); (-1, 1, 0); (-1, -1, 0);
   (1, 0, 1); (1, 0, -1); (-1, 0, 1); (-1, 0, -1);
   (0, 1, 1); (0, 1, -1); (0, -1, 1); (0, -1, -1);
   (1, 1, 1); (1, 1, -1); (1, -1, 1); (1, -1, -1);
   (-1, 1, 1); (-1, 1, -1); (-1, -1, 1); (-1, -1, -1)].

Definition vectors (diagonal : bool) : list coord :=
  if diagonal then AXES ++ DIAGONALS else AXES.

Definition in_box (lo hi c : coord) : bool :=
  let '(x1, y1, z1) := lo in
  let '(x2, y2, z2) := hi in
  let '(x, y, z) := c in
  (x1 <=? x) && (x <=? x2) && (y1 <=? y) && (y <=? y2)
  && (z1 <=? z) && (z <=? z2).

Definition box_volume (lo hi : coord) : nat :=
  let '(x1, y1, z1) := lo in
  let '(x2, y2, z2) := hi in
  (Z.to_nat (x2 - x1 + 1) * Z.to_nat (y2 - y1 + 1) * Z.to_nat (z2 - z1 + 1))%nat.

Section FloodSearch.
Context `{Collaborators}.

  (** A coordinate is visited when it lies inside the inclusive bound box,
      its block is in the category and it is not in [observed]. *)
Definition visitable (lo hi : coord) (search_blocks : list string)
      (observed : list coord) (c : coord) : bool :=
    in_box lo hi c
    && Py.mem (getBlock c.1.1 c.1.2 c.2) search_blocks
    && negb (coord_mem c observed).

  (** The exploration proper: a visited coordinate is marked before its
      neighbours are entered. [visited] holds the coordinates marked by
      this call, most recent first; [fuel] bounds the nesting depth. *)
Fixpoint explore (fuel : nat) (ok : coord → bool) (vs : list coord)
      (visited : list coord) (c : coord) : list coord :=
    match fuel with
    | O => visited
    | S fuel' =>
        if ok c && negb (coord_mem c visited)
        then fold_left (λ v d, explore fuel' ok vs v (coord_add c d))
                       vs (c :: visited)
        else visited
    end.

  (** Modelled from the spec: [flood_search_3D] of [gdpc.toolbox], which is
      not among the sources. Section 4.3 gives the contract: explore
      outward from the seed, visit only coordinates inside the inclusive
      bound box whose block is in the category and which are not in
      [observed], expand over the 6 face neighbours or, with [diagonal],
      all 26 neighbours, mark before expanding, and return the region with
      the coordinates newly added to [observed]. *)
Definition flood_search_3D (x y z x1 y1 z1 x2 y2 z2 : Z)
      (search_blocks : list string) (observed : list coord)
      (diagonal : bool) : list coord * list coord :=
    let lo := (x1, y1, z1) in
    let hi := (x2, y2, z2) in
    let region :=
      reverse (explore (S (box_volume lo hi))
                       (visitable lo hi search_blocks observed)
                       (vectors diagonal) [] (x, y, z)) in
    (region, region).

End FloodSearch.

(** ** The sample pass of the main block (lines 210-284) *)

Definition set_to_avoid (m : gmap coord string) (g : globals) : globals :=
  {| chunk_info := chunk_info g; to_avoid := m; waterways := waterways g;
     waterbody_info := waterbody_info g |}.

Definition set_waterways (m : gmap coord string) (g : globals) : globals :=
  {| chunk_info := chunk_info g; to_avoid := to_avoid g; waterways := m;
     waterbody_info := waterbody_info g |}.

Definition set_waterbody_info (m : gmap string waterbody) (g : globals)
  : globals :=
  {| chunk_info := chunk_info g; to_avoid := to_avoid g;
     waterways := waterways g; waterbody_info := m |}.

Definition empty_waterbody : waterbody :=
  {| connections := []; biomes_touching := []; biome_adjacent := [] |}.

Definition add_connection (owner : string) (w : waterbody) : waterbody :=
  {| connections := connections w ++ [owner];
     biomes_touching := biomes_touching w;
     biome_adjacent := biome_adjacent w |}.

Definition set_biomes_touching (bs : list string) (w : waterbody) : waterbody :=
  {| connections := connections w; biomes_touching := bs;
     biome_adjacent := biome_adjacent w |}.

(** [if tag not in c['designations']: c['designations'] += [tag]] *)
Definition flag_designation (tag : string) (c : chunk) : chunk :=
  if Py.mem tag (designations c) then c else append_designation tag c.

(** Lines 252-262. *)
Definition body_name (pbiome : string) (cx cz : nat) (size : nat) : string :=
  let suffix := ("-" ++ Py.str (Z.of_nat cx) ++ "-" ++ Py.str (Z.of_nat cz))%string in
  if String.eqb "ocean" (Py.last_slice 5 pbiome) then ("ocean" ++ suffix)%string
  else if String.eqb "river" pbiome then ("river" ++ suffix)%string
  else if String.eqb "swamp" (Py.take 5 pbiome) then ("swamp" ++ suffix)%string
  else if (size <? 256)%nat then ("pond" ++ suffix)%string
  else ("lake" ++ suffix)%string.

(** [chunk_info[i][j]['primary_biome']] for computed, possibly negative,
    indices; the value must be a string to take part in [+]. *)
Definition primary_biome_at (i j : Z) : M string := λ g,
  match Py.index (chunk_info g) i with
  | None => Raise IndexError g
  | Some row => match Py.index row j with
                | None => Raise IndexError g
                | Some c => match primary_biome c with
                            | None => Raise TypeError g
                            | Some pb => Ok pb g
                            end
                end
  end.

(** [waterbody_info[name]] *)
Definition read_waterbody (name : string) : M waterbody := λ g,
  match waterbody_info g !! name with
  | None => Raise KeyError g
  | Some w => Ok w g
  end.

Definition write_waterbody (name : string) (w : waterbody) : M unit := λ g,
  Ok tt (set_waterbody_info (<[name := w]> (waterbody_info g)) g).

(** [chunk_info[i][j]['primary_biome']] for computed, possibly negative,
    indices: the value stored there, a string or None. *)
Definition biome_operand (i j : Z) : M (option string) := λ g,
  match Py.index (chunk_info g) i with
  | None => Raise IndexError g
  | Some row => match Py.index row j with
                | None => Raise IndexError g
                | Some c => Ok (primary_biome c) g
                end
  end.

(** [a + b] on values read from the grid: defined on two strings. *)
Definition concat (a b : option string) : M string :=
  match a, b with
  | Some x, Some y => mret (x ++ y)%string
  | _, _ => raise TypeError
  end.

(** Lines 278-284: the list [surrounding], built from the primary biomes
    of the four diagonal neighbours of chunk [cx][cz]. Both operands of a
    [+] are read before they are added; the four strings are concatenated
    and the list is extended by the characters of the sum. *)
Definition surrounding_biomes (cx cz : nat) : M (list string) :=
  let i := Z.of_nat cx in
  let j := Z.of_nat cz in
  p1 ← biome_operand (i + 1) (j + 1);
  p2 ← biome_operand (i - 1) (j + 1);
  s ← concat p1 p2;
  p3 ← biome_operand (i + 1) (j - 1);
  s ← concat (Some s) p3;
  p4 ← biome_operand (i - 1) (j - 1);
  s ← concat (Some s) p4;
  mret ([] ++ Py.chars s).

(** The body of the loop of lines 267-284 for one coordinate of the
    region. The list [surrounding] is a local of the iteration: it is
    stored nowhere and is dropped when the iteration ends. *)
Definition claim (name : string) (cx cz : nat) (r : coord) : M unit :=
  g ← get;
  match waterways g !! r with
  | Some owner =>
      w ← read_waterbody name;
      if Py.mem owner (connections w) then mret tt
      else w ← read_waterbody name;
           write_waterbody name (add_connection owner w)
  | None =>
      put (set_waterways (<[r := name]> (waterways g)) g);;
      c ← read_chunk cx cz;
      w ← read_waterbody name;
      write_waterbody name (set_biomes_touching (biomes c) w);;
      surrounding ← surrounding_biomes cx cz;
      mret tt
  end.

Section MainPass.
Context `{Collaborators}.

  (** Modelled from the spec: [buildlocal2global] of [gdpc.interface],
      which is not among the sources; it translates build-area-local
      coordinates by the build area origin. *)
Definition buildlocal2global (x y z : Z) : coord :=
    (x + STARTX, y + STARTY, z + STARTZ).

  (** Lines 227-238: a sample point on an artificial block. *)
Definition detect_structure (cx cz : nat) (seed chunkstart chunkend : coord)
      (obs_struc : list coord) : M (list coord) :=
    update_chunk cx cz (flag_designation "structure");;
    let '(x, y, z) := seed in
    let '(x1, y1, z1) := chunkstart in
    let '(x2, y2, z2) := chunkend in
    let '(result, newly_obs) :=
      flood_search_3D x y z x1 y1 z1 x2 y2 z2 ARTIFICIAL obs_struc true in
    for_each (λ _ r, g ← get;
                     put (set_to_avoid
                            (<[r := "Artificial structure detected"%string]>
                               (to_avoid g)) g))
             result tt;;
    mret (obs_struc ++ newly_obs).

  (** Lines 241-284: a sample point on a fluid block. *)
Definition detect_water (cx cz : nat) (seed lo hi : coord)
      (obs_fluid : list coord) : M (list coord) :=
    update_chunk cx cz (flag_designation "water");;
    let '(x, y, z) := seed in
    let '(x1, y1, z1) := lo in
    let '(x2, y2, z2) := hi in
    let '(result, newly_obs) :=
      flood_search_3D x y z x1 y1 z1 x2 y2 z2 FLUID obs_fluid false in
    let obs_fluid := obs_fluid ++ newly_obs in
    c ← read_chunk cx cz;
    pbiome ← lift TypeError (primary_biome c);
    let name := body_name pbiome cx cz (List.length result) in
    write_waterbody name empty_waterbody;;
    for_each (λ _ r, claim name cx cz r) result tt;;
    mret obs_fluid.

  (** Lines 220-284: one sample point; the locals are the two observed
      lists of the chunk. *)
Definition sample (hm : heightmap) (cx cz : nat)
      (obs : list coord * list coord) (j : nat * nat)
    : M (list coord * list coord) :=
    let '(obs_struc, obs_fluid) := obs in
    let '(jx, jz) := j in
    let chunkstart :=
      buildlocal2global (Z.of_nat cx * 16) 0 (Z.of_nat cz * 16) in
    let chunkend :=
      buildlocal2global (Z.of_nat cx * 16 + 16) 255 (Z.of_nat cz * 16 + 16) in
    let overlap_chunkstart :=
      (chunkstart.1.1 - 1, chunkstart.1.2, chunkstart.2 - 1) in
    let overlap_chunkend :=
      (chunkend.1.1 + 1, chunkend.1.2, chunkend.2 + 1) in
    let localx := (cx * 16 + jx * SUB_CHUNK_RES)%nat in
    let localz := (cz * 16 + jz * SUB_CHUNK_RES)%nat in
    let '(globalx, _, globalz) :=
      buildlocal2global (Z.of_nat localx) 0 (Z.of_nat localz) in
    y ← lift IndexError (hm !! (localx, localz));
    g ← get;
    let block := getBlock globalx y globalz in
    if Py.mem block ARTIFICIAL
       && negb (bool_decide (is_Some (to_avoid g !! (globalx, y, globalz))))
    then s ← detect_structure cx cz (globalx, y, globalz)
               chunkstart chunkend obs_struc;
         mret (s, obs_fluid)
    else if Py.mem block FLUID
            && negb (bool_decide
                       (is_Some (waterways g !! (globalx, y, globalz))))
    then f ← detect_water cx cz (globalx, y, globalz)
               overlap_chunkstart overlap_chunkend obs_fluid;
         mret (obs_struc, f)
    else mret (obs_struc, obs_fluid).

  (** One iteration of the loop of line 210. *)
Definition scan_chunk (hm : heightmap) (c : nat * nat) : M unit :=
    let '(cx, cz) := c in
    for_each (sample hm cx cz) (loop2d SUB_CHUNK_RES SUB_CHUNK_RES) ([], []);;
    mret tt.

  (** [len(chunk_info[0])] *)
Definition first_row_length : M nat := λ g,
    match chunk_info g !! 0%nat with
    | None => Raise IndexError g
    | Some row => Ok (List.length row) g
    end.

  (** The loop of lines 210-284. *)
Definition sample_pass (hm : heightmap) : M unit :=
    g ← get;
    zs ← first_row_length;
    for_each (λ _ c, scan_chunk hm c)
             (loop2d (List.length (chunk_info g)) zs) tt.

  (** Lines 204-284, given the refined heightmap. *)
Definition analysis (XCHUNKSPAN ZCHUNKSPAN : nat) (hm : heightmap) : M unit :=
    chunk_biome_analysis XCHUNKSPAN ZCHUNKSPAN;;
    sample_pass hm.

End MainPass.

(** The region a fluid sample point finds (line 243). *)
Definition water_region `{Collaborators} (seed lo hi : coord)
    (obs_fluid : list coord) : list coord :=
  (flood_search_3D seed.1.1 seed.1.2 seed.2 lo.1.1 lo.1.2 lo.2
                   hi.1.1 hi.1.2 hi.2 FLUID obs_fluid false).1.

(** ** Vocabulary of the statements *)

Definition ends_with (t s : string) : Prop := ∃ p, s = (p ++ t)%string.

(** The text of [f'{kind}-{cx}-{cz}']. *)
Definition named (kind : string) (cx cz : nat) : string :=
  (kind ++ "-" ++ Py.str (Z.of_nat cx) ++ "-" ++ Py.str (Z.of_nat cz))%string.

(** No character of [s] is a minus sign. *)
Fixpoint dashless (s : string) : Prop :=
  match s with
  | EmptyString => True
  | String a s' => a ≠ "-"%char ∧ dashless s'
  end.

(** The heights a 64-bit array can hold. *)
Definition int64 (z : Z) : Prop := - 2 ^ 63 ≤ z < 2 ^ 63.

(** The height [h] after [n] passes through line 153. *)
Definition lowered (n : nat) (h : Z) : Z :=
  Nat.iter n (λ y, wrap64 (y - 1)) h.

(** A block that the refiner steps over: a log, a leaf block or air. *)
Definition foliage_or_air `{Collaborators} (b : string) : Prop :=
  ends_with "_log" b ∨ ends_with "_leaves" b ∨ b ∈ AIR.

(** The record at [chunk_info[x][z]], if the indices are in range. *)
Definition entry (ci : list (list chunk)) (x z : nat) : option chunk :=
  row ← ci !! x; row !! z.

(** The grid with the record at [x][z] replaced. *)
Definition grid_set (x z : nat) (c : chunk) (ci : list (list chunk))
  : list (list chunk) :=
  match ci !! x with
  | Some row => <[x := <[z := c]> row]> ci
  | None => ci
  end.

(** The tags [a] and [b] are not both among the designations of [c]. *)
Definition exclusive (a b : string) (c : chunk) : Prop :=
  ¬ (a ∈ designations c ∧ b ∈ designations c).

(** The record the classifier stores at [x][z]; it does not depend on what
    was stored there before. *)
Definition classified `{Collaborators} (x z : nat) : chunk :=
  classify_chunk
    (getPrimaryBiomeNear (STARTX + Z.of_nat x * 16) 0 (STARTZ + Z.of_nat z * 16))
    (getBiomesNear (STARTX + Z.of_nat x * 16) 0 (STARTZ + Z.of_nat z * 16))
    chunk_info_template.

(** Every record of the later grid comes from the record at the same place
    of the earlier grid by [T]. *)
Definition chunks_rel (T : relation chunk) : relation globals :=
  λ g g', ∀ x z c', entry (chunk_info g') x z = Some c' →
    ∃ c, entry (chunk_info g) x z = Some c ∧ T c c'.

(** What the sample pass may do to a record: append the tags "structure"
    and "water". *)
Definition gains_flags : relation chunk :=
  λ c c', primary_biome c' = primary_biome c ∧ biomes c' = biomes c
    ∧ ∃ extra, designations c' = designations c ++ extra
        ∧ ∀ t, t ∈ extra → t = "structure"%string ∨ t = "water"%string.

(** What the classifier may do to a record: leave it or overwrite it. *)
Definition kept_or_classified : relation chunk :=
  λ c c', c' = c ∨ ∃ pb bs, c' = classify_chunk pb bs chunk_info_template.

(** Every owned coordinate is still owned, by the same body. *)
Definition waterways_kept : relation globals :=
  λ g g', ∀ c b, waterways g !! c = Some b → waterways g' !! c = Some b.

(** ** Connected regions *)

(** [c] lies inside the inclusive box from [lo] to [hi]. *)
Definition inside (lo hi c : coord) : Prop :=
  lo.1.1 ≤ c.1.1 ≤ hi.1.1 ∧ lo.1.2 ≤ c.1.2 ≤ hi.1.2 ∧ lo.2 ≤ c.2 ≤ hi.2.

(** Two distinct coordinates are neighbours when they differ by at most
    one along every axis, and, without [diagonal], along one axis only. *)
Definition adjacent (diagonal : bool) (a b : coord) : Prop :=
  a ≠ b
  ∧ Z.abs (b.1.1 - a.1.1) ≤ 1 ∧ Z.abs (b.1.2 - a.1.2) ≤ 1
  ∧ Z.abs (b.2 - a.2) ≤ 1
  ∧ (diagonal = false →
     Z.abs (b.1.1 - a.1.1) + Z.abs (b.1.2 - a.1.2) + Z.abs (b.2 - a.2) = 1).

(** [c] is reached from [seed] along neighbours that all satisfy [P],
    the seed included. *)
Inductive connected (P : coord → Prop) (adj : relation coord) (seed : coord)
  : coord → Prop :=
| connected_seed : P seed → connected P adj seed seed
| connected_step c c' :
    connected P adj seed c → adj c c' → P c' → connected P adj seed c'.

(** A coordinate the search may enter, and one it would enter if nothing
    had been observed before. *)
Definition eligible `{Collaborators} (lo hi : coord) (blocks : list string)
    (observed : list coord) (c : coord) : Prop :=
  inside lo hi c ∧ getBlock c.1.1 c.1.2 c.2 ∈ blocks ∧ c ∉ observed.

Definition matching `{Collaborators} (lo hi : coord) (blocks : list string)
    (c : coord) : Prop :=
  inside lo hi c ∧ getBlock c.1.1 c.1.2 c.2 ∈ blocks.

(** One step of the search: a vector of [vs] applied to a coordinate. *)
Definition step (vs : list coord) : relation coord :=
  λ a b, ∃ d, d ∈ vs ∧ b = coord_add a d.

Definition okP (ok : coord → bool) (c : coord) : Prop := ok c = true.

(** The marked coordinates are pairwise distinct and were all allowed. *)
Definition marked_well (ok : coord → bool) (visited : list coord) : Prop :=
  NoDup visited ∧ ∀ c, c ∈ visited → ok c = true.

(** What a call of the exploration at [c] promises about the list [v'] it
    returns from [v]. *)
Definition explored (ok : coord → bool) (vs : list coord) (c : coord)
    (v v' : list coord) : Prop :=
  marked_well ok v'
  ∧ (∃ l, v' = l ++ v)
  ∧ (ok c = true → c ∈ v')
  ∧ (∀ x, x ∈ v' → x ∉ v →
       ∀ d, d ∈ vs → ok (coord_add x d) = true → coord_add x d ∈ v')
  ∧ (∀ x, x ∈ v' → x ∉ v → connected (okP ok) (step vs) c x).

(** The coordinates of the inclusive box from [lo] to [hi]. *)
Definition box_cells (lo hi : coord) : list coord :=
  x ← seqZ lo.1.1 (hi.1.1 - lo.1.1 + 1);
  y ← seqZ lo.1.2 (hi.1.2 - lo.1.2 + 1);
  z ← seqZ lo.2 (hi.2 - lo.2 + 1);
  [(x, y, z)].

(** ** Sample worlds *)

Definition air_blocks : list string :=
  ["minecraft:air"; "minecraft:void_air"; "minecraft:cave_air"]%string.

(** A tree on stone: leaves at 72 and 71, a log at 70, stone elsewhere. *)
Definition tree_world : Collaborators :=
  {| getPrimaryBiomeNear := λ _ _ _, "forest"%string;
     getBiomesNear := λ _ _ _, ["forest"%string];
     getBlock := λ _ y _,
       if (71 <=? y) && (y <=? 72) then "minecraft:oak_leaves"%string
       else if y =? 70 then "minecraft:oak_log"%string
       else "minecraft:stone"%string;
     AIR := air_blocks; ARTIFICIAL := []; FLUID := ["minecraft:water"%string];
     STARTX := 0; STARTY := 0; STARTZ := 0 |}.

(** A world without a single block, air at every height. *)
Definition hollow_world : Collaborators :=
  {| getPrimaryBiomeNear := λ _ _ _, "the_void"%string;
     getBiomesNear := λ _ _ _, ["the_void"%string];
     getBlock := λ _ _ _, "minecraft:air"%string;
     AIR := air_blocks; ARTIFICIAL := []; FLUID := ["minecraft:water"%string];
     STARTX := 0; STARTY := 0; STARTZ := 0 |}.

(** One heightmap object holding a single column of height [h]. *)
Definition one_column_heap (h : Z) : gmap nat (gmap (nat * nat) Z) :=
  {[ 0%nat := {[ (0%nat, 0%nat) := h ]} ]}.

Definition one_column_memory (h : Z) : memory :=
  {| slice := {| heightmaps := {[ "MOTION_BLOCKING_NO_LEAVES"%string := 0%nat ]};
                 rect := (0, 0, 1, 1) |};
     heap := one_column_heap h |}.

(** A heightmap of [a] by [b] columns, all of height [h]. *)
Definition flat_heightmap (a b : nat) (h : Z) : gmap (nat * nat) Z :=
  list_to_map ((λ k, (k, h)) <$> loop2d a b).

Definition fluid_blocks : list string :=
  ["minecraft:water"; "minecraft:flowing_water"; "minecraft:lava"]%string.

(** Stone everywhere in a river biome, with one block of water at the
    first sample point of chunk (0,0), on the surface at height 62. *)
Definition river_world : Collaborators :=
  {| getPrimaryBiomeNear := λ _ _ _, "river"%string;
     getBiomesNear := λ _ _ _, ["river"%string];
     getBlock := λ x y z,
       if (x =? 0) && (y =? 62) && (z =? 0) then "minecraft:water"%string
       else "minecraft:stone"%string;
     AIR := air_blocks; ARTIFICIAL := []; FLUID := fluid_blocks;
     STARTX := 0; STARTY := 0; STARTZ := 0 |}.

(** Plains with a channel of water along x = 12..20 at z = 0, which
    crosses from chunk (0,0) into chunk (1,0), and a separate single block
    of water at (24,62,8) in chunk (1,0); the surface is at height 62. *)
Definition pond_world : Collaborators :=
  {| getPrimaryBiomeNear := λ _ _ _, "plains"%string;
     getBiomesNear := λ _ _ _, ["plains"%string];
     getBlock := λ x y z,
       if (y =? 62) && (z =? 0) && (12 <=? x) && (x <=? 20)
       then "minecraft:water"%string
       else if (x =? 24) && (y =? 62) && (z =? 8) then "minecraft:water"%string
       else "minecraft:stone"%string;
     AIR := air_blocks; ARTIFICIAL := []; FLUID := fluid_blocks;
     STARTX := 0; STARTY := 0; STARTZ := 0 |}.

(** The pond world after the classifier and the scan of chunk (0,0). *)
Definition pond_heightmap : gmap (nat * nat) Z := flat_heightmap 48 32 62.

Definition pond_after_first_chunk : globals :=
  final (scan_chunk (H := pond_world) pond_heightmap (0%nat, 0%nat)
           (final (chunk_biome_analysis (H := pond_world) 3 2
                     (initial_globals 3 2)))).

(** The pond world after the channel has been detected from chunk (1,0),
    that is after the first five sample points of that chunk, and after
    the whole of chunk (1,0). *)
Definition pond_after_channel : globals :=
  final (for_each (sample (H := pond_world) pond_heightmap 1 0)
           (take 5 (loop2d SUB_CHUNK_RES SUB_CHUNK_RES)) ([], [])
           pond_after_first_chunk).

Definition pond_after_second_chunk : globals :=
  final (scan_chunk (H := pond_world) pond_heightmap (1%nat, 0%nat)
           pond_after_first_chunk).

(** ** The debug view (lines 174-189) *)

(** The dictionary [conversion] of [debug_chunk_info]. *)
Definition conversion : gmap string string :=
  list_to_map
    [("snowy", "snow_block"); ("forest", "oak_log"); ("water", "lapis_block");
     ("water-adjacent", "lapis_ore"); ("harsh", "stone");
     ("flat", "grass_block"); ("structure", "gold_block")]%string.

(** The last argument of [placeVolume]: a list of block names or a single
    name. *)
Inductive material :=
| Palette (blocks : list string)
| Single (block : string).

(** One call of [geo.placeVolume]. *)
Record placement := Placement {
  corner1 : coord;
  corner2 : coord;
  filling : material
}.

(** [[conversion[d] for d in designations]]; [None] stands for KeyError. *)
Definition convert (ds : list string) : option (list string) :=
  mapM (λ d, conversion !! d) ds.

Section DebugView.
Context `{Collaborators}.

(** The body of the loop of [debug_chunk_info] for chunk [x][z]: the call
    of [placeVolume] it makes. *)
Definition debug_chunk (x z : nat) : M placement :=
  c ← read_chunk x z;
  blocks ← lift KeyError (convert (designations c));
  let shown := match blocks with
               | [] => Single "redstone_block"
               | _ => Palette blocks
               end in
  let wx := STARTX + Z.of_nat x * 16 in
  let wz := STARTZ + Z.of_nat z * 16 in
  mret {| corner1 := (wx + 7, 250, wz + 7);
          corner2 := (wx + 10, 250, wz + 10);
          filling := shown |}.

(** [debug_chunk_info], given the end of the build area: the calls of
    [placeVolume] it makes, in order. The prompt between the two phases
    has no effect on the globals. *)
Definition debug_chunk_info (ENDX ENDZ : Z) : M (list placement) :=
  g ← get;
  zs ← first_row_length;
  shown ← for_each (λ acc '(x, z), p ← debug_chunk x z; mret (acc ++ [p]))
                   (loop2d (List.length (chunk_info g)) zs) [];
  mret (shown ++ [{| corner1 := (STARTX, 250, STARTZ);
                     corner2 := (ENDX - 1, 250, ENDZ - 1);
                     filling := Single "air" |}]).

(** The region an artificial sample point finds (line 229). *)
Definition structure_region (seed lo hi : coord) (obs_struc : list coord)
  : list coord :=
  (flood_search_3D seed.1.1 seed.1.2 seed.2 lo.1.1 lo.1.2 lo.2
                   hi.1.1 hi.1.2 hi.2 ARTIFICIAL obs_struc true).1.

End DebugView.

(** ** Vocabulary of the further statements *)



(** The tags a chunk can carry: the keys of [conversion]. *)
Definition designation_tags : list string :=
  ["snowy"; "forest"; "water"; "water-adjacent"; "harsh"; "flat";
   "structure"]%string.

(** The reason stored with an avoided coordinate. *)
Definition avoid_reason : string := "Artificial structure detected".

(** Every record of the grid satisfies [P]. *)
Definition chunks_inv (P : chunk → Prop) (g : globals) : Prop :=
  ∀ x z c, entry (chunk_info g) x z = Some c → P c.

(** A step on records that keeps [P]. *)
Definition keeps (P : chunk → Prop) : relation chunk := λ c c', P c → P c'.

(** The designations of [c] are all known tags. *)
Definition tags_known (c : chunk) : Prop :=
  ∀ t, t ∈ designations c → t ∈ designation_tags.

(** What the classifier's loop over the places [l] may change: records at
    places of [l], and nothing else; no record appears or disappears. *)
Definition classifier_frame (l : list (nat * nat)) : relation globals :=
  λ g g', to_avoid g' = to_avoid g
    ∧ waterways g' = waterways g
    ∧ waterbody_info g' = waterbody_info g
    ∧ (∀ x z, (x, z) ∉ l → entry (chunk_info g') x z = entry (chunk_info g) x z)
    ∧ (∀ x z, is_Some (entry (chunk_info g') x z)
              ↔ is_Some (entry (chunk_info g) x z)).

(** The pond world after the whole analysis. *)
Definition pond_final : globals :=
  final (analysis (H := pond_world) 3 2 pond_heightmap (initial_globals 3 2)).

(** [to_avoid] after every coordinate of [region] has been entered. *)
Definition avoid_all (region : list coord) (m : gmap coord string)
  : gmap coord string :=
  fold_left (λ m r, <[r := avoid_reason]> m) region m.

(** [to_avoid] loses no key, and every value that is new is the fixed
    reason. *)
Definition avoid_grows : relation globals :=
  λ g g', (∀ r, is_Some (to_avoid g !! r) → is_Some (to_avoid g' !! r))
    ∧ (∀ r v, to_avoid g' !! r = Some v →
              to_avoid g !! r = Some v ∨ v = avoid_reason).

(** The position in a list of length [len] that the Python index [i]
    stands for. *)
Definition index_pos (len : nat) (i : Z) : option nat :=
  if 0 <=? i then Some (Z.to_nat i)
  else if 0 <=? i + Z.of_nat len then Some (Z.to_nat (i + Z.of_nat len))
       else None.

(** The primary biome stored at [ci[i][j]], for Python indices: [None]
    when an index is out of range, [Some None] for Python's None. *)
Definition biome_at (ci : list (list chunk)) (i j : Z)
  : option (option string) :=
  match Py.index ci i with
  | None => None
  | Some row => match Py.index row j with
                | None => None
                | Some c => Some (primary_biome c)
                end
  end.

(** The four diagonal neighbours of chunk [cx][cz], as lines 281-284 index
    them, all hold a string as primary biome. *)
Definition neighbours_ready (cx cz : nat) (ci : list (list chunk)) : Prop :=
  (∃ pb, biome_at ci (Z.of_nat cx + 1) (Z.of_nat cz + 1) = Some (Some pb))
  ∧ (∃ pb, biome_at ci (Z.of_nat cx - 1) (Z.of_nat cz + 1) = Some (Some pb))
  ∧ (∃ pb, biome_at ci (Z.of_nat cx + 1) (Z.of_nat cz - 1) = Some (Some pb))
  ∧ (∃ pb, biome_at ci (Z.of_nat cx - 1) (Z.of_nat cz - 1) = Some (Some pb)).

(** Every owner in [waterways] and every name in a list of connections has
    a record in [waterbody_info]. *)
Definition network_closed (g : globals) : Prop :=
  (∀ c b, waterways g !! c = Some b → is_Some (waterbody_info g !! b))
  ∧ (∀ n w o, waterbody_info g !! n = Some w → o ∈ connections w →
              is_Some (waterbody_info g !! o)).

(** Every owner in [waterways] is the name of a body detected from a chunk
    of the grid that carries the tag "water". *)
Definition owners_flagged (g : globals) : Prop :=
  ∀ c b, waterways g !! c = Some b →
    ∃ cx cz pb size ch,
      b = body_name pb cx cz size
      ∧ entry (chunk_info g) cx cz = Some ch
      ∧ "water"%string ∈ designations ch.

(** A step that keeps the property [I] of the globals. *)
Definition keeps_inv (I : globals → Prop) : relation globals :=
  λ g g', I g → I g'.

(** The pond world after the classifier alone, on a grid of three by two
    chunks and on a strip of three by one. *)
Definition pond_classified : globals :=
  final (chunk_biome_analysis (H := pond_world) 3 2 (initial_globals 3 2)).

Definition strip_classified : globals :=
  final (chunk_biome_analysis (H := pond_world) 3 1 (initial_globals 3 1)).

Section SamplePoints.
Context `{Collaborators}.

(** The sample point [jx, jz] of chunk [cx, cz] (lines 221-226, 239-240)
    has a height in [hm] and starts no detection in [g]: its block is not
    artificial or is avoided already, and is not a fluid or is owned
    already. *)
Definition settled (hm : gmap (nat * nat) Z) (g : globals)
    (cx cz jx jz : nat) : Prop :=
  let localx := (cx * 16 + jx * SUB_CHUNK_RES)%nat in
  let localz := (cz * 16 + jz * SUB_CHUNK_RES)%nat in
  ∃ y, hm !! (localx, localz) = Some y
    ∧ let p := (Z.of_nat localx + STARTX, y, Z.of_nat localz + STARTZ) in
      (getBlock p.1.1 p.1.2 p.2 ∈ ARTIFICIAL → is_Some (to_avoid g !! p))
      ∧ (getBlock p.1.1 p.1.2 p.2 ∈ FLUID → is_Some (waterways g !! p)).

End SamplePoints.

(** * Properties *)

(** ** Slices and suffixes *)

Section Strings.
Local Open Scope string_scope.

Lemma app_nil (t : string) : "" ++ t = t.
  Proof. reflexivity. Qed.

Lemma app_cons (a : ascii) (s t : string) :
    String a s ++ t = String a (s ++ t).
  Proof. reflexivity. Qed.

Lemma string_length_app (p t : string) :
    String.length (p ++ t) = (String.length p + String.length t)%nat.
  Proof.
    induction p as [|a p IH]; [done|].
    rewrite app_cons. simpl. by rewrite IH.
  Qed.

Lemma take_drop (n : nat) (s : string) : Py.take n s ++ Py.drop n s = s.
  Proof.
    revert s; induction n as [|n IH]; intros [|a s]; simpl; try done.
    rewrite app_cons. f_equal. apply IH.
  Qed.

Lemma drop_app_length (p t : string) : Py.drop (String.length p) (p ++ t) = t.
  Proof.
    induction p as [|a p IH]; [by destruct t|].
    rewrite app_cons. simpl. apply IH.
  Qed.


  (** [s[-n:] == t] for a literal [t] of [n] characters says that [s] ends
      with [t]. *)
Lemma last_slice_iff (t s : string) :
    Py.last_slice (String.length t) s = t ↔ ∃ p, s = p ++ t.
  Proof.
    unfold Py.last_slice; split.
    - intros Hd. exists (Py.take (String.length s - String.length t) s).
      transitivity (Py.take (String.length s - String.length t) s
                    ++ Py.drop (String.length s - String.length t) s).
      + symmetry; apply take_drop.
      + by rewrite Hd.
    - intros [p ->]. rewrite string_length_app.
      replace (String.length p + String.length t - String.length t)%nat
        with (String.length p) by lia.
      apply drop_app_length.
  Qed.


Lemma mem_iff (x : string) (t : list string) : Py.mem x t = true ↔ x ∈ t.
  Proof.
    unfold Py.mem. rewrite existsb_exists, list_elem_of_In. split.
    - intros (y & Hy & Heq). apply String.eqb_eq in Heq. by subst.
    - intros Hx. exists x. split; [done | apply String.eqb_refl].
  Qed.

End Strings.

(** ** Naming of water bodies *)






(** ** The heightmap refiner *)

Section HeapFacts.
Implicit Types (hp : gmap nat (gmap (nat * nat) Z)) (l : nat) (k : nat * nat).

Lemma heap_read_write_eq hp l k h v :
    heap_read l k hp = Some h → heap_read l k (heap_write l k v hp) = Some v.
  Proof.
    unfold heap_read, heap_write. destruct (hp !! l) as [hm|] eqn:E; [|done].
    intros _. simpl. rewrite lookup_insert_eq. simpl. apply lookup_insert_eq.
  Qed.

Lemma heap_read_write_other hp l k k' v :
    k' ≠ k → heap_read l k' (heap_write l k v hp) = heap_read l k' hp.
  Proof.
    intros Hne. unfold heap_read, heap_write.
    destruct (hp !! l) as [hm|] eqn:E; [|by rewrite E].
    rewrite lookup_insert_eq. simpl. by rewrite lookup_insert_ne.
  Qed.

Lemma heap_write_other_object hp l l' k v :
    l' ≠ l → heap_write l k v hp !! l' = hp !! l'.
  Proof.
    intros Hne. unfold heap_write. destruct (hp !! l); [|done].
    by rewrite lookup_insert_ne.
  Qed.

Lemma heap_write_dom hp l k v : dom (heap_write l k v hp) = dom hp.
  Proof.
    unfold heap_write. destruct (hp !! l) as [hm|] eqn:E; [|done].
    apply dom_insert_lookup_L. by eexists.
  Qed.

Lemma heap_write_id hp l k h :
    heap_read l k hp = Some h → heap_write l k h hp = hp.
  Proof.
    unfold heap_read, heap_write. destruct (hp !! l) as [hm|] eqn:E; [|done].
    simpl. intros Hk. rewrite (insert_id hm k h Hk). by apply insert_id.
  Qed.

Lemma heap_write_write hp l k v w :
    heap_write l k w (heap_write l k v hp) = heap_write l k w hp.
  Proof.
    unfold heap_write. destruct (hp !! l) as [hm|] eqn:E; [|by rewrite E].
    rewrite lookup_insert_eq. by rewrite !insert_insert_eq.
  Qed.

End HeapFacts.

(** The least index at which a boolean sequence is false. *)
Lemma least_false (P : nat → bool) (n : nat) :
  P n = false → ∃ m, P m = false ∧ ∀ i, (i < m)%nat → P i = true.
Proof.
  revert P; induction n as [|n IH]; intros P Hn.
  - exists 0%nat. split; [done | lia].
  - destruct (P 0%nat) eqn:H0.
    + destruct (IH (λ i, P (S i)) Hn) as (m & Hm & Hlt).
      exists (S m). split; [done|]. intros [|i] Hi; [done | apply Hlt; lia].
    + exists 0%nat. split; [done | lia].
Qed.

(** Heights of a 64-bit array. *)
Lemma wrap64_id (z : Z) : int64 z → wrap64 z = z.
Proof.
  unfold int64, wrap64. intros Hz.
  change (2 ^ 64) with (2 * 2 ^ 63). rewrite Z.mod_small; lia.
Qed.

Lemma wrap64_range (z : Z) : int64 (wrap64 z).
Proof.
  unfold int64, wrap64.
  pose proof (Z.mod_pos_bound (z + 2 ^ 63) (2 ^ 64) eq_refl) as Hb.
  change (2 ^ 64) with (2 * 2 ^ 63) in *. lia.
Qed.

Lemma wrap64_lower (z : Z) : wrap64 (wrap64 z - 1) = wrap64 (z - 1).
Proof.
  unfold wrap64. f_equal.
  replace ((z + 2 ^ 63) mod 2 ^ 64 - 2 ^ 63 - 1 + 2 ^ 63)
    with ((z + 2 ^ 63) mod 2 ^ 64 - 1) by lia.
  replace (z - 1 + 2 ^ 63) with (z + 2 ^ 63 - 1) by lia.
  apply Zminus_mod_idemp_l.
Qed.

Lemma lowered_S (n : nat) (h : Z) :
  lowered (S n) h = lowered n (wrap64 (h - 1)).
Proof. unfold lowered. by rewrite Nat.iter_succ_r. Qed.

Lemma lowered_wrap (n : nat) (h : Z) :
  int64 h → lowered n h = wrap64 (h - Z.of_nat n).
Proof.
  intros Hh. induction n as [|n IH].
  - change (lowered 0 h) with h. rewrite Z.sub_0_r. by rewrite wrap64_id.
  - change (lowered (S n) h) with (wrap64 (lowered n h - 1)).
    rewrite IH, wrap64_lower. f_equal. lia.
Qed.

Lemma lowered_plain (n : nat) (h : Z) :
  int64 h → - 2 ^ 63 ≤ h - Z.of_nat n → lowered n h = h - Z.of_nat n.
Proof.
  intros Hh Hn. rewrite lowered_wrap by done. apply wrap64_id.
  unfold int64 in *. lia.
Qed.

Section RefinerFacts.
Context `{Collaborators}.
Implicit Types (hp : gmap nat (gmap (nat * nat) Z)) (l : nat) (k : nat * nat).

Lemma is_foliage_or_air_iff (b : string) :
    is_foliage_or_air b = true ↔ foliage_or_air b.
  Proof.
    unfold is_foliage_or_air, foliage_or_air, ends_with.
    rewrite !orb_true_iff, !String.eqb_eq, mem_iff.
    rewrite <- (last_slice_iff "_log"), <- (last_slice_iff "_leaves").
    tauto.
  Qed.

Lemma is_foliage_or_air_false (b : string) :
    is_foliage_or_air b = false ↔ ¬ foliage_or_air b.
  Proof.
    rewrite <- is_foliage_or_air_iff. by destruct (is_foliage_or_air b).
  Qed.

  (** The loop leaves the column at the first block, counted downwards
      from the stored height, that fails the test of line 151. *)
Lemma descend_result gx gz l k (n : nat) : ∀ hp h fuel,
    heap_read l k hp = Some h →
    (∀ i, (i < n)%nat →
       is_foliage_or_air (getBlock gx (lowered i h) gz) = true) →
    is_foliage_or_air (getBlock gx (lowered n h) gz) = false →
    (n < fuel)%nat →
    descend fuel gx gz l k hp = Finished (heap_write l k (lowered n h) hp).
  Proof.
    induction n as [|n IH]; intros hp h fuel Hr Hfol Hstop Hfuel;
      (destruct fuel as [|fuel]; [lia|]); cbn [descend]; rewrite Hr.
    - change (lowered 0 h) with h in *.
      rewrite Hstop. by rewrite heap_write_id.
    - pose proof (Hfol 0%nat ltac:(lia)) as H0.
      change (lowered 0 h) with h in H0. rewrite H0.
      rewrite (IH (heap_write l k (wrap64 (h - 1)) hp) (wrap64 (h - 1)) fuel).
      + by rewrite heap_write_write, lowered_S.
      + by eapply heap_read_write_eq.
      + intros i Hi. rewrite <- lowered_S. apply Hfol. lia.
      + by rewrite <- lowered_S.
      + lia.
  Qed.

  (** Conversely, a finished loop has found such a block. *)
Lemma descend_finished gx gz l k (fuel : nat) : ∀ hp hp',
    descend fuel gx gz l k hp = Finished hp' →
    ∃ h (n : nat),
      heap_read l k hp = Some h
      ∧ hp' = heap_write l k (lowered n h) hp
      ∧ (∀ i, (i < n)%nat →
           is_foliage_or_air (getBlock gx (lowered i h) gz) = true)
      ∧ is_foliage_or_air (getBlock gx (lowered n h) gz) = false.
  Proof.
    induction fuel as [|fuel IH]; intros hp hp' Hd; [done|].
    cbn [descend] in Hd. destruct (heap_read l k hp) as [h|] eqn:Hr; [|done].
    destruct (is_foliage_or_air (getBlock gx h gz)) eqn:Hb.
    - apply IH in Hd as (h1 & n & Hr1 & -> & Hfol & Hstop).
      erewrite heap_read_write_eq in Hr1 by done. injection Hr1 as <-.
      exists h, (S n). split; [done|]. split; [|split].
      + by rewrite heap_write_write, lowered_S.
      + intros [|i] Hi; [done|]. rewrite lowered_S. apply Hfol. lia.
      + by rewrite lowered_S.
    - injection Hd as <-. exists h, 0%nat. change (lowered 0 h) with h.
      split; [done|]. split; [by rewrite heap_write_id|]. split; [lia|done].
  Qed.

  (** Once the first read of a column has succeeded, the later ones do. *)
Lemma descend_failed gx gz l k (fuel : nat) : ∀ hp e,
    descend fuel gx gz l k hp = Failed e →
    e = IndexError ∧ heap_read l k hp = None.
  Proof.
    induction fuel as [|fuel IH]; intros hp e Hd; [done|].
    cbn [descend] in Hd. destruct (heap_read l k hp) as [h|] eqn:Hr.
    - destruct (is_foliage_or_air (getBlock gx h gz)); [|done].
      apply IH in Hd as [_ Hnone].
      by erewrite heap_read_write_eq in Hnone.
    - by injection Hd as <-.
  Qed.

  (** The loop ends exactly on the columns that hold, on the way down from
      the stored height, a block that fails the test. *)
Lemma descend_terminates_iff gx gz l k hp h :
    heap_read l k hp = Some h →
    (∃ fuel hp', descend fuel gx gz l k hp = Finished hp')
    ↔ (∃ n : nat, ¬ foliage_or_air (getBlock gx (lowered n h) gz)).
  Proof.
    intros Hr. split.
    - intros (fuel & hp' & Hd).
      apply descend_finished in Hd as (h' & n & Hr' & _ & _ & Hstop).
      rewrite Hr in Hr'. injection Hr' as <-.
      exists n. by apply is_foliage_or_air_false.
    - intros (n & Hn). apply is_foliage_or_air_false in Hn.
      destruct (least_false
                  (λ i, is_foliage_or_air (getBlock gx (lowered i h) gz))
                  n Hn) as (m & Hm & Hlt).
      exists (S m), (heap_write l k (lowered m h) hp).
      apply descend_result; auto.
  Qed.

  (** On a column that only holds logs, leaves and air on the way down from
      the stored height the loop is still running after any number of
      iterations. *)
Lemma descend_diverges gx gz l k : ∀ fuel hp h,
    heap_read l k hp = Some h →
    (∀ n, foliage_or_air (getBlock gx (lowered n h) gz)) →
    descend fuel gx gz l k hp = OutOfFuel.
  Proof.
    induction fuel as [|fuel IH]; intros hp h Hr Hall; [done|].
    cbn [descend]. rewrite Hr.
    assert (Hb : is_foliage_or_air (getBlock gx h gz) = true).
    { apply is_foliage_or_air_iff, (Hall 0%nat). }
    rewrite Hb. apply (IH _ (wrap64 (h - 1))).
    - by eapply heap_read_write_eq.
    - intros n. rewrite <- lowered_S. apply Hall.
  Qed.

End RefinerFacts.

(** ** The refiner and the memory of the world slice *)

Lemma elem_of_loop2d (a b x z : nat) :
  (x, z) ∈ loop2d a b ↔ (x < a)%nat ∧ (z < b)%nat.
Proof.
  unfold loop2d. rewrite list_elem_of_bind. split.
  - intros (x' & Hin & Hx). apply list_elem_of_fmap in Hin as (z' & Heq & Hz).
    injection Heq as -> ->. apply elem_of_seq in Hx, Hz. lia.
  - intros [Hx Hz]. exists x. split.
    + apply list_elem_of_fmap. exists z. split; [done|]. apply elem_of_seq. lia.
    + apply elem_of_seq. lia.
Qed.

Lemma NoDup_loop2d (a b : nat) : NoDup (loop2d a b).
Proof.
  unfold loop2d. apply NoDup_bind.
  - intros x1 x2 [x z] _ _ H1 H2.
    apply list_elem_of_fmap in H1 as (? & [= -> ->] & _).
    by apply list_elem_of_fmap in H2 as (? & [= -> ->] & _).
  - intros x _. apply NoDup_fmap_2; [|apply NoDup_seq].
    by intros z1 z2 [= ->].
  - apply NoDup_seq.
Qed.

Section RefinerMemory.
Context `{Collaborators}.
Implicit Types (hp : gmap nat (gmap (nat * nat) Z)) (l : nat) (k : nat * nat).

(** What one pass over the columns does to the heap: only the object [l]
    changes, only at the listed columns, and each of these is lowered to
    its first block that is neither foliage nor air. *)
Lemma refine_columns_finished fuel ax az l : ∀ cols hp hp',
  NoDup cols →
  refine_columns fuel ax az l cols hp = Finished hp' →
  (∀ l', l' ≠ l → hp' !! l' = hp !! l')
  ∧ dom hp' = dom hp
  ∧ (∀ k, k ∉ cols → heap_read l k hp' = heap_read l k hp)
  ∧ (∀ k, k ∈ cols →
       ∃ h (n : nat),
         heap_read l k hp = Some h
         ∧ heap_read l k hp' = Some (lowered n h)
         ∧ (∀ i, (i < n)%nat →
              is_foliage_or_air
                (getBlock (ax + Z.of_nat k.1) (lowered i h)
                          (az + Z.of_nat k.2)) = true)
         ∧ is_foliage_or_air
             (getBlock (ax + Z.of_nat k.1) (lowered n h)
                       (az + Z.of_nat k.2)) = false).
Proof.
  induction cols as [|[x z] cols IH]; intros hp hp' Hnd Hrun.
  - injection Hrun as <-. repeat split; try done. intros k Hk. by inv Hk.
  - cbn [refine_columns] in Hrun. apply NoDup_cons in Hnd as [Hfresh Hnd].
    destruct (descend fuel (ax + Z.of_nat x) (az + Z.of_nat z) l (x, z) hp)
      as [hp1| |] eqn:Hd; try done.
    apply descend_finished in Hd as (h & n & Hr & -> & Hfol & Hstop).
    destruct (IH _ _ Hnd Hrun) as (Hobj & Hdom & Hout & Hin).
    split; [|split; [|split]].
    + intros l' Hl'. rewrite Hobj by done. by apply heap_write_other_object.
    + by rewrite Hdom, heap_write_dom.
    + intros k Hk. apply not_elem_of_cons in Hk as [Hne Hk].
      rewrite Hout by done. by apply heap_read_write_other.
    + intros k Hk. apply elem_of_cons in Hk as [->|Hk].
      * exists h, n. split; [done|]. split; [|done].
        rewrite Hout by done. by eapply heap_read_write_eq.
      * destruct (Hin k Hk) as (h' & n' & Hr' & Hr'' & Hfol' & Hstop').
        exists h', n'. split; [|done].
        rewrite heap_read_write_other in Hr'; [done|].
        intros ->. by apply Hfresh.
Qed.

(** A pass that fails has met a column that the array lacks. *)
Lemma refine_columns_failed fuel ax az l : ∀ cols hp e,
  NoDup cols →
  refine_columns fuel ax az l cols hp = Failed e →
  e = IndexError ∧ ∃ k, k ∈ cols ∧ heap_read l k hp = None.
Proof.
  induction cols as [|[x z] cols IH]; intros hp e Hnd Hrun; [done|].
  cbn [refine_columns] in Hrun. apply NoDup_cons in Hnd as [Hfresh Hnd].
  destruct (descend fuel (ax + Z.of_nat x) (az + Z.of_nat z) l (x, z) hp)
    as [hp1|e1|] eqn:Hd; [| |done].
  - apply descend_finished in Hd as (h & n & Hr & -> & _ & _).
    destruct (IH _ _ Hnd Hrun) as (-> & k & Hk & Hnone). split; [done|].
    exists k. split; [by right|].
    rewrite heap_read_write_other in Hnone; [done|].
    intros ->. by apply Hfresh.
  - injection Hrun as ->. apply descend_failed in Hd as [-> Hnone].
    split; [done|]. exists (x, z). split; [by left|done].
Qed.

(** With enough fuel a pass over columns whose stored heights all lead
    down to a block that is neither foliage nor air has an outcome: it
    finishes when the array has every column, and fails with IndexError
    when it lacks one. *)
Lemma refine_columns_outcome ax az l : ∀ cols hp,
  NoDup cols →
  (∀ k h, k ∈ cols → heap_read l k hp = Some h →
     ∃ n : nat,
       is_foliage_or_air
         (getBlock (ax + Z.of_nat k.1) (lowered n h) (az + Z.of_nat k.2))
       = false) →
  ∃ fuel0, ∀ fuel, (fuel0 ≤ fuel)%nat →
    ((∀ k, k ∈ cols → is_Some (heap_read l k hp))
     ∧ ∃ hp', refine_columns fuel ax az l cols hp = Finished hp')
    ∨ ((∃ k, k ∈ cols ∧ heap_read l k hp = None)
       ∧ refine_columns fuel ax az l cols hp = Failed IndexError).
Proof.
  induction cols as [|[x z] cols IH]; intros hp Hnd Hcols.
  - exists 0%nat. intros fuel _. left. split; [intros k Hk; by inv Hk|].
    by eexists.
  - apply NoDup_cons in Hnd as [Hfresh Hnd].
    destruct (heap_read l (x, z) hp) as [h|] eqn:Hr.
    + destruct (Hcols (x, z) h) as [n Hn]; [by left|done|].
      destruct (least_false
                  (λ i, is_foliage_or_air
                          (getBlock (ax + Z.of_nat x) (lowered i h)
                                    (az + Z.of_nat z)))
                  n Hn) as (m & Hm & Hlt).
      assert (Hother : ∀ k, k ∈ cols →
                heap_read l k (heap_write l (x, z) (lowered m h) hp)
                = heap_read l k hp).
      { intros k Hk. apply heap_read_write_other. intros ->. done. }
      destruct (IH (heap_write l (x, z) (lowered m h) hp) Hnd)
        as [fuel1 Hrest].
      { intros k h' Hk Hr'. rewrite Hother in Hr' by done.
        apply (Hcols k h'); [by right|done]. }
      exists (Nat.max (S m) fuel1). intros fuel Hfuel.
      cbn [refine_columns].
      rewrite (descend_result _ _ _ _ m hp h fuel Hr Hlt Hm) by lia.
      destruct (Hrest fuel ltac:(lia)) as [[Hall Hfin] | [Hmiss Hfail]].
      * left. split; [|done]. intros k [-> | Hk]%elem_of_cons.
        -- by eexists.
        -- rewrite <- Hother by done. by apply Hall.
      * right. split; [|done]. destruct Hmiss as (k & Hk & Hnone).
        exists k. split; [by right|]. by rewrite <- Hother.
    + exists 1%nat. intros [|fuel] Hfuel; [lia|]. right. split.
      * exists (x, z). split; [by left|done].
      * cbn [refine_columns descend]. by rewrite Hr.
Qed.

(** On a rectangle whose columns all have a stored height that leads down
    to a block that is neither foliage nor air, the refiner returns the
    stored reference, whatever fuel above some bound it is given. *)
Lemma refiner_returns (m : memory) (l : nat) (ax az dx dz : Z) :
  heightmaps (slice m) !! "MOTION_BLOCKING_NO_LEAVES"%string = Some l →
  rect (slice m) = (ax, az, dx, dz) →
  (∀ x z, (x < Z.to_nat dx)%nat → (z < Z.to_nat dz)%nat →
     ∃ h (n : nat),
       heap_read l (x, z) (heap m) = Some h
       ∧ ¬ foliage_or_air
             (getBlock (ax + Z.of_nat x) (lowered n h) (az + Z.of_nat z))) →
  ∃ fuel0, ∀ fuel, (fuel0 ≤ fuel)%nat →
    ∃ m', calculateTreelessHeightmap fuel m = Finished (m', l).
Proof.
  intros Hl Hrect Hsolid.
  destruct (refine_columns_outcome ax az l
              (loop2d (Z.to_nat dx) (Z.to_nat dz)) (heap m))
    as [fuel0 Hout]; [apply NoDup_loop2d| |].
  - intros [x z] h [Hx Hz]%elem_of_loop2d Hr.
    destruct (Hsolid x z Hx Hz) as (h' & n & Hr' & Hn).
    rewrite Hr in Hr'. injection Hr' as <-.
    exists n. by apply is_foliage_or_air_false.
  - exists fuel0. intros fuel Hfuel.
    unfold calculateTreelessHeightmap. rewrite Hl, Hrect.
    destruct (Hout fuel Hfuel) as [[_ [hp' ->]] | [(k & Hk & Hnone) _]].
    + by eexists.
    + destruct k as [x z]. apply elem_of_loop2d in Hk as [Hx Hz].
      destruct (Hsolid x z Hx Hz) as (h & _ & Hr & _). congruence.
Qed.

(** What a call that returned has done. *)
Lemma refiner_returned fuel (m m' : memory) (l r : nat) (ax az dx dz : Z) :
  heightmaps (slice m) !! "MOTION_BLOCKING_NO_LEAVES"%string = Some l →
  rect (slice m) = (ax, az, dx, dz) →
  calculateTreelessHeightmap fuel m = Finished (m', r) →
  r = l
  ∧ slice m' = slice m
  ∧ dom (heap m') = dom (heap m)
  ∧ (∀ l', l' ≠ l → heap m' !! l' = heap m !! l')
  ∧ (∀ x z, ¬ ((x < Z.to_nat dx)%nat ∧ (z < Z.to_nat dz)%nat) →
       heap_read l (x, z) (heap m') = heap_read l (x, z) (heap m))
  ∧ (∀ x z, (x < Z.to_nat dx)%nat → (z < Z.to_nat dz)%nat →
       ∃ h (n : nat),
         heap_read l (x, z) (heap m) = Some h
         ∧ heap_read l (x, z) (heap m') = Some (lowered n h)
         ∧ (∀ i, (i < n)%nat →
              foliage_or_air
                (getBlock (ax + Z.of_nat x) (lowered i h) (az + Z.of_nat z)))
         ∧ ¬ foliage_or_air
               (getBlock (ax + Z.of_nat x) (lowered n h) (az + Z.of_nat z))).
Proof.
  intros Hl Hrect Hcall. unfold calculateTreelessHeightmap in Hcall.
  rewrite Hl, Hrect in Hcall.
  destruct (refine_columns fuel ax az l
              (loop2d (Z.to_nat dx) (Z.to_nat dz)) (heap m))
    as [hp'| |] eqn:Hrun; try done.
  injection Hcall as <- <-. simpl.
  apply refine_columns_finished in Hrun as (Hobj & Hdom & Hout & Hin);
    [|apply NoDup_loop2d].
  split; [done|]. split; [done|]. split; [done|]. split; [done|]. split.
  - intros x z Hxz. apply Hout. by rewrite elem_of_loop2d.
  - intros x z Hx Hz.
    destruct (Hin (x, z)) as (h & n & Hr & Hr' & Hfol & Hstop);
      [by apply elem_of_loop2d|].
    simpl in Hfol, Hstop. exists h, n.
    split; [done|]. split; [done|]. split.
    + intros i Hi. by apply is_foliage_or_air_iff, Hfol.
    + by apply is_foliage_or_air_false.
Qed.

(** C5, as the code has it. The descent loop of a column has no bound at
    the floor of the world: it lowers the stored height one at a time, also
    below the floor, and the height, an entry of a 64-bit array, wraps
    around from the least to the greatest value. The loop ends exactly
    when a block that is neither a log, a leaf block nor air is met on this
    way down, and it then leaves the column at the first such block; on a
    column without such a block the loop never ends. *)
Theorem descent_ends_iff_solid_below gx gz l k hp h :
  heap_read l k hp = Some h →
  ((∃ fuel hp', descend fuel gx gz l k hp = Finished hp')
   ↔ (∃ n : nat, ¬ foliage_or_air (getBlock gx (lowered n h) gz)))
  ∧ (∀ fuel hp', descend fuel gx gz l k hp = Finished hp' →
       ∃ n : nat,
         hp' = heap_write l k (lowered n h) hp
         ∧ ¬ foliage_or_air (getBlock gx (lowered n h) gz)
         ∧ ∀ i, (i < n)%nat → foliage_or_air (getBlock gx (lowered i h) gz))
  ∧ ((∀ n, foliage_or_air (getBlock gx (lowered n h) gz)) →
     ∀ fuel, descend fuel gx gz l k hp = OutOfFuel)
  ∧ (int64 h →
     ∀ n : nat,
       lowered n h = wrap64 (h - Z.of_nat n)
       ∧ (- 2 ^ 63 ≤ h - Z.of_nat n → lowered n h = h - Z.of_nat n)).
Proof.
  intros Hr. split; [by apply descend_terminates_iff|]. split; [|split].
  - intros fuel hp' Hd.
    apply descend_finished in Hd as (h' & n & Hr' & -> & Hfol & Hstop).
    rewrite Hr in Hr'. injection Hr' as <-. exists n. split; [done|].
    split; [by apply is_foliage_or_air_false|].
    intros i Hi. by apply is_foliage_or_air_iff, Hfol.
  - intros Hall fuel. by eapply descend_diverges.
  - intros Hh n. split; [by apply lowered_wrap|by apply lowered_plain].
Qed.

(** C6. In every column of a rectangle that is not empty the refiner
    lowers the stored height while the block at that height, at the
    column's place in the world, ends in "_log" or "_leaves" or is in the
    air category, and it stops at the first block on the way down that is
    none of these: when every column has such a block the call returns,
    and a call that returned has left every column at that block. A column
    showing leaf, leaf, log and then a solid block from the starting height
    downwards is refined to the height of the solid block. *)
Theorem refiner_stops_at_first_solid (m : memory) (l : nat)
    (ax az dx dz : Z) :
  heightmaps (slice m) !! "MOTION_BLOCKING_NO_LEAVES"%string = Some l →
  rect (slice m) = (ax, az, dx, dz) →
  0 < dx → 0 < dz →
  (∀ x z, (x < Z.to_nat dx)%nat → (z < Z.to_nat dz)%nat →
     ∃ h (n : nat),
       heap_read l (x, z) (heap m) = Some h
       ∧ ¬ foliage_or_air
             (getBlock (ax + Z.of_nat x) (lowered n h) (az + Z.of_nat z))) →
  (∀ b, is_foliage_or_air b = true ↔ foliage_or_air b)
  ∧ (∃ fuel0, ∀ fuel, (fuel0 ≤ fuel)%nat →
       ∃ m', calculateTreelessHeightmap fuel m = Finished (m', l))
  ∧ (∀ fuel m' r, calculateTreelessHeightmap fuel m = Finished (m', r) →
       ∀ x z, (x < Z.to_nat dx)%nat → (z < Z.to_nat dz)%nat →
         ∃ h (n : nat),
           heap_read l (x, z) (heap m) = Some h
           ∧ heap_read l (x, z) (heap m') = Some (lowered n h)
           ∧ (∀ i, (i < n)%nat →
                foliage_or_air
                  (getBlock (ax + Z.of_nat x) (lowered i h)
                            (az + Z.of_nat z)))
           ∧ ¬ foliage_or_air
                 (getBlock (ax + Z.of_nat x) (lowered n h) (az + Z.of_nat z))
           ∧ (int64 h → - 2 ^ 63 ≤ h - Z.of_nat n →
              lowered n h = h - Z.of_nat n)
           ∧ (int64 h → - 2 ^ 63 ≤ h - 3 →
              ends_with "_leaves"
                (getBlock (ax + Z.of_nat x) h (az + Z.of_nat z)) →
              ends_with "_leaves"
                (getBlock (ax + Z.of_nat x) (h - 1) (az + Z.of_nat z)) →
              ends_with "_log"
                (getBlock (ax + Z.of_nat x) (h - 2) (az + Z.of_nat z)) →
              ¬ foliage_or_air
                  (getBlock (ax + Z.of_nat x) (h - 3) (az + Z.of_nat z)) →
              heap_read l (x, z) (heap m') = Some (h - 3))).
Proof.
  intros Hl Hrect _ _ Hsolid. split; [apply is_foliage_or_air_iff|].
  split; [by eapply refiner_returns|].
  intros fuel m' r Hcall x z Hx Hz.
  destruct (refiner_returned fuel m m' l r ax az dx dz Hl Hrect Hcall)
    as (_ & _ & _ & _ & _ & Hin).
  destruct (Hin x z Hx Hz) as (h & n & Hr & Hr' & Hfol & Hstop).
  exists h, n. split; [done|]. split; [done|]. split; [done|].
  split; [done|]. split; [by apply lowered_plain|].
  intros Hh Hlow H0 H1 H2 H3. rewrite Hr'. f_equal.
  assert (Hl0 : lowered 0 h = h) by done.
  assert (Hl1 : lowered 1 h = h - 1) by (apply lowered_plain; [done|lia]).
  assert (Hl2 : lowered 2 h = h - 2) by (apply lowered_plain; [done|lia]).
  assert (Hl3 : lowered 3 h = h - 3) by (apply lowered_plain; [done|lia]).
  destruct (Nat.lt_trichotomy n 3) as [Hlt | [-> | Hgt]]; [|done|].
  - exfalso. apply Hstop. unfold foliage_or_air.
    destruct n as [|[|[|n]]]; [| | |lia].
    + rewrite Hl0. auto.
    + rewrite Hl1. auto.
    + rewrite Hl2. auto.
  - exfalso. apply H3. rewrite <- Hl3. apply Hfol. lia.
Qed.

(** C10. The refiner works on the world slice it is given. On a rectangle
    that is not empty and whose columns all lead down to a block that is
    neither foliage nor air the call returns, and the reference a call
    returns is the one stored under MOTION_BLOCKING_NO_LEAVES: no array is
    allocated, the refined heights are written into that very array (so a
    column that started on foliage or air no longer shows its raw height),
    and nothing else changes: not the fields of the slice, not the other
    arrays, not the entries outside the rectangle. *)
Theorem refiner_mutates_snapshot_in_place (m : memory) (l : nat)
    (ax az dx dz : Z) :
  heightmaps (slice m) !! "MOTION_BLOCKING_NO_LEAVES"%string = Some l →
  rect (slice m) = (ax, az, dx, dz) →
  0 < dx → 0 < dz →
  (∀ x z, (x < Z.to_nat dx)%nat → (z < Z.to_nat dz)%nat →
     ∃ h (n : nat),
       heap_read l (x, z) (heap m) = Some h
       ∧ ¬ foliage_or_air
             (getBlock (ax + Z.of_nat x) (lowered n h) (az + Z.of_nat z))) →
  (∃ fuel0, ∀ fuel, (fuel0 ≤ fuel)%nat →
     ∃ m', calculateTreelessHeightmap fuel m = Finished (m', l))
  ∧ (∀ fuel m' r, calculateTreelessHeightmap fuel m = Finished (m', r) →
       r = l
       ∧ slice m' = slice m
       ∧ dom (heap m') = dom (heap m)
       ∧ (∀ l', l' ≠ l → heap m' !! l' = heap m !! l')
       ∧ (∀ x z, ¬ ((x < Z.to_nat dx)%nat ∧ (z < Z.to_nat dz)%nat) →
            heap_read l (x, z) (heap m') = heap_read l (x, z) (heap m))
       ∧ (∀ x z, (x < Z.to_nat dx)%nat → (z < Z.to_nat dz)%nat →
            ∃ h (n : nat),
              heap_read l (x, z) (heap m) = Some h
              ∧ heap_read l (x, z) (heap m') = Some (lowered n h)
              ∧ ¬ foliage_or_air
                    (getBlock (ax + Z.of_nat x) (lowered n h)
                              (az + Z.of_nat z))
              ∧ (foliage_or_air
                   (getBlock (ax + Z.of_nat x) h (az + Z.of_nat z)) →
                 heap_read l (x, z) (heap m')
                 ≠ heap_read l (x, z) (heap m)))).
Proof.
  intros Hl Hrect _ _ Hsolid. split; [by eapply refiner_returns|].
  intros fuel m' r Hcall.
  destruct (refiner_returned fuel m m' l r ax az dx dz Hl Hrect Hcall)
    as (Href & Hslice & Hdom & Hobj & Hout & Hin).
  split; [done|]. split; [done|]. split; [done|]. split; [done|].
  split; [done|]. intros x z Hx Hz.
  destruct (Hin x z Hx Hz) as (h & n & Hr & Hr' & _ & Hstop).
  exists h, n. split; [done|]. split; [done|]. split; [done|].
  intros Hraw. rewrite Hr, Hr'. intros [= Heq]. apply Hstop.
  by rewrite Heq.
Qed.

End RefinerMemory.

Lemma descent_ends_iff_solid_below_witness :
  (∃ fuel hp', descend (H := tree_world) fuel 0 0 0 (0%nat, 0%nat)
                 (one_column_heap 72) = Finished hp')
  ↔ (∃ n : nat, ¬ foliage_or_air (H := tree_world)
                    (getBlock (Collaborators := tree_world) 0 (lowered n 72) 0)).
Proof.
  refine (proj1 (descent_ends_iff_solid_below (H := tree_world)
                   0 0 0%nat (0%nat, 0%nat) (one_column_heap 72) 72 _)).
  reflexivity.
Defined.

(** C5, as stated, fails: in a world that is air at every height the loop
    of the column is still running after any number of iterations, and so
    is the refiner called on it. *)
Lemma descent_unbounded_in_hollow_world :
  heap_read 0 (0%nat, 0%nat) (one_column_heap 64) = Some 64
  ∧ (∀ fuel, descend (H := hollow_world) fuel 0 0 0 (0%nat, 0%nat)
               (one_column_heap 64) = OutOfFuel)
  ∧ (∀ fuel, calculateTreelessHeightmap (H := hollow_world) fuel
               (one_column_memory 64) = OutOfFuel).
Proof.
  assert (Hloop : ∀ fuel, descend (H := hollow_world) fuel 0 0 0
                            (0%nat, 0%nat) (one_column_heap 64) = OutOfFuel).
  { intros fuel.
    apply (descend_diverges (H := hollow_world) 0 0 0%nat (0%nat, 0%nat)
             fuel (one_column_heap 64) 64); [reflexivity|].
    intros n. apply (is_foliage_or_air_iff (H := hollow_world)).
    reflexivity. }
  split; [reflexivity|]. split; [exact Hloop|]. intros fuel.
  unfold calculateTreelessHeightmap.
  change (heightmaps (slice (one_column_memory 64))
            !! "MOTION_BLOCKING_NO_LEAVES"%string) with (Some 0%nat).
  change (rect (slice (one_column_memory 64))) with (0, 0, 1, 1).
  cbv beta iota. set (cols := loop2d _ _).
  assert (cols = [(0%nat, 0%nat)]) as -> by reflexivity.
  cbn [refine_columns].
  change (0 + Z.of_nat 0) with 0. by rewrite Hloop.
Qed.

Lemma refiner_stops_at_first_solid_witness :
  ∃ fuel m',
    calculateTreelessHeightmap (H := tree_world) fuel (one_column_memory 72)
    = Finished (m', 0%nat)
    ∧ heap_read 0 (0%nat, 0%nat) (heap m') = Some 69.
Proof.
  destruct (refiner_stops_at_first_solid (H := tree_world)
              (one_column_memory 72) 0%nat 0 0 1 1 eq_refl eq_refl
              eq_refl eq_refl)
    as (_ & [fuel0 Hfin] & Hres).
  - intros x z Hx Hz. change (Z.to_nat 1) with 1%nat in Hx, Hz.
    assert (x = 0%nat) as -> by lia. assert (z = 0%nat) as -> by lia.
    exists 72, 3%nat. split; [reflexivity|].
    apply (is_foliage_or_air_false (H := tree_world)). reflexivity.
  - destruct (Hfin fuel0 (le_n fuel0)) as [m' Hcall].
    exists fuel0, m'. split; [exact Hcall|].
    destruct (Hres fuel0 m' 0%nat Hcall 0%nat 0%nat)
      as (h & n & Hr & _ & _ & _ & _ & Hexample);
      [change (Z.to_nat 1) with 1%nat; lia..|].
    assert (h = 72) as ->.
    { change (heap_read 0 (0%nat, 0%nat) (heap (one_column_memory 72)))
        with (Some 72) in Hr. congruence. }
    apply Hexample.
    + unfold int64. lia.
    + lia.
    + by exists "minecraft:oak"%string.
    + by exists "minecraft:oak"%string.
    + by exists "minecraft:oak"%string.
    + apply (is_foliage_or_air_false (H := tree_world)). reflexivity.
Defined.

Lemma refiner_mutates_snapshot_in_place_witness :
  ∃ fuel m',
    calculateTreelessHeightmap (H := tree_world) fuel (one_column_memory 72)
    = Finished (m', 0%nat)
    ∧ slice m' = slice (one_column_memory 72)
    ∧ heap_read 0 (0%nat, 0%nat) (heap m')
      ≠ heap_read 0 (0%nat, 0%nat) (heap (one_column_memory 72)).
Proof.
  destruct (refiner_mutates_snapshot_in_place (H := tree_world)
              (one_column_memory 72) 0%nat 0 0 1 1 eq_refl eq_refl
              eq_refl eq_refl)
    as ([fuel0 Hfin] & Hres).
  - intros x z Hx Hz. change (Z.to_nat 1) with 1%nat in Hx, Hz.
    assert (x = 0%nat) as -> by lia. assert (z = 0%nat) as -> by lia.
    exists 72, 3%nat. split; [reflexivity|].
    apply (is_foliage_or_air_false (H := tree_world)). reflexivity.
  - destruct (Hfin fuel0 (le_n fuel0)) as [m' Hcall].
    exists fuel0, m'. split; [exact Hcall|].
    destruct (Hres fuel0 m' 0%nat Hcall) as (_ & Hslice & _ & _ & _ & Hcol).
    split; [exact Hslice|].
    destruct (Hcol 0%nat 0%nat) as (h & n & Hr & _ & _ & Hraw);
      [change (Z.to_nat 1) with 1%nat; lia..|].
    apply Hraw.
    assert (h = 72) as ->.
    { change (heap_read 0 (0%nat, 0%nat) (heap (one_column_memory 72)))
        with (Some 72) in Hr. congruence. }
    apply (is_foliage_or_air_iff (H := tree_world)). reflexivity.
Defined.

(** ** Reasoning about computations on the globals *)

Lemma bind_unfold {A B} (m : M A) (k : A → M B) (g : globals) :
  (m ≫= k) g = match m g with
               | Ok a g' => k a g'
               | Raise e g' => Raise e g'
               end.
Proof. reflexivity. Qed.

Lemma for_each_cons {A B} (f : A → B → M A) (b : B) (l : list B) (a : A) :
  for_each f (b :: l) a = (f a b ≫= for_each f l).
Proof. reflexivity. Qed.

Lemma for_each_app {A B} (f : A → B → M A) (l1 l2 : list B) (a : A) (g : globals) :
  for_each f (l1 ++ l2) a g = (for_each f l1 a ≫= for_each f l2) g.
Proof.
  revert a g; induction l1 as [|b l1 IH]; intros a g; [done|].
  simpl. rewrite !bind_unfold. destruct (f a b g) as [a' g'|e g']; [|done].
  rewrite IH. by rewrite bind_unfold.
Qed.

(** [m] relates every state to the state it leaves behind. *)
Definition preserves {A} (R : relation globals) (m : M A) : Prop :=
  ∀ g, R g (final (m g)).

Section Preserves.
Context (R : relation globals) `{!PreOrder R}.

Lemma preserves_ret {A} (a : A) : preserves R (mret a).
Proof. intros g. simpl. reflexivity. Qed.

Lemma preserves_raise {A} (e : exn) : preserves R (raise (A := A) e).
Proof. intros g. simpl. reflexivity. Qed.

Lemma preserves_lift {A} (e : exn) (o : option A) : preserves R (lift e o).
Proof. destruct o; [apply preserves_ret | apply preserves_raise]. Qed.

Lemma preserves_bind {A B} (m : M A) (k : A → M B) :
  preserves R m → (∀ a, preserves R (k a)) → preserves R (m ≫= k).
Proof.
  intros Hm Hk g. rewrite bind_unfold. specialize (Hm g).
  destruct (m g) as [a g'|e g']; simpl in *; [|done].
  etransitivity; [exact Hm | apply Hk].
Qed.

Lemma preserves_get_bind {A} (k : globals → M A) :
  (∀ g, R g (final (k g g))) → preserves R (get ≫= k).
Proof. intros Hk g. apply Hk. Qed.

Lemma preserves_for_each {A B} (f : A → B → M A) (l : list B) :
  (∀ a b, b ∈ l → preserves R (f a b)) → ∀ a, preserves R (for_each f l a).
Proof.
  induction l as [|b l IH]; intros Hf a; [apply preserves_ret|].
  rewrite for_each_cons. apply preserves_bind.
  - apply Hf. by left.
  - intros a'. apply IH. intros a'' b' Hb'. apply Hf. by right.
Qed.

Lemma preserves_read_chunk x z : preserves R (read_chunk x z).
Proof.
  intros g. unfold read_chunk.
  destruct (chunk_info g !! x) as [row|]; [|simpl; reflexivity].
  destruct (row !! z); simpl; reflexivity.
Qed.

Lemma preserves_read_waterbody name : preserves R (read_waterbody name).
Proof.
  intros g. unfold read_waterbody.
  destruct (waterbody_info g !! name); simpl; reflexivity.
Qed.

Lemma preserves_biome_operand i j : preserves R (biome_operand i j).
Proof.
  intros g. unfold biome_operand.
  destruct (Py.index (chunk_info g) i) as [row|]; [|simpl; reflexivity].
  destruct (Py.index row j) as [c|]; simpl; reflexivity.
Qed.

Lemma preserves_concat a b : preserves R (concat a b).
Proof.
  destruct a, b; first [apply preserves_ret | apply preserves_raise].
Qed.

Lemma preserves_surrounding_biomes cx cz :
  preserves R (surrounding_biomes cx cz).
Proof.
  unfold surrounding_biomes.
  repeat (apply preserves_bind;
          [first [apply preserves_biome_operand | apply preserves_concat]|];
          intros ?).
  apply preserves_ret.
Qed.

Lemma preserves_primary_biome_at i j : preserves R (primary_biome_at i j).
Proof.
  intros g. unfold primary_biome_at.
  destruct (Py.index (chunk_info g) i) as [row|]; [|simpl; reflexivity].
  destruct (Py.index row j) as [c|]; [|simpl; reflexivity].
  destruct (primary_biome c); simpl; reflexivity.
Qed.

End Preserves.

(** ** The chunk grid *)

Lemma entry_grid_set_eq ci x z c c' :
  entry ci x z = Some c → entry (grid_set x z c' ci) x z = Some c'.
Proof.
  unfold entry, grid_set. destruct (ci !! x) as [row|] eqn:Hx; [|done]. simpl.
  intros Hz. rewrite list_lookup_insert_eq by by eapply lookup_lt_Some.
  simpl. apply list_lookup_insert_eq. by eapply lookup_lt_Some.
Qed.

Lemma entry_grid_set_ne ci x z x' z' c' :
  (x, z) ≠ (x', z') → entry (grid_set x z c' ci) x' z' = entry ci x' z'.
Proof.
  intros Hne. unfold entry, grid_set.
  destruct (ci !! x) as [row|] eqn:Hx; [|done].
  destruct (decide (x = x')) as [<-|Hxx].
  - rewrite list_lookup_insert_eq by by eapply lookup_lt_Some.
    rewrite Hx. simpl. apply list_lookup_insert_ne. congruence.
  - by rewrite list_lookup_insert_ne.
Qed.

Lemma grid_set_id ci x z c : entry ci x z = Some c → grid_set x z c ci = ci.
Proof.
  unfold entry, grid_set. destruct (ci !! x) as [row|] eqn:Hx; [|done]. simpl.
  intros Hz. rewrite (list_insert_id row z c Hz). by apply list_insert_id.
Qed.

Lemma update_chunk_unfold x z f g :
  update_chunk x z f g =
  match entry (chunk_info g) x z with
  | Some c => Ok tt (set_chunk_info (grid_set x z (f c) (chunk_info g)) g)
  | None => Raise IndexError g
  end.
Proof.
  unfold update_chunk, entry, grid_set.
  destruct (chunk_info g !! x) as [row|]; [|done]. simpl.
  by destruct (row !! z).
Qed.

Lemma read_chunk_unfold x z g :
  read_chunk x z g = match entry (chunk_info g) x z with
                     | Some c => Ok c g
                     | None => Raise IndexError g
                     end.
Proof.
  unfold read_chunk, entry. destruct (chunk_info g !! x) as [row|]; [|done].
  simpl. by destruct (row !! z).
Qed.

(** ** The biome classifier *)

Lemma classify_chunk_overwrites pb bs c c' :
  classify_chunk pb bs c = classify_chunk pb bs c'.
Proof. reflexivity. Qed.

Lemma classify_chunk_exclusive pb bs c :
  exclusive "water" "water-adjacent" (classify_chunk pb bs c)
  ∧ exclusive "harsh" "flat" (classify_chunk pb bs c)
  ∧ NoDup (designations (classify_chunk pb bs c)).
Proof.
  unfold exclusive, classify_chunk.
  repeat match goal with
         | |- context [if ?b then _ else _] => destruct b
         end; simpl;
    (split; [|split]);
    rewrite ?list_elem_of_In, ?NoDup_ListNoDup; simpl;
    try (intros [Ha Hb]; intuition discriminate);
    repeat constructor; simpl; intuition discriminate.
Qed.

#[local] Instance chunks_rel_preorder (T : relation chunk) `{!PreOrder T} :
  PreOrder (chunks_rel T).
Proof.
  split.
  - intros g x z c Hc. exists c. split; [done | reflexivity].
  - intros g1 g2 g3 H12 H23 x z c3 Hc3.
    destruct (H23 _ _ _ Hc3) as (c2 & Hc2 & T23).
    destruct (H12 _ _ _ Hc2) as (c1 & Hc1 & T12).
    exists c1. split; [done | by etransitivity].
Qed.

#[local] Instance gains_flags_preorder : PreOrder gains_flags.
Proof.
  split.
  - intros c. repeat split. exists []. split; [by rewrite app_nil_r|].
    intros t Ht. by inv Ht.
  - intros c1 c2 c3 (Hp & Hb & e & He & Hin) (Hp' & Hb' & e' & He' & Hin').
    split; [congruence|]. split; [congruence|].
    exists (e ++ e'). split; [by rewrite He', He, app_assoc|].
    intros t [Ht|Ht]%elem_of_app; auto.
Qed.

#[local] Instance kept_or_classified_preorder : PreOrder kept_or_classified.
Proof.
  split.
  - by left.
  - intros c1 c2 c3 [->|H12] [->|H23]; unfold kept_or_classified; auto.
Qed.

Lemma chunks_rel_same_grid (T : relation chunk) `{!Reflexive T} g g' :
  chunk_info g' = chunk_info g → chunks_rel T g g'.
Proof. intros Heq x z c Hc. rewrite Heq in Hc. by exists c. Qed.

Lemma preserves_update_chunk (T : relation chunk) `{!Reflexive T} x z f :
  (∀ c, T c (f c)) → preserves (chunks_rel T) (update_chunk x z f).
Proof.
  intros Hf g. rewrite update_chunk_unfold.
  destruct (entry (chunk_info g) x z) as [c|] eqn:Hc; simpl.
  - intros x' z' c' Hc'. simpl in Hc'.
    destruct (decide ((x, z) = (x', z'))) as [[= <- <-]|Hne].
    + erewrite entry_grid_set_eq in Hc' by done. injection Hc' as <-.
      by exists c.
    + rewrite entry_grid_set_ne in Hc' by done. by exists c'.
  - by apply chunks_rel_same_grid.
Qed.

Lemma set_chunk_info_same g : set_chunk_info (chunk_info g) g = g.
Proof. by destruct g. Qed.

Section ClassifierFacts.
Context `{Collaborators}.

Lemma analyse_chunk_unfold x z g :
  analyse_chunk x z g =
  match entry (chunk_info g) x z with
  | Some _ => Ok tt (set_chunk_info
                       (grid_set x z (classified x z) (chunk_info g)) g)
  | None => Raise IndexError g
  end.
Proof. unfold analyse_chunk. by rewrite update_chunk_unfold. Qed.

(** A finished run of the classifier's loop over [l] has stored the
    classified record at every place of [l] and touched nothing else. *)
Lemma classifier_loop_result (l : list (nat * nat)) : ∀ g g1,
  for_each (λ _ '(x, z), analyse_chunk x z) l tt g = Ok tt g1 →
  (∀ x z, (x, z) ∈ l → entry (chunk_info g1) x z = Some (classified x z))
  ∧ (∀ x z, (x, z) ∉ l → entry (chunk_info g1) x z = entry (chunk_info g) x z)
  ∧ set_chunk_info (chunk_info g) g1 = g.
Proof.
  induction l as [|[x z] l IH]; intros g g1 Hrun.
  - injection Hrun as <-. split; [|split].
    + intros x z Hin. by inv Hin.
    + done.
    + apply set_chunk_info_same.
  - rewrite for_each_cons, bind_unfold, analyse_chunk_unfold in Hrun.
    destruct (entry (chunk_info g) x z) as [c|] eqn:Hc; [|done].
    destruct (IH _ _ Hrun) as (Hin & Hout & Hrest). simpl in Hout, Hrest.
    split; [|split].
    + intros x' z' Hxz. destruct (decide ((x', z') ∈ l)) as [Hl|Hl]; [auto|].
      apply elem_of_cons in Hxz as [[= -> ->]|Hxz]; [|done].
      rewrite Hout by done. by eapply entry_grid_set_eq.
    + intros x' z' Hxz. apply not_elem_of_cons in Hxz as [Hne Hxz].
      rewrite Hout by done. apply entry_grid_set_ne. congruence.
    + destruct g, g1; simpl in *. by injection Hrest as -> -> ->.
Qed.

(** On a grid that already holds the classified records the loop changes
    nothing. *)
Lemma classifier_loop_fixed (l : list (nat * nat)) (g : globals) :
  (∀ x z, (x, z) ∈ l → entry (chunk_info g) x z = Some (classified x z)) →
  for_each (λ _ '(x, z), analyse_chunk x z) l tt g = Ok tt g.
Proof.
  induction l as [|[x z] l IH]; intros Hl; [done|].
  rewrite for_each_cons, bind_unfold, analyse_chunk_unfold.
  rewrite (Hl x z) by by left.
  rewrite grid_set_id by (apply Hl; by left).
  rewrite set_chunk_info_same. apply IH. intros x' z' Hin. apply Hl. by right.
Qed.

(** The loop raises nothing on a grid that has a record at every place it
    visits. *)
Lemma classifier_loop_total (l : list (nat * nat)) : ∀ g,
  (∀ x z, (x, z) ∈ l → is_Some (entry (chunk_info g) x z)) →
  ∃ g1, for_each (λ _ '(x, z), analyse_chunk x z) l tt g = Ok tt g1.
Proof.
  induction l as [|[x z] l IH]; intros g Hl; [by exists g|].
  rewrite for_each_cons, bind_unfold, analyse_chunk_unfold.
  destruct (Hl x z) as [c Hc]; [by left|]. rewrite Hc.
  apply IH. intros x' z' Hin. simpl.
  destruct (decide ((x, z) = (x', z'))) as [[= <- <-]|Hne].
  - erewrite entry_grid_set_eq by done. by eexists.
  - rewrite entry_grid_set_ne by done. apply Hl. by right.
Qed.

Lemma preserves_chunk_biome_analysis X Z :
  preserves (chunks_rel kept_or_classified) (chunk_biome_analysis X Z).
Proof.
  unfold chunk_biome_analysis. apply preserves_for_each; [apply _|].
  intros [] [x z] _. unfold analyse_chunk.
  apply preserves_update_chunk; [apply _|].
  intros c. right. eexists _, _. apply classify_chunk_overwrites.
Qed.

(** C9. On a grid of the declared span the classifier finishes; run again
    on the state it left, with the world unchanged, it finishes in the very
    same state. Every record it wrote is the one computed from the world
    alone, and its designations hold no tag twice. *)
Theorem classifier_idempotent (X Z : nat) (g : globals) :
  (∀ x z, (x < X)%nat → (z < Z)%nat → is_Some (entry (chunk_info g) x z)) →
  ∃ g1, chunk_biome_analysis X Z g = Ok tt g1
        ∧ chunk_biome_analysis X Z g1 = Ok tt g1
        ∧ ∀ x z, (x < X)%nat → (z < Z)%nat →
            ∃ c, entry (chunk_info g1) x z = Some c
                 ∧ c = classified x z
                 ∧ NoDup (designations c).
Proof.
  intros Hshape. unfold chunk_biome_analysis.
  destruct (classifier_loop_total (loop2d X Z) g) as [g1 Hrun].
  { intros x z [Hx Hz]%elem_of_loop2d. by apply Hshape. }
  destruct (classifier_loop_result _ _ _ Hrun) as (Hin & _ & _).
  exists g1. split; [done|]. split.
  - by apply classifier_loop_fixed.
  - intros x z Hx Hz. exists (classified x z).
    split; [by apply Hin, elem_of_loop2d|]. split; [done|].
    apply classify_chunk_exclusive.
Qed.

End ClassifierFacts.

Lemma initial_entry (X Z x z : nat) :
  (x < X)%nat → (z < Z)%nat →
  entry (initial_chunk_info X Z) x z = Some chunk_info_template.
Proof.
  intros Hx Hz. unfold entry, initial_chunk_info.
  rewrite lookup_replicate_2 by done. simpl. by rewrite lookup_replicate_2.
Qed.

Lemma initial_entry_inv (X Z x z : nat) (c : chunk) :
  entry (initial_chunk_info X Z) x z = Some c → c = chunk_info_template.
Proof.
  unfold entry, initial_chunk_info. intros Hc.
  destruct (replicate X (replicate Z chunk_info_template) !! x)
    as [row|] eqn:Hrow; [|done].
  apply lookup_replicate in Hrow as [-> _]. simpl in Hc.
  by apply lookup_replicate in Hc as [-> _].
Qed.

Lemma classifier_idempotent_witness :
  ∃ g1, chunk_biome_analysis (H := tree_world) 2 2 (initial_globals 2 2)
        = Ok tt g1
        ∧ chunk_biome_analysis (H := tree_world) 2 2 g1 = Ok tt g1
        ∧ ∀ x z, (x < 2)%nat → (z < 2)%nat →
            ∃ c, entry (chunk_info g1) x z = Some c
                 ∧ c = classified (H := tree_world) x z
                 ∧ NoDup (designations c).
Proof.
  apply (classifier_idempotent (H := tree_world) 2 2 (initial_globals 2 2)).
  intros x z Hx Hz. exists chunk_info_template. by apply initial_entry.
Defined.

(** ** The sample pass, step by step *)

Lemma preserves_at {A} (R : relation globals) (m : M A) (g : globals) :
  preserves R m → R g (final (m g)).
Proof. auto. Qed.

Lemma put_bind_rel {A} (R : relation globals) `{!PreOrder R}
    (g g1 : globals) (k : unit → M A) :
  R g g1 → preserves R (k tt) → R g (final ((put g1 ≫= k) g)).
Proof. intros Hg Hk. etransitivity; [exact Hg | apply Hk]. Qed.

Section PassPreserves.
Context `{Collaborators}.
Context (R : relation globals) `{!PreOrder R}.
Hypothesis R_flag : ∀ x z tag,
  tag = "structure"%string ∨ tag = "water"%string →
  preserves R (update_chunk x z (flag_designation tag)).
Hypothesis R_avoid : ∀ g m, R g (set_to_avoid m g).
Hypothesis R_info : ∀ g m, R g (set_waterbody_info m g).
Hypothesis R_claim : ∀ g r name,
  waterways g !! r = None → R g (set_waterways (<[r := name]> (waterways g)) g).

Lemma preserves_write_waterbody name w : preserves R (write_waterbody name w).
Proof. intros g. apply R_info. Qed.

Lemma preserves_claim name cx cz r : preserves R (claim name cx cz r).
Proof.
  unfold claim. apply (preserves_get_bind R). intros g.
  destruct (waterways g !! r) as [owner|] eqn:Hr.
  - apply (preserves_at R), (preserves_bind R); [by apply (preserves_read_waterbody R)|].
    intros w. destruct (Py.mem owner (connections w)).
    + by apply (preserves_ret R).
    + apply (preserves_bind R); [by apply (preserves_read_waterbody R)|].
      intros w'. apply preserves_write_waterbody.
  - apply (put_bind_rel R); [by apply R_claim|].
    apply (preserves_bind R); [by apply (preserves_read_chunk R)|]. intros c.
    apply (preserves_bind R); [by apply (preserves_read_waterbody R)|]. intros w.
    apply (preserves_bind R); [apply preserves_write_waterbody|]. intros _.
    apply (preserves_bind R); [|intros; by apply (preserves_ret R)].
    by apply (preserves_surrounding_biomes R).
Qed.

Lemma preserves_detect_structure cx cz seed lo hi obs :
  preserves R (detect_structure cx cz seed lo hi obs).
Proof.
  unfold detect_structure. destruct seed as [[x y] z], lo as [[x1 y1] z1],
    hi as [[x2 y2] z2].
  apply (preserves_bind R); [apply R_flag; by left|]. intros _.
  destruct (flood_search_3D _ _ _ _ _ _ _ _ _ _ _ _) as [result newly_obs].
  apply (preserves_bind R); [ |intros; by apply (preserves_ret R)].
  apply (preserves_for_each R). intros _ r _.
  apply (preserves_get_bind R). intros g. apply R_avoid.
Qed.

Lemma preserves_detect_water cx cz seed lo hi obs :
  preserves R (detect_water cx cz seed lo hi obs).
Proof.
  unfold detect_water. destruct seed as [[x y] z], lo as [[x1 y1] z1],
    hi as [[x2 y2] z2].
  apply (preserves_bind R); [apply R_flag; by right|]. intros _.
  destruct (flood_search_3D _ _ _ _ _ _ _ _ _ _ _ _) as [result newly_obs].
  apply (preserves_bind R); [by apply (preserves_read_chunk R)|]. intros c.
  apply (preserves_bind R); [by apply (preserves_lift R)|]. intros pbiome.
  apply (preserves_bind R); [apply preserves_write_waterbody|]. intros _.
  apply (preserves_bind R); [ |intros; by apply (preserves_ret R)].
  apply (preserves_for_each R). intros _ r _. apply preserves_claim.
Qed.

Lemma preserves_sample hm cx cz obs j : preserves R (sample hm cx cz obs j).
Proof.
  unfold sample. destruct obs as [obs_struc obs_fluid], j as [jx jz].
  destruct (buildlocal2global _ 0 _) as [[globalx y0] globalz] eqn:Hglobal.
  apply (preserves_bind R); [by apply (preserves_lift R)|]. intros y.
  apply (preserves_get_bind R). intros g.
  destruct (_ && _).
  - apply (preserves_at R), (preserves_bind R);
      [apply preserves_detect_structure|intros; by apply (preserves_ret R)].
  - destruct (_ && _).
    + apply (preserves_at R), (preserves_bind R);
        [apply preserves_detect_water|intros; by apply (preserves_ret R)].
    + by apply (preserves_ret R).
Qed.

Lemma preserves_scan_chunk hm c : preserves R (scan_chunk hm c).
Proof.
  unfold scan_chunk. destruct c as [cx cz].
  apply (preserves_bind R); [ |intros; by apply (preserves_ret R)].
  apply (preserves_for_each R). intros obs j _. apply preserves_sample.
Qed.

Lemma preserves_sample_pass hm : preserves R (sample_pass hm).
Proof.
  unfold sample_pass. apply (preserves_get_bind R). intros g.
  apply (preserves_at R), (preserves_bind R); [ |].
  - intros g'. unfold first_row_length.
    destruct (chunk_info g' !! 0%nat); simpl; reflexivity.
  - intros zs. apply (preserves_for_each R). intros _ c _.
    apply preserves_scan_chunk.
Qed.

End PassPreserves.

(** ** Designations through the analysis *)

#[local] Instance waterways_kept_preorder : PreOrder waterways_kept.
Proof.
  split.
  - by intros g c b.
  - intros g1 g2 g3 H12 H23 c b Hc. by apply H23, H12.
Qed.

Lemma gains_flags_flag tag c :
  tag = "structure"%string ∨ tag = "water"%string →
  gains_flags c (flag_designation tag c).
Proof.
  intros Htag. unfold flag_designation.
  destruct (Py.mem tag (designations c)); [reflexivity|].
  repeat split. exists [tag]. split; [done|].
  intros t Ht. apply list_elem_of_singleton in Ht. by subst.
Qed.

Lemma gains_flags_exclusive c c' :
  gains_flags c c' → exclusive "harsh" "flat" c → exclusive "harsh" "flat" c'.
Proof.
  unfold exclusive. intros (_ & _ & extra & -> & Hextra) Hex [Hh Hf].
  apply Hex.
  apply elem_of_app in Hh as [Hh|Hh], Hf as [Hf|Hf]; try done;
    (destruct (Hextra _ Hh) as [?|?] || destruct (Hextra _ Hf) as [?|?]);
    discriminate.
Qed.

Lemma kept_or_classified_exclusive c c' :
  kept_or_classified c c' →
  exclusive "harsh" "flat" c → exclusive "harsh" "flat" c'.
Proof.
  intros [->|(pb & bs & ->)] Hex; [done|]. apply classify_chunk_exclusive.
Qed.

Section PassFacts.
Context `{Collaborators}.

(** The sample pass only ever appends "structure" and "water" to the
    designations of a record and leaves its biome fields alone. *)
Lemma sample_pass_gains_flags hm :
  preserves (chunks_rel gains_flags) (sample_pass hm).
Proof.
  apply preserves_sample_pass; [apply _|..].
  - intros x z tag Htag. apply preserves_update_chunk; [apply _|].
    intros c. by apply gains_flags_flag.
  - intros g m. by apply chunks_rel_same_grid; [apply _|].
  - intros g m. by apply chunks_rel_same_grid; [apply _|].
  - intros g r name _. by apply chunks_rel_same_grid; [apply _|].
Qed.

Lemma sample_gains_flags hm cx cz obs j :
  preserves (chunks_rel gains_flags) (sample hm cx cz obs j).
Proof.
  apply preserves_sample; [apply _|..].
  - intros x z tag Htag. apply preserves_update_chunk; [apply _|].
    intros c. by apply gains_flags_flag.
  - intros g m. by apply chunks_rel_same_grid; [apply _|].
  - intros g m. by apply chunks_rel_same_grid; [apply _|].
  - intros g r name _. by apply chunks_rel_same_grid; [apply _|].
Qed.

Lemma analysis_final xs zs hm g :
  final (analysis xs zs hm g) =
  match chunk_biome_analysis xs zs g with
  | Ok _ g1 => final (sample_pass hm g1)
  | Raise _ g1 => g1
  end.
Proof.
  unfold analysis. rewrite bind_unfold.
  by destruct (chunk_biome_analysis xs zs g).
Qed.

(** C1, as the code has it. The classifier never gives a chunk both
    "water" and "water-adjacent", nor both "harsh" and "flat"; the sample
    pass only appends "structure" and "water", at every sample point and
    hence as a whole, so "harsh" and "flat" stay exclusive during and after
    the whole analysis, whatever way it ends. *)
Theorem designations_exclusive (xs zs : nat) (hm : gmap (nat * nat) Z)
    (g : globals) :
  (∀ x z c, entry (chunk_info g) x z = Some c → exclusive "harsh" "flat" c) →
  (∀ pb bs c,
     exclusive "water" "water-adjacent" (classify_chunk pb bs c)
     ∧ exclusive "harsh" "flat" (classify_chunk pb bs c))
  ∧ (∀ g1, chunk_biome_analysis xs zs g = Ok tt g1 →
       ∀ x z, (x < xs)%nat → (z < zs)%nat →
         ∃ c, entry (chunk_info g1) x z = Some c
              ∧ exclusive "water" "water-adjacent" c
              ∧ exclusive "harsh" "flat" c)
  ∧ (∀ x z c,
       entry (chunk_info (final (chunk_biome_analysis xs zs g))) x z = Some c →
       exclusive "harsh" "flat" c)
  ∧ (∀ g0 cx cz obs j x z c',
       entry (chunk_info (final (sample hm cx cz obs j g0))) x z = Some c' →
       ∃ c, entry (chunk_info g0) x z = Some c ∧ gains_flags c c')
  ∧ (∀ g0 x z c',
       entry (chunk_info (final (sample_pass hm g0))) x z = Some c' →
       ∃ c, entry (chunk_info g0) x z = Some c ∧ gains_flags c c')
  ∧ (∀ x z c,
       entry (chunk_info (final (analysis xs zs hm g))) x z = Some c →
       exclusive "harsh" "flat" c).
Proof.
  intros Hinit.
  assert (Hcls : ∀ x z c,
            entry (chunk_info (final (chunk_biome_analysis xs zs g))) x z = Some c →
            exclusive "harsh" "flat" c).
  { intros x z c' Hc'.
    destruct (preserves_chunk_biome_analysis xs zs g _ _ _ Hc') as (c & Hc & HT).
    eapply kept_or_classified_exclusive; eauto. }
  split; [|split; [|split; [|split; [|split]]]].
  - intros pb bs c. split; apply classify_chunk_exclusive.
  - intros g1 Hrun x z Hx Hz. unfold chunk_biome_analysis in Hrun.
    destruct (classifier_loop_result _ _ _ Hrun) as (Hin & _ & _).
    exists (classified x z). split; [by apply Hin, elem_of_loop2d|].
    split; apply classify_chunk_exclusive.
  - exact Hcls.
  - intros g0 cx cz obs j x z c' Hc'.
    by apply (sample_gains_flags hm cx cz obs j g0).
  - intros g0 x z c' Hc'. by apply (sample_pass_gains_flags hm g0).
  - intros x z c' Hc'. rewrite analysis_final in Hc'.
    destruct (chunk_biome_analysis xs zs g) as [[] g1|e g1]; simpl in Hcls;
      [|by eapply Hcls].
    destruct (sample_pass_gains_flags hm g1 _ _ _ Hc') as (c & Hc & HT).
    eapply gains_flags_exclusive; eauto.
Qed.

End PassFacts.

Lemma designations_exclusive_witness :
  exclusive "harsh" "flat"
    {| designations := ["water-adjacent"; "water"]%string;
       primary_biome := Some "river"%string;
       biomes := ["river"%string] |}.
Proof.
  refine (proj2 (proj2 (proj2 (proj2 (proj2
    (designations_exclusive (H := river_world) 2 2 (flat_heightmap 32 32 62)
       (initial_globals 2 2) _))))) 0%nat 0%nat _ _).
  - intros x z c Hc [Hh _]. apply initial_entry_inv in Hc as ->. by inv Hh.
  - vm_compute. reflexivity.
Defined.

(** C1, as stated, fails: a chunk of a river biome is classified
    "water-adjacent", and the sample pass then adds "water" to it when one
    of its sample points is water. *)
Lemma water_added_to_water_adjacent_chunk :
  ∃ g1, analysis (H := river_world) 2 2 (flat_heightmap 32 32 62)
          (initial_globals 2 2) = Ok tt g1
        ∧ designations <$> entry (chunk_info g1) 0 0
          = Some ["water-adjacent"; "water"]%string.
Proof. eexists. split; vm_compute; reflexivity. Qed.

(** ** Claiming the coordinates of a water body *)

Lemma final_bind {A B} (m : M A) (k : A → M B) (g : globals) :
  final ((m ≫= k) g) = match m g with
                       | Ok a g' => final (k a g')
                       | Raise _ g' => g'
                       end.
Proof. rewrite bind_unfold. by destruct (m g). Qed.

#[local] Instance eq_globals_preorder : PreOrder (@eq globals).
Proof. split; [by intros g | by intros g1 g2 g3 -> ->]. Qed.

(** Building [surrounding] reads the grid and changes nothing. *)
Lemma surrounding_biomes_pure cx cz : preserves eq (surrounding_biomes cx cz).
Proof.
  by apply (preserves_surrounding_biomes eq).
Qed.

Lemma claim_unfold name cx cz r g :
  claim name cx cz r g =
  match waterways g !! r with
  | Some owner =>
      match waterbody_info g !! name with
      | None => Raise KeyError g
      | Some w =>
          if Py.mem owner (connections w) then Ok tt g
          else Ok tt (set_waterbody_info
                        (<[name := add_connection owner w]> (waterbody_info g))
                        g)
      end
  | None =>
      let g1 := set_waterways (<[r := name]> (waterways g)) g in
      match entry (chunk_info g) cx cz with
      | None => Raise IndexError g1
      | Some c =>
          match waterbody_info g !! name with
          | None => Raise KeyError g1
          | Some w =>
              let g2 := set_waterbody_info
                          (<[name := set_biomes_touching (biomes c) w]>
                             (waterbody_info g)) g1 in
              match surrounding_biomes cx cz g2 with
              | Ok _ _ => Ok tt g2
              | Raise e _ => Raise e g2
              end
          end
      end
  end.
Proof.
  unfold claim. rewrite bind_unfold. simpl.
  destruct (waterways g !! r) as [owner|] eqn:Hr.
  - rewrite bind_unfold. unfold read_waterbody at 1.
    destruct (waterbody_info g !! name) as [w|] eqn:Hw; [|done].
    destruct (Py.mem owner (connections w)); [done|].
    rewrite bind_unfold. unfold read_waterbody. by rewrite Hw.
  - rewrite bind_unfold. simpl. rewrite bind_unfold, read_chunk_unfold. simpl.
    destruct (entry (chunk_info g) cx cz) as [c|]; [|done].
    rewrite bind_unfold. unfold read_waterbody. simpl.
    destruct (waterbody_info g !! name) as [w|]; [|done].
    rewrite bind_unfold. simpl. rewrite bind_unfold.
    pose proof (surrounding_biomes_pure cx cz
      (set_waterbody_info (<[name := set_biomes_touching (biomes c) w]>
                             (waterbody_info g))
         (set_waterways (<[r := name]> (waterways g)) g))) as Hpure.
    destruct (surrounding_biomes cx cz _) as [s g3|e g3]; simpl in Hpure;
      by subst g3.
Qed.

(** What one iteration does to the record of [name] and to [waterways],
    whether it finishes or raises. *)
Lemma claim_effect name cx cz r g w :
  waterbody_info g !! name = Some w →
  ∃ w', waterbody_info (final (claim name cx cz r g))
          = <[name := w']> (waterbody_info g)
        ∧ biome_adjacent w' = biome_adjacent w
        ∧ match waterways g !! r with
          | Some owner =>
              waterways (final (claim name cx cz r g)) = waterways g
              ∧ ∃ e, claim name cx cz r g = Ok tt e
              ∧ owner ∈ connections w'
              ∧ (connections w' = connections w
                 ∨ connections w' = connections w ++ [owner]
                   ∧ owner ∉ connections w)
          | None =>
              waterways (final (claim name cx cz r g))
                = <[r := name]> (waterways g)
              ∧ connections w' = connections w
          end.
Proof.
  intros Hw. rewrite claim_unfold.
  destruct (waterways g !! r) as [owner|] eqn:Hr.
  - rewrite Hw. destruct (Py.mem owner (connections w)) eqn:Hmem.
    + exists w. simpl. split; [by rewrite insert_id|]. split; [done|].
      split; [done|]. eexists. split; [done|].
      split; [by apply mem_iff|by left].
    + eexists. simpl. split; [done|]. split; [done|]. split; [done|].
      eexists. split; [done|]. simpl. split; [set_solver|]. right.
      split; [done|]. intros Hin%mem_iff. congruence.
  - simpl. destruct (entry (chunk_info g) cx cz) as [c|].
    + rewrite Hw. eexists. split; [|split; [|split]].
      * by destruct (surrounding_biomes cx cz _).
      * done.
      * by destruct (surrounding_biomes cx cz _).
      * done.
    + exists w. simpl. split; [by rewrite insert_id|]. done.
Qed.

Lemma update_chunk_waterways x z f g :
  waterways (final (update_chunk x z f g)) = waterways g.
Proof.
  rewrite update_chunk_unfold. by destruct (entry (chunk_info g) x z).
Qed.

Lemma waterways_kept_update_chunk x z f :
  preserves waterways_kept (update_chunk x z f).
Proof. intros g c b Hc. by rewrite update_chunk_waterways. Qed.

Lemma waterways_kept_claim_write g r name :
  waterways g !! r = None →
  waterways_kept g (set_waterways (<[r := name]> (waterways g)) g).
Proof.
  intros Hr c b Hc. simpl. rewrite lookup_insert_ne; [done|]. congruence.
Qed.

Lemma claim_waterways_kept name cx cz r :
  preserves waterways_kept (claim name cx cz r).
Proof.
  apply (preserves_claim waterways_kept).
  - by intros g m c b Hc.
  - intros g r' name'. apply waterways_kept_claim_write.
Qed.

Lemma claim_loop_waterways_kept name cx cz result :
  preserves waterways_kept (for_each (λ _ r, claim name cx cz r) result tt).
Proof.
  apply (preserves_for_each waterways_kept). intros _ r _.
  apply claim_waterways_kept.
Qed.

(** The loop of lines 267-284 keeps the record of [name] in place, never
    touches its [biome_adjacent] list and only ever appends to its
    [connections], without repeating an entry. *)
Lemma claim_loop_effect name cx cz : ∀ region g w,
  waterbody_info g !! name = Some w →
  ∃ w', waterbody_info
          (final (for_each (λ _ r, claim name cx cz r) region tt g))
          = <[name := w']> (waterbody_info g)
        ∧ biome_adjacent w' = biome_adjacent w
        ∧ (∀ o, o ∈ connections w → o ∈ connections w')
        ∧ (NoDup (connections w) → NoDup (connections w')).
Proof.
  induction region as [|r rs IH]; intros g w Hw.
  - exists w. simpl. by rewrite insert_id.
  - rewrite for_each_cons, final_bind.
    destruct (claim_effect name cx cz r g w Hw) as (w1 & Hinfo & Hadj & Hcase).
    assert (Hconn : (∀ o, o ∈ connections w → o ∈ connections w1)
                    ∧ (NoDup (connections w) → NoDup (connections w1))).
    { destruct (waterways g !! r) as [owner|].
      - destruct Hcase as (_ & _ & _ & _ & [->|[-> Hnew]]); [done|].
        split; [set_solver|]. intros Hnd. apply NoDup_app.
        split; [done|]. split; [|apply NoDup_singleton].
        by intros x Hx ->%list_elem_of_singleton.
      - destruct Hcase as [_ ->]. done. }
    destruct Hconn as [Hsub Hnd].
    destruct (claim name cx cz r g) as [[] g1|e g1]; simpl in Hinfo.
    + destruct (IH g1 w1) as (w' & Hinfo' & Hadj' & Hsub' & Hnd').
      { rewrite Hinfo. apply lookup_insert_eq. }
      exists w'. split; [by rewrite Hinfo', Hinfo, insert_insert_eq|].
      split; [congruence|]. split; auto.
    + exists w1. done.
Qed.

(** When the loop finishes, every coordinate of the region that was owned
    before is still owned by the same body, whose name is among the
    connections, and every other coordinate of the region now belongs to
    [name]. *)
Lemma claim_loop_ok name cx cz : ∀ region g g' w,
  waterbody_info g !! name = Some w →
  for_each (λ _ r, claim name cx cz r) region tt g = Ok tt g' →
  ∃ w', waterbody_info g' !! name = Some w'
        ∧ ∀ r, r ∈ region →
            (∀ o, waterways g !! r = Some o →
                  waterways g' !! r = Some o ∧ o ∈ connections w')
            ∧ (waterways g !! r = None → waterways g' !! r = Some name).
Proof.
  induction region as [|r rs IH]; intros g g' w Hw Hrun.
  - injection Hrun as <-. exists w. split; [done|]. intros r Hr. by inv Hr.
  - rewrite for_each_cons, bind_unfold in Hrun.
    destruct (claim_effect name cx cz r g w Hw) as (w1 & Hinfo & _ & Hcase).
    pose proof (claim_waterways_kept name cx cz r g) as Hkept1.
    destruct (claim name cx cz r g) as [[] g1|e g1] eqn:Hstep; [|done].
    simpl in Hinfo, Hcase, Hkept1.
    assert (Hw1 : waterbody_info g1 !! name = Some w1).
    { rewrite Hinfo. apply lookup_insert_eq. }
    destruct (IH g1 g' w1 Hw1 Hrun) as (w' & Hw' & Hrs).
    pose proof (claim_loop_waterways_kept name cx cz rs g1) as Hkept.
    rewrite Hrun in Hkept. simpl in Hkept.
    destruct (claim_loop_effect name cx cz rs g1 w1 Hw1)
      as (w'' & Hinfo' & _ & Hsub & _).
    rewrite Hrun in Hinfo'. simpl in Hinfo'.
    assert (w'' = w') as ->.
    { rewrite Hinfo', lookup_insert_eq in Hw'. congruence. }
    exists w'. split; [done|]. intros r' Hr'.
    apply elem_of_cons in Hr' as [->|Hr'].
    + split.
      * intros o Ho. rewrite Ho in Hcase.
        destruct Hcase as (_ & _ & _ & Hin & _). split; auto.
      * intros Hnone. rewrite Hnone in Hcase. destruct Hcase as [Hww _].
        apply Hkept. rewrite Hww. apply lookup_insert_eq.
    + destruct (Hrs r' Hr') as [Hown Hfree]. split.
      * intros o Ho. apply Hown. by apply Hkept1.
      * intros Hnone. destruct (waterways g1 !! r') as [b|] eqn:Hb; [|auto].
        destruct (waterways g !! r) as [owner|] eqn:Hr.
        -- destruct Hcase as [Hww _]. rewrite Hww in Hb. congruence.
        -- destruct Hcase as [Hww _]. rewrite Hww in Hb.
           destruct (decide (r = r')) as [<-|Hne].
           ++ rewrite lookup_insert_eq in Hb. injection Hb as <-.
              by apply Hown.
           ++ rewrite lookup_insert_ne in Hb by done. congruence.
Qed.

(** ** Detection of a water body *)

Section DetectWater.
Context `{Collaborators}.

Lemma detect_water_unfold cx cz seed lo hi obs g :
  detect_water cx cz seed lo hi obs g =
  match entry (chunk_info g) cx cz with
  | None => Raise IndexError g
  | Some c =>
      let g1 := set_chunk_info
                  (grid_set cx cz (flag_designation "water" c) (chunk_info g))
                  g in
      match primary_biome c with
      | None => Raise TypeError g1
      | Some pb =>
          let region := water_region seed lo hi obs in
          let name := body_name pb cx cz (List.length region) in
          match for_each (λ _ r, claim name cx cz r) region tt
                  (set_waterbody_info
                     (<[name := empty_waterbody]> (waterbody_info g)) g1) with
          | Ok _ g3 => Ok (obs ++ region) g3
          | Raise e g3 => Raise e g3
          end
      end
  end.
Proof.
  unfold detect_water, water_region.
  destruct seed as [[x y] z], lo as [[x1 y1] z1], hi as [[x2 y2] z2].
  cbn [fst snd].
  assert (Hfs : ∃ region,
            flood_search_3D x y z x1 y1 z1 x2 y2 z2 FLUID obs false
            = (region, region)) by (eexists; reflexivity).
  destruct Hfs as [region Hfs]. rewrite Hfs. cbn [fst snd]. clear Hfs.
  rewrite bind_unfold, update_chunk_unfold.
  destruct (entry (chunk_info g) cx cz) as [c|] eqn:Hc; [|done].
  cbv beta iota.
  rewrite bind_unfold, read_chunk_unfold. cbn [chunk_info set_chunk_info].
  erewrite entry_grid_set_eq by done. cbv beta iota.
  rewrite bind_unfold.
  assert (Hpb : primary_biome (flag_designation "water" c) = primary_biome c).
  { unfold flag_designation. by destruct (Py.mem _ _). }
  rewrite Hpb. destruct (primary_biome c) as [pb|]; [|done].
  cbn [lift]. cbv zeta. unfold mret at 1, M_ret at 1. cbv beta iota.
  rewrite !bind_unfold.
  change (write_waterbody ?n ?w ?g0)
    with (Ok tt (set_waterbody_info (<[n := w]> (waterbody_info g0)) g0)).
  cbv beta iota. rewrite bind_unfold.
  cbn [waterbody_info set_chunk_info].
  by destruct (for_each _ _ _ _).
Qed.

Lemma sample_pass_waterways_kept hm :
  preserves waterways_kept (sample_pass hm).
Proof.
  apply (preserves_sample_pass waterways_kept).
  - intros x z tag _. apply waterways_kept_update_chunk.
  - by intros g m c b Hc.
  - by intros g m c b Hc.
  - intros g r name. apply waterways_kept_claim_write.
Qed.

Lemma analysis_waterways_kept xs zs hm :
  preserves waterways_kept (analysis xs zs hm).
Proof.
  unfold analysis. apply (preserves_bind waterways_kept).
  - unfold chunk_biome_analysis. apply (preserves_for_each waterways_kept).
    intros [] [x z] _. apply waterways_kept_update_chunk.
  - intros _. apply sample_pass_waterways_kept.
Qed.

(** Ownership through the pass, one iteration of the claiming loop on an
    owned coordinate, and a detection that finishes. *)
Lemma claiming_facts (hm : gmap (nat * nat) Z) (cx cz : nat)
    (seed lo hi : coord) (obs : list coord) (g : globals) :
  waterways_kept g (final (sample_pass hm g))
  ∧ (∀ xs zs, waterways_kept g (final (analysis xs zs hm g)))
  ∧ (∀ name r w owner,
       waterbody_info g !! name = Some w →
       waterways g !! r = Some owner →
       ∃ g' w',
         claim name cx cz r g = Ok tt g'
         ∧ waterways g' = waterways g
         ∧ waterbody_info g' !! name = Some w'
         ∧ owner ∈ connections w'
         ∧ (NoDup (connections w) → NoDup (connections w')))
  ∧ (∀ obs' g', detect_water cx cz seed lo hi obs g = Ok obs' g' →
       ∃ c pb w',
         entry (chunk_info g) cx cz = Some c
         ∧ primary_biome c = Some pb
         ∧ waterbody_info g'
             !! body_name pb cx cz (List.length (water_region seed lo hi obs))
           = Some w'
         ∧ NoDup (connections w')
         ∧ ∀ r, r ∈ water_region seed lo hi obs →
             (∀ o, waterways g !! r = Some o →
                   waterways g' !! r = Some o ∧ o ∈ connections w')
             ∧ (waterways g !! r = None →
                waterways g' !! r
                = Some (body_name pb cx cz
                          (List.length (water_region seed lo hi obs))))).
Proof.
  split; [apply sample_pass_waterways_kept|].
  split; [intros xs zs; apply analysis_waterways_kept|].
  split.
  { intros name r w owner Hw Hr.
    destruct (claim_effect name cx cz r g w Hw) as (w' & Hinfo & _ & Hcase).
    rewrite Hr in Hcase. destruct Hcase as (Hww & g' & Hstep & Hin & Hconn).
    rewrite Hstep in Hinfo, Hww. simpl in Hinfo, Hww.
    exists g', w'. split; [done|]. split; [done|].
    split; [rewrite Hinfo; apply lookup_insert_eq|]. split; [done|].
    destruct Hconn as [-> | [-> Hnew]]; [done|].
    intros Hnd. apply NoDup_app. split; [done|].
    split; [|apply NoDup_singleton].
    by intros x Hx ->%list_elem_of_singleton. }
  intros obs' g' Hrun. rewrite detect_water_unfold in Hrun.
  destruct (entry (chunk_info g) cx cz) as [c|] eqn:Hc; [|done].
  destruct (primary_biome c) as [pb|] eqn:Hpb; [|done]. simpl in Hrun.
  set (region := water_region seed lo hi obs) in *.
  set (name := body_name pb cx cz (List.length region)) in *.
  set (g2 := set_waterbody_info _ _) in Hrun.
  destruct (for_each _ region tt g2) as [[] g3|e g3] eqn:Hloop; [|done].
  injection Hrun as <- <-.
  assert (Hw2 : waterbody_info g2 !! name = Some empty_waterbody).
  { apply lookup_insert_eq. }
  destruct (claim_loop_ok name cx cz region g2 g3 _ Hw2 Hloop) as (w' & Hw' & Hrs).
  destruct (claim_loop_effect name cx cz region g2 _ Hw2)
    as (w'' & Hinfo & _ & _ & Hnd).
  rewrite Hloop in Hinfo. simpl in Hinfo.
  assert (w'' = w') as ->.
  { rewrite Hinfo, lookup_insert_eq in Hw'. congruence. }
  exists c, pb, w'. split; [done|]. split; [done|]. split; [done|].
  split; [apply Hnd; constructor|]. exact Hrs.
Qed.

End DetectWater.

(** ** Names of water bodies across chunks *)

Section Decimal.
Local Open Scope string_scope.

Lemma dashless_uint (d : Decimal.uint) : dashless (NilEmpty.string_of_uint d).
Proof. induction d; simpl; auto; split; auto; discriminate. Qed.

Lemma dashless_str (i : Z) : (0 ≤ i)%Z → dashless (Py.str i).
Proof.
  intros Hi. unfold Py.str. destruct i as [|p|p]; [| |lia].
  - simpl. split; [discriminate|done].
  - simpl. unfold NilZero.string_of_uint.
    destruct (Pos.to_uint p) eqn:Hp; try (rewrite <- Hp; apply dashless_uint).
    simpl. split; [discriminate|done].
Qed.

Lemma str_inj (i j : Z) : Py.str i = Py.str j → i = j.
Proof.
  unfold Py.str. intros Heq. apply DecimalZ.to_int_inj.
  assert (Hnn : ∀ k, Z.to_int k ≠ Decimal.Pos Decimal.Nil
                     ∧ Z.to_int k ≠ Decimal.Neg Decimal.Nil).
  { intros [|p|p]; simpl; split; try discriminate;
      intros [= Hp]; by apply DecimalPos.Unsigned.to_uint_nonnil in Hp. }
  destruct (Hnn i) as [Hi1 Hi2], (Hnn j) as [Hj1 Hj2].
  pose proof (NilZero.isi _ Hi1 Hi2) as Hi.
  pose proof (NilZero.isi _ Hj1 Hj2) as Hj.
  rewrite Heq in Hi. congruence.
Qed.

(** Two texts that agree and whose first fields hold no minus sign agree
    field by field at the first minus sign. *)
Lemma split_at_dash (s1 : string) : ∀ s2 t1 t2,
  dashless s1 → dashless s2 →
  s1 ++ "-" ++ t1 = s2 ++ "-" ++ t2 → s1 = s2 ∧ t1 = t2.
Proof.
  induction s1 as [|a s1 IH]; intros [|b s2] t1 t2 H1 H2 Heq;
    repeat (rewrite app_nil in Heq || rewrite app_cons in Heq).
  - by injection Heq as ->.
  - injection Heq as <- _. by destruct H2 as [[] _].
  - injection Heq as -> _. by destruct H1 as [[] _].
  - injection Heq as -> Heq. destruct H1 as [_ H1], H2 as [_ H2].
    destruct (IH _ _ _ H1 H2 Heq) as [-> ->]. done.
Qed.

Lemma named_inj kind kind' (cx cz cx' cz' : nat) :
  dashless kind → dashless kind' →
  named kind cx cz = named kind' cx' cz' → kind = kind' ∧ cx = cx' ∧ cz = cz'.
Proof.
  unfold named. intros Hk Hk' Heq.
  apply split_at_dash in Heq as [-> Heq]; [|done..].
  apply split_at_dash in Heq as [Hx Hz]; [|apply dashless_str; lia..].
  apply str_inj in Hx, Hz. split; [done|]. lia.
Qed.

Lemma body_name_named pb cx cz size :
  ∃ kind, dashless kind ∧ body_name pb cx cz size = named kind cx cz.
Proof.
  unfold body_name, named.
  repeat match goal with
         | |- context [if ?b then _ else _] => destruct b
         end; eexists; (split; [|reflexivity]); simpl; repeat split; discriminate.
Qed.

(** The name of a body tells the chunk it was detected from. *)
Lemma body_name_chunk_inj pb pb' (cx cz cx' cz' size size' : nat) :
  body_name pb cx cz size = body_name pb' cx' cz' size' → cx = cx' ∧ cz = cz'.
Proof.
  destruct (body_name_named pb cx cz size) as (k & Hk & ->).
  destruct (body_name_named pb' cx' cz' size') as (k' & Hk' & ->).
  intros Heq. by apply named_inj in Heq as (_ & ? & ?).
Qed.

(** Within a chunk the name only depends on the primary biome and on
    whether the region has fewer than 256 coordinates. *)
Lemma body_name_size_class pb (cx cz n1 n2 : nat) :
  (n1 <? 256)%nat = (n2 <? 256)%nat →
  body_name pb cx cz n1 = body_name pb cx cz n2.
Proof. unfold body_name. by intros ->. Qed.

End Decimal.

(** ** Records of water bodies *)

Section WaterbodyRecords.
Context `{Collaborators}.

Lemma detect_water_final cx cz seed lo hi obs g c pb :
  entry (chunk_info g) cx cz = Some c →
  primary_biome c = Some pb →
  final (detect_water cx cz seed lo hi obs g) =
  final (for_each
           (λ _ r, claim (body_name pb cx cz
                            (List.length (water_region seed lo hi obs)))
                         cx cz r)
           (water_region seed lo hi obs) tt
           (set_waterbody_info
              (<[body_name pb cx cz (List.length (water_region seed lo hi obs))
                 := empty_waterbody]> (waterbody_info g))
              (set_chunk_info
                 (grid_set cx cz (flag_designation "water" c) (chunk_info g))
                 g))).
Proof.
  intros Hc Hpb. rewrite detect_water_unfold, Hc, Hpb. cbv zeta.
  by destruct (for_each _ _ _ _).
Qed.

(** C8, as the code has it. A detection writes an empty record under its
    name whether or not the name is already in use, so its outcome does
    not depend on the record stored there before, and it leaves the
    records of all other names alone. The name is fixed by the chunk, its
    primary biome and the size class of the region: detections from
    different chunks never share a name, detections from one chunk with the
    same biome and size class always do. *)
Theorem waterbody_record_rewritten (cx cz : nat) (seed lo hi : coord)
    (obs : list coord) (g : globals) (c : chunk) (pb : string) :
  entry (chunk_info g) cx cz = Some c →
  primary_biome c = Some pb →
  (∀ w_old,
     detect_water cx cz seed lo hi obs
       (set_waterbody_info
          (<[body_name pb cx cz (List.length (water_region seed lo hi obs))
             := w_old]> (waterbody_info g)) g)
     = detect_water cx cz seed lo hi obs g)
  ∧ (∀ n, n ≠ body_name pb cx cz (List.length (water_region seed lo hi obs)) →
       waterbody_info (final (detect_water cx cz seed lo hi obs g)) !! n
       = waterbody_info g !! n)
  ∧ (∃ w, waterbody_info (final (detect_water cx cz seed lo hi obs g))
            !! body_name pb cx cz (List.length (water_region seed lo hi obs))
          = Some w
          ∧ biome_adjacent w = []
          ∧ NoDup (connections w))
  ∧ (∀ n1 n2, (n1 <? 256)%nat = (n2 <? 256)%nat →
       body_name pb cx cz n1 = body_name pb cx cz n2)
  ∧ (∀ pb' cx' cz' n n',
       body_name pb cx cz n = body_name pb' cx' cz' n' → cx = cx' ∧ cz = cz').
Proof.
  intros Hc Hpb.
  set (name := body_name pb cx cz (List.length (water_region seed lo hi obs))).
  split; [|split; [|split; [|split]]].
  - intros w_old. rewrite !detect_water_unfold.
    cbn [chunk_info set_waterbody_info waterbody_info]. rewrite Hc, Hpb.
    cbv zeta. fold name. by rewrite insert_insert_eq.
  - intros n Hn. rewrite (detect_water_final _ _ _ _ _ _ _ c pb) by done.
    fold name.
    set (g2 := set_waterbody_info _ _).
    destruct (claim_loop_effect name cx cz (water_region seed lo hi obs) g2
                empty_waterbody) as (w' & -> & _); [apply lookup_insert_eq|].
    rewrite lookup_insert_ne by done. simpl. by rewrite lookup_insert_ne.
  - rewrite (detect_water_final _ _ _ _ _ _ _ c pb) by done. fold name.
    set (g2 := set_waterbody_info _ _).
    destruct (claim_loop_effect name cx cz (water_region seed lo hi obs) g2
                empty_waterbody) as (w' & -> & Hadj & _ & Hnd);
      [apply lookup_insert_eq|].
    exists w'. split; [apply lookup_insert_eq|]. split; [done|].
    apply Hnd. constructor.
  - intros n1 n2. apply body_name_size_class.
  - intros pb' cx' cz' n n'. apply body_name_chunk_inj.
Qed.

End WaterbodyRecords.

Lemma waterbody_record_rewritten_witness :
  detect_water (H := pond_world) 1 0 (24, 62, 8) (15, 0, -1) (33, 255, 17) []
    (set_waterbody_info
       (<[body_name "plains" 1 0
            (List.length (water_region (H := pond_world) (24, 62, 8)
                            (15, 0, -1) (33, 255, 17) []))
          := {| connections := ["pond-0-0"%string];
                biomes_touching := ["plains"%string];
                biome_adjacent := [] |}]>
          (waterbody_info pond_after_first_chunk))
       pond_after_first_chunk)
  = detect_water (H := pond_world) 1 0 (24, 62, 8) (15, 0, -1) (33, 255, 17) []
      pond_after_first_chunk.
Proof.
  refine (proj1 (waterbody_record_rewritten (H := pond_world) 1 0 (24, 62, 8)
                   (15, 0, -1) (33, 255, 17) [] pond_after_first_chunk
                   {| designations := ["flat"%string];
                      primary_biome := Some "plains"%string;
                      biomes := ["plains"%string] |}
                   "plains" _ _) _).
  - vm_compute. reflexivity.
  - reflexivity.
Defined.

(** C8, as stated, fails: in chunk (1,0) of the pond world the channel and
    the single block are two bodies that do not touch, both are named
    "pond-1-0", and the detection of the second replaces the record of the
    first, whose connection to "pond-0-0" is lost. *)
Lemma second_pond_replaces_record :
  connections <$> waterbody_info pond_after_channel !! "pond-1-0"%string
    = Some ["pond-0-0"%string]
  ∧ connections <$> waterbody_info pond_after_second_chunk !! "pond-1-0"%string
    = Some []
  ∧ waterways pond_after_second_chunk !! (20, 62, 0) = Some "pond-1-0"%string
  ∧ waterways pond_after_second_chunk !! (24, 62, 8) = Some "pond-1-0"%string
  ∧ coord_mem (24, 62, 8)
      (water_region (H := pond_world) (20, 62, 0) (15, 0, -1) (33, 255, 17) [])
    = false
  ∧ coord_mem (20, 62, 0)
      (water_region (H := pond_world) (24, 62, 8) (15, 0, -1) (33, 255, 17) [])
    = false.
Proof. split_and!; vm_compute; reflexivity. Qed.

(** ** The list of adjacent biomes *)

(** C7 on the code. After the whole analysis of the pond world the record
    of "pond-0-0" has an empty [biome_adjacent], although the four
    diagonal neighbours the loop reads for chunk (0,0), two of them through
    the negative index -1, all store the primary biome "plains"; and on a
    grid of a single chunk the first claimed coordinate ends the pass with
    IndexError, raised by the read of [chunk_info[1]]. *)
Lemma biome_adjacent_never_stored :
  (∃ g, analysis (H := pond_world) 3 2 pond_heightmap (initial_globals 3 2)
        = Ok tt g
        ∧ biome_adjacent <$> waterbody_info g !! "pond-0-0"%string = Some []
        ∧ primary_biome_at 1 1 g = Ok "plains"%string g
        ∧ primary_biome_at (-1) 1 g = Ok "plains"%string g
        ∧ primary_biome_at 1 (-1) g = Ok "plains"%string g
        ∧ primary_biome_at (-1) (-1) g = Ok "plains"%string g)
  ∧ (∃ g, analysis (H := river_world) 1 1 (flat_heightmap 16 16 62)
            (initial_globals 1 1) = Raise IndexError g
          ∧ primary_biome_at 1 1 g = Raise IndexError g
          ∧ waterways g !! (0, 62, 0) = Some "river-0-0"%string
          ∧ biome_adjacent <$> waterbody_info g !! "river-0-0"%string
            = Some []).
Proof.
  split; eexists; split_and!; vm_compute; reflexivity.
Qed.

(** ** The flood search *)

Lemma coord_eqb_eq (a b : coord) : coord_eqb a b = true ↔ a = b.
Proof.
  destruct a as [[ax ay] az], b as [[bx by_] bz]. unfold coord_eqb.
  rewrite !andb_true_iff, !Z.eqb_eq. split.
  - by intros [[-> ->] ->].
  - by intros [= -> -> ->].
Qed.

Lemma coord_mem_iff (c : coord) (l : list coord) : coord_mem c l = true ↔ c ∈ l.
Proof.
  unfold coord_mem. rewrite existsb_exists, list_elem_of_In. split.
  - intros (c' & Hin & Heq). apply coord_eqb_eq in Heq. by subst.
  - intros Hin. exists c. split; [done|]. by apply coord_eqb_eq.
Qed.

Lemma in_box_iff (lo hi c : coord) : in_box lo hi c = true ↔ inside lo hi c.
Proof.
  destruct lo as [[x1 y1] z1], hi as [[x2 y2] z2], c as [[x y] z].
  unfold in_box, inside. simpl. rewrite !andb_true_iff, !Z.leb_le. tauto.
Qed.

Lemma elem_of_box_cells (lo hi c : coord) : c ∈ box_cells lo hi ↔ inside lo hi c.
Proof.
  destruct c as [[x y] z]. unfold box_cells, inside. simpl.
  rewrite list_elem_of_bind. split.
  - intros (x' & Hin & Hx). apply list_elem_of_bind in Hin as (y' & Hin & Hy).
    apply list_elem_of_bind in Hin as (z' & Hin & Hz).
    apply list_elem_of_singleton in Hin as [= -> -> ->].
    apply elem_of_seqZ in Hx, Hy, Hz. lia.
  - intros (Hx & Hy & Hz). exists x. split; [|apply elem_of_seqZ; lia].
    apply list_elem_of_bind. exists y. split; [|apply elem_of_seqZ; lia].
    apply list_elem_of_bind. exists z. split; [|apply elem_of_seqZ; lia].
    by apply list_elem_of_singleton.
Qed.

Lemma length_bind_const {A B} (f : A → list B) (l : list A) (n : nat) :
  (∀ a, List.length (f a) = n) → List.length (l ≫= f) = (List.length l * n)%nat.
Proof.
  intros Hf. induction l as [|a l IH]; [done|].
  csimpl. rewrite length_app, Hf, IH. lia.
Qed.

Lemma length_box_cells (lo hi : coord) :
  List.length (box_cells lo hi) = box_volume lo hi.
Proof.
  destruct lo as [[x1 y1] z1], hi as [[x2 y2] z2]. unfold box_cells, box_volume.
  simpl.
  rewrite (length_bind_const _ _
             (Z.to_nat (y2 - y1 + 1) * Z.to_nat (z2 - z1 + 1))).
  - rewrite length_seqZ. lia.
  - intros x. rewrite (length_bind_const _ _ (Z.to_nat (z2 - z1 + 1))).
    + by rewrite length_seqZ.
    + intros y. rewrite (length_bind_const _ _ 1%nat); [|done].
      rewrite length_seqZ. lia.
Qed.

(** The vectors of the search are exactly the neighbour steps. *)
Lemma adjacent_vectors (diagonal : bool) (a b : coord) :
  adjacent diagonal a b ↔ ∃ d, d ∈ vectors diagonal ∧ b = coord_add a d.
Proof.
  destruct a as [[ax ay] az], b as [[bx by_] bz]. unfold adjacent. simpl.
  split.
  - intros (Hne & Hx & Hy & Hz & Haxis).
    assert (Hbx : bx = ax + -1 ∨ bx = ax + 0 ∨ bx = ax + 1) by lia.
    assert (Hby : by_ = ay + -1 ∨ by_ = ay + 0 ∨ by_ = ay + 1) by lia.
    assert (Hbz : bz = az + -1 ∨ bz = az + 0 ∨ bz = az + 1) by lia.
    destruct Hbx as [-> | [-> | ->]], Hby as [-> | [-> | ->]],
      Hbz as [-> | [-> | ->]];
      try (exfalso; apply Hne; f_equal; [f_equal|]; lia);
      destruct diagonal;
      try (exfalso; specialize (Haxis eq_refl); lia);
      refine (ex_intro _ (_, _, _) (conj _ eq_refl));
      apply list_elem_of_In; simpl;
      repeat (first [left; reflexivity | right]).
  - intros (d & Hd & Heq). apply list_elem_of_In in Hd.
    destruct diagonal; simpl in Hd;
      repeat (destruct Hd as [<-|Hd]; [simpl in Heq; injection Heq as -> -> ->;
        (split; [intros [= ? ? ?]; lia|]); repeat split; try lia; by intros [=]|]);
      done.
Qed.

Section Explore.
Context `{Collaborators}.
Variables (ok : coord → bool) (vs : list coord) (cells : list coord).
Hypothesis ok_cells : ∀ c, ok c = true → c ∈ cells.

Lemma connected_prepend (c c' x : coord) :
  ok c = true → step vs c c' →
  connected (okP ok) (step vs) c' x → connected (okP ok) (step vs) c x.
Proof.
  intros Hc Hstep Hconn. induction Hconn as [Hc'|y y' _ IH Hyy' Hy'].
  - eapply connected_step; [by apply connected_seed|done..].
  - by eapply connected_step.
Qed.

Lemma marked_well_length (v : list coord) :
  marked_well ok v → (List.length v ≤ List.length cells)%nat.
Proof.
  intros [Hnd Hok]. apply submseteq_length, NoDup_submseteq; [done|].
  intros c Hc. by apply ok_cells, Hok.
Qed.

(** The loop over the vectors at [c], given what the nested calls
    promise. *)
Lemma explore_vectors (fuel : nat) (c : coord) :
  (∀ v c', marked_well ok v →
     (List.length cells < fuel + List.length v)%nat →
     explored ok vs c' v (explore fuel ok vs v c')) →
  ∀ ds v,
    marked_well ok v →
    (List.length cells < fuel + List.length v)%nat →
    let v' := fold_left (λ v d, explore fuel ok vs v (coord_add c d)) ds v in
    marked_well ok v'
    ∧ (∃ l, v' = l ++ v)
    ∧ (∀ d, d ∈ ds → ok (coord_add c d) = true → coord_add c d ∈ v')
    ∧ (∀ x, x ∈ v' → x ∉ v →
         ∀ d, d ∈ vs → ok (coord_add x d) = true → coord_add x d ∈ v')
    ∧ (∀ x, x ∈ v' → x ∉ v →
         ∃ d, d ∈ ds ∧ connected (okP ok) (step vs) (coord_add c d) x).
Proof.
  intros Hcall. induction ds as [|d ds IH]; intros v Hv Hfuel; simpl.
  - split; [done|]. split; [by exists []|]. split; [by intros d Hd; inv Hd|].
    split; by intros x Hx Hnx.
  - destruct (Hcall v (coord_add c d) Hv Hfuel)
      as (Hv1 & [l1 Hl1] & Hin1 & Hclosed1 & Hsound1).
    set (v1 := explore fuel ok vs v (coord_add c d)) in *.
    assert (Hfuel1 : (List.length cells < fuel + List.length v1)%nat).
    { rewrite Hl1, length_app. lia. }
    destruct (IH v1 Hv1 Hfuel1) as (Hv' & [l' Hl'] & Hin' & Hclosed' & Hsound').
    set (v' := fold_left _ ds v1) in *.
    assert (Hmono : ∀ x, x ∈ v1 → x ∈ v').
    { intros x Hx. rewrite Hl'. apply elem_of_app. by right. }
    split; [done|]. split; [|split; [|split]].
    + exists (l' ++ l1). by rewrite Hl', Hl1, app_assoc.
    + intros d' [->|Hd']%elem_of_cons Hok; [apply Hmono|]; auto.
    + intros x Hx Hnx d' Hd' Hok.
      destruct (decide (x ∈ v1)) as [Hx1|Hx1]; [apply Hmono|]; eauto.
    + intros x Hx Hnx. destruct (decide (x ∈ v1)) as [Hx1|Hx1].
      * exists d. split; [by left|]. by apply Hsound1.
      * destruct (Hsound' x Hx Hx1) as (d' & Hd' & Hconn).
        exists d'. split; [by right|done].
Qed.

(** With fuel beyond the number of cells that can still be marked, a call
    keeps its promise. *)
Lemma explore_explored (fuel : nat) : ∀ v c,
  marked_well ok v →
  (List.length cells < fuel + List.length v)%nat →
  explored ok vs c v (explore fuel ok vs v c).
Proof.
  induction fuel as [|fuel IH]; intros v c Hv Hfuel.
  { apply marked_well_length in Hv. simpl in Hfuel. lia. }
  simpl. destruct (ok c && negb (coord_mem c v)) eqn:Hvisit.
  - apply andb_true_iff in Hvisit as [Hc Hnew].
    apply negb_true_iff in Hnew.
    assert (Hcv : c ∉ v).
    { intros Hin%coord_mem_iff. congruence. }
    assert (Hv0 : marked_well ok (c :: v)).
    { destruct Hv as [Hnd Hok]. split; [by constructor|].
      intros x [->|Hx]%elem_of_cons; auto. }
    destruct (explore_vectors fuel c IH vs (c :: v) Hv0)
      as (Hv' & [l Hl] & Hin & Hclosed & Hsound); [simpl; lia|].
    set (v' := fold_left _ vs (c :: v)) in *.
    assert (Hcv' : c ∈ v').
    { rewrite Hl. apply elem_of_app. right. by left. }
    split; [done|]. split; [|split; [done|split]].
    + exists (l ++ [c]). by rewrite Hl, <- app_assoc.
    + intros x Hx Hnx d Hd Hok. destruct (decide (x = c)) as [->|Hne].
      * by apply Hin.
      * apply Hclosed; auto. by intros [->|?]%elem_of_cons.
    + intros x Hx Hnx. destruct (decide (x = c)) as [->|Hne].
      * by apply connected_seed.
      * destruct (Hsound x Hx) as (d & Hd & Hconn).
        { by intros [->|?]%elem_of_cons. }
        eapply connected_prepend; [done| |done]. by exists d.
  - split; [done|]. split; [by exists []|]. split; [|split; by intros x Hx Hnx].
    intros Hc. rewrite Hc in Hvisit. simpl in Hvisit.
    apply negb_false_iff in Hvisit. by apply coord_mem_iff.
Qed.

(** Started on nothing, the exploration returns exactly the coordinates
    connected to the seed, each once. *)
Lemma explore_connected (fuel : nat) (seed : coord) :
  (List.length cells < fuel)%nat →
  NoDup (explore fuel ok vs [] seed)
  ∧ ∀ c, c ∈ explore fuel ok vs [] seed ↔ connected (okP ok) (step vs) seed c.
Proof.
  intros Hfuel.
  destruct (explore_explored fuel [] seed)
    as ([Hnd Hok] & _ & Hseed & Hclosed & Hsound).
  { split; [constructor|]. intros c Hc. by inv Hc. }
  { simpl. lia. }
  split; [done|]. intros c. split.
  - intros Hc. apply Hsound; [done|]. intros Hnil. by inv Hnil.
  - intros Hconn. induction Hconn as [Hs|x x' _ IH (d & Hd & ->) Hx'].
    + by apply Hseed.
    + apply Hclosed; auto. intros Hnil. by inv Hnil.
Qed.

End Explore.

Lemma connected_iff (P Q : coord → Prop) (adj adj' : relation coord)
    (seed c : coord) :
  (∀ x, P x ↔ Q x) → (∀ x y, adj x y ↔ adj' x y) →
  connected P adj seed c ↔ connected Q adj' seed c.
Proof.
  intros HPQ Hadj. split; intros Hconn;
    (induction Hconn as [Hs|x x' _ IH Hstep Hx'];
     [apply connected_seed; by apply HPQ
     |eapply connected_step; [done|by apply Hadj|by apply HPQ]]).
Qed.

Section FloodSearchClaims.
Context `{Collaborators}.

Lemma visitable_iff lo hi blocks observed c :
  visitable lo hi blocks observed c = true ↔ eligible lo hi blocks observed c.
Proof.
  unfold visitable, eligible.
  rewrite !andb_true_iff, negb_true_iff, in_box_iff, mem_iff.
  rewrite <- coord_mem_iff. destruct (coord_mem c observed); intuition congruence.
Qed.

(** C2, on the search as section 4.3 describes it. The search is total;
    its region lists every coordinate once; the region is exactly the set
    of coordinates connected to the seed through coordinates that lie in
    the box, satisfy the category and are not in [observed], under
    6-connectivity or, with [diagonal], 26-connectivity. With nothing
    observed this is the maximal connected set of matching coordinates. *)
Theorem flood_search_3D_region (x y z x1 y1 z1 x2 y2 z2 : Z)
    (blocks : list string) (observed : list coord) (diagonal : bool) :
  let found :=
    flood_search_3D x y z x1 y1 z1 x2 y2 z2 blocks observed diagonal in
  NoDup found.1
  ∧ found.2 = found.1
  ∧ (∀ c, c ∈ found.1 ↔
          connected (eligible (x1, y1, z1) (x2, y2, z2) blocks observed)
                    (adjacent diagonal) (x, y, z) c)
  ∧ (observed = [] →
     ∀ c, c ∈ found.1 ↔
          connected (matching (x1, y1, z1) (x2, y2, z2) blocks)
                    (adjacent diagonal) (x, y, z) c).
Proof.
  unfold flood_search_3D. cbn [fst snd].
  set (lo := (x1, y1, z1)). set (hi := (x2, y2, z2)).
  destruct (explore_connected (visitable lo hi blocks observed)
              (vectors diagonal) (box_cells lo hi)) with
    (fuel := S (box_volume lo hi)) (seed := (x, y, z)) as [Hnd Hconn].
  { intros c Hc%visitable_iff. apply elem_of_box_cells. by destruct Hc. }
  { rewrite length_box_cells. lia. }
  assert (Hreg : ∀ c,
            c ∈ reverse (explore (S (box_volume lo hi))
                           (visitable lo hi blocks observed)
                           (vectors diagonal) [] (x, y, z))
            ↔ connected (eligible lo hi blocks observed) (adjacent diagonal)
                (x, y, z) c).
  { intros c. rewrite elem_of_reverse, Hconn. apply connected_iff.
    - intros c'. apply visitable_iff.
    - intros a b. symmetry. apply adjacent_vectors. }
  split; [by rewrite reverse_Permutation|]. split; [done|].
  split; [exact Hreg|].
  intros -> c. rewrite Hreg. apply connected_iff; [|done].
  intros c'. unfold eligible, matching. split; [tauto|].
  intros [? ?]. split; [done|]. split; [done|]. by intros Hin; inv Hin.
Qed.

End FloodSearchClaims.

(** C2, as stated for every observed list, fails: a matching neighbour of
    the seed that the caller has already observed is left out of the
    region. *)
Lemma observed_neighbour_left_out :
  connected (matching (H := pond_world) (12, 62, 0) (13, 62, 0) fluid_blocks)
            (adjacent false) (12, 62, 0) (13, 62, 0)
  ∧ (flood_search_3D (H := pond_world) 12 62 0 12 62 0 13 62 0 fluid_blocks
       [(13, 62, 0)] false).1 = [(12, 62, 0)].
Proof.
  split; [|vm_compute; reflexivity].
  assert (Hm : ∀ c, c = (12, 62, 0) ∨ c = (13, 62, 0) →
            matching (H := pond_world) (12, 62, 0) (13, 62, 0) fluid_blocks c).
  { intros c [-> | ->]; (split; [unfold inside; simpl; lia|]);
      apply mem_iff; reflexivity. }
  eapply connected_step; [apply connected_seed| |]; auto.
  unfold adjacent. simpl. split; [by intros [=]|]. lia.
Qed.

(** * Further properties of the script *)

(** ** The substring test *)

Section Substrings.
Local Open Scope string_scope.





End Substrings.

(** ** More on the biome classifier *)



#[local] Instance keeps_preorder (P : chunk → Prop) : PreOrder (keeps P).
Proof.
  split; unfold keeps.
  - intros c HP. exact HP.
  - intros c1 c2 c3 H12 H23 HP. auto.
Qed.

Lemma chunks_rel_keeps (P : chunk → Prop) (g g' : globals) :
  chunks_rel (keeps P) g g' → chunks_inv P g → chunks_inv P g'.
Proof.
  intros Hrel Hinv x z c' Hc'. destruct (Hrel _ _ _ Hc') as (c & Hc & Hk).
  eapply Hk, Hinv. exact Hc.
Qed.

Section AnalysisChunks.
Context `{Collaborators}.
Context (T : relation chunk) `{!PreOrder T}.
Hypothesis T_classify : ∀ pb bs c, T c (classify_chunk pb bs c).
Hypothesis T_flag : ∀ tag c,
  tag = "structure"%string ∨ tag = "water"%string →
  T c (flag_designation tag c).

Lemma sample_pass_chunks_rel hm : preserves (chunks_rel T) (sample_pass hm).
Proof.
  apply preserves_sample_pass; [apply _|..].
  - intros x z tag Htag. apply preserves_update_chunk; [apply _|]. auto.
  - intros g m. by apply chunks_rel_same_grid; [apply _|].
  - intros g m. by apply chunks_rel_same_grid; [apply _|].
  - intros g r name _. by apply chunks_rel_same_grid; [apply _|].
Qed.

Lemma classifier_chunks_rel xs zs :
  preserves (chunks_rel T) (chunk_biome_analysis xs zs).
Proof.
  unfold chunk_biome_analysis. apply preserves_for_each; [apply _|].
  intros [] [x z] _. unfold analyse_chunk.
  apply preserves_update_chunk; [apply _|]. auto.
Qed.

Lemma analysis_chunks_rel xs zs hm :
  preserves (chunks_rel T) (analysis xs zs hm).
Proof.
  unfold analysis. apply preserves_bind; [apply _| |].
  - apply classifier_chunks_rel.
  - intros _. apply sample_pass_chunks_rel.
Qed.

End AnalysisChunks.

#[local] Instance classifier_frame_preorder l : PreOrder (classifier_frame l).
Proof.
  split.
  - by intros g.
  - intros g1 g2 g3 (Ha & Hw & Hi & He & Hs) (Ha' & Hw' & Hi' & He' & Hs').
    split; [congruence|]. split; [congruence|]. split; [congruence|]. split.
    + intros x z Hxz. by rewrite He', He.
    + intros x z. by rewrite Hs', Hs.
Qed.

Section ClassifierEdges.
Context `{Collaborators}.

Lemma analyse_chunk_frame (l : list (nat * nat)) (x z : nat) :
  (x, z) ∈ l → preserves (classifier_frame l) (analyse_chunk x z).
Proof.
  intros Hin g. rewrite analyse_chunk_unfold. unfold classifier_frame.
  destruct (entry (chunk_info g) x z) as [c|] eqn:Hc; simpl; [|done].
  split; [done|]. split; [done|]. split; [done|]. split.
  - intros x' z' Hout. apply entry_grid_set_ne. intros [= -> ->]. done.
  - intros x' z'. destruct (decide ((x, z) = (x', z'))) as [[= <- <-]|Hne].
    + erewrite entry_grid_set_eq by done. rewrite Hc. by split; eexists.
    + by rewrite entry_grid_set_ne.
Qed.

(** X2 (lines 97-140):
    the classifier only writes records of the grid within its span: the
    three dictionaries and every record outside the span are as before,
    and the grid keeps its shape, also when the run ends in an error. *)
Theorem classifier_writes_span_only (xs zs : nat) (g : globals) :
  classifier_frame (loop2d xs zs) g (final (chunk_biome_analysis xs zs g))
  ∧ ∀ x z, ¬ ((x < xs)%nat ∧ (z < zs)%nat) →
      entry (chunk_info (final (chunk_biome_analysis xs zs g))) x z
      = entry (chunk_info g) x z.
Proof.
  assert (Hframe : classifier_frame (loop2d xs zs) g
                     (final (chunk_biome_analysis xs zs g))).
  { unfold chunk_biome_analysis.
    apply (preserves_for_each (classifier_frame (loop2d xs zs))).
    intros [] [x z] Hin. by apply analyse_chunk_frame. }
  split; [done|]. intros x z Hout.
  destruct Hframe as (_ & _ & _ & He & _). apply He.
  by rewrite elem_of_loop2d.
Qed.

Lemma classifier_loop_raises (l : list (nat * nat)) : ∀ g,
  (∃ x z, (x, z) ∈ l ∧ entry (chunk_info g) x z = None) →
  ∃ g', for_each (λ _ '(x, z), analyse_chunk x z) l tt g = Raise IndexError g'.
Proof.
  induction l as [|[x0 z0] l IH]; intros g (x & z & Hin & Hnone).
  - by inv Hin.
  - rewrite for_each_cons, bind_unfold, analyse_chunk_unfold.
    destruct (entry (chunk_info g) x0 z0) as [c|] eqn:Hc; [|by eexists].
    apply IH. exists x, z. simpl.
    apply elem_of_cons in Hin as [[= -> ->]|Hin]; [congruence|].
    split; [done|]. rewrite entry_grid_set_ne; [done|]. congruence.
Qed.

Lemma classifier_loop_raised (l : list (nat * nat)) : ∀ g e g',
  for_each (λ _ '(x, z), analyse_chunk x z) l tt g = Raise e g' →
  e = IndexError ∧ ∃ x z, (x, z) ∈ l ∧ entry (chunk_info g) x z = None.
Proof.
  induction l as [|[x0 z0] l IH]; intros g e g' Hrun; [done|].
  rewrite for_each_cons, bind_unfold, analyse_chunk_unfold in Hrun.
  destruct (entry (chunk_info g) x0 z0) as [c|] eqn:Hc.
  - destruct (IH _ _ _ Hrun) as (-> & x & z & Hin & Hnone). split; [done|].
    exists x, z. split; [by right|]. simpl in Hnone.
    destruct (decide ((x0, z0) = (x, z))) as [[= <- <-]|Hne].
    + erewrite entry_grid_set_eq in Hnone by done. done.
    + by rewrite entry_grid_set_ne in Hnone.
  - injection Hrun as <- <-. split; [done|]. exists x0, z0. split; [by left|done].
Qed.

(** X3 (lines 99-106):
    the classifier raises exactly when the grid lacks a record somewhere in
    the span, and the only error it raises is IndexError. *)
Theorem classifier_raises_iff_record_missing (xs zs : nat) (g : globals) :
  ((∃ x z, (x < xs)%nat ∧ (z < zs)%nat ∧ entry (chunk_info g) x z = None)
   ↔ ∃ g', chunk_biome_analysis xs zs g = Raise IndexError g')
  ∧ ∀ e g', chunk_biome_analysis xs zs g = Raise e g' → e = IndexError.
Proof.
  unfold chunk_biome_analysis. split; [split|].
  - intros (x & z & Hx & Hz & Hnone). apply classifier_loop_raises.
    exists x, z. split; [by apply elem_of_loop2d|done].
  - intros (g' & Hrun).
    apply classifier_loop_raised in Hrun as (_ & x & z & Hin & Hnone).
    apply elem_of_loop2d in Hin as [Hx Hz]. by exists x, z.
  - intros e g' Hrun. by apply classifier_loop_raised in Hrun as [-> _].
Qed.

End ClassifierEdges.

(** ** Designations through the whole analysis *)

Lemma classify_chunk_tags_known pb bs c : tags_known (classify_chunk pb bs c).
Proof.
  unfold tags_known, classify_chunk, designation_tags.
  repeat match goal with
         | |- context [if ?b then _ else _] => destruct b
         end; simpl; intros t; rewrite !list_elem_of_In; simpl; tauto.
Qed.

Lemma flag_designation_tags_known tag c :
  tag = "structure"%string ∨ tag = "water"%string →
  tags_known c → tags_known (flag_designation tag c).
Proof.
  intros Htag Hc. unfold flag_designation.
  destruct (Py.mem tag (designations c)); [done|].
  intros t [Ht|Ht%list_elem_of_singleton]%elem_of_app; [by apply Hc|].
  subst t. unfold designation_tags. rewrite list_elem_of_In. simpl.
  destruct Htag as [-> | ->]; tauto.
Qed.

Lemma flag_designation_NoDup tag c :
  NoDup (designations c) → NoDup (designations (flag_designation tag c)).
Proof.
  intros Hnd. unfold flag_designation.
  destruct (Py.mem tag (designations c)) eqn:Hmem; [done|]. simpl.
  apply NoDup_app. split; [done|]. split; [|apply NoDup_singleton].
  intros t Ht ->%list_elem_of_singleton. apply mem_iff in Ht. congruence.
Qed.

Section DesignationInvariants.
Context `{Collaborators}.

(** X4 (lines 106-140, 227-228, 241-242):
    No tag is ever listed twice: if the designations of every record are
    free of duplicates before, they are so after the sample pass and after
    the whole analysis, however these end. *)
Theorem designations_stay_duplicate_free (xs zs : nat)
    (hm : gmap (nat * nat) Z) (g : globals) :
  chunks_inv (λ c, NoDup (designations c)) g →
  chunks_inv (λ c, NoDup (designations c)) (final (sample_pass hm g))
  ∧ chunks_inv (λ c, NoDup (designations c)) (final (analysis xs zs hm g)).
Proof.
  intros Hinv.
  assert (Hcls : ∀ pb bs c,
            keeps (λ c, NoDup (designations c)) c (classify_chunk pb bs c)).
  { intros pb bs c _. apply classify_chunk_exclusive. }
  assert (Hflag : ∀ tag c, tag = "structure"%string ∨ tag = "water"%string →
            keeps (λ c, NoDup (designations c)) c (flag_designation tag c)).
  { intros tag c _ Hnd. by apply flag_designation_NoDup. }
  split; (eapply chunks_rel_keeps; [|exact Hinv]).
  - by apply sample_pass_chunks_rel; [apply _|].
  - by apply analysis_chunks_rel; [apply _|..].
Qed.

Lemma analysis_keeps_tags_known (xs zs : nat) (hm : gmap (nat * nat) Z)
    (g : globals) :
  chunks_inv tags_known g → chunks_inv tags_known (final (analysis xs zs hm g)).
Proof.
  intros Hinv. eapply chunks_rel_keeps; [|exact Hinv].
  apply analysis_chunks_rel; [apply _| |].
  - intros pb bs c _. apply classify_chunk_tags_known.
  - intros tag c Htag Hc. by apply flag_designation_tags_known.
Qed.

(** X5 (lines 106-140, 227-228, 241-242):
    only known tags are ever listed: if every designation on the grid is
    one of the seven keys of [conversion] before, the same holds after the
    sample pass and after the whole analysis, however these end. *)
Theorem designations_stay_known (xs zs : nat) (hm : gmap (nat * nat) Z)
    (g : globals) :
  chunks_inv tags_known g →
  chunks_inv tags_known (final (sample_pass hm g))
  ∧ chunks_inv tags_known (final (analysis xs zs hm g)).
Proof.
  intros Hinv.
  assert (Hcls : ∀ pb bs c, keeps tags_known c (classify_chunk pb bs c)).
  { intros pb bs c _. apply classify_chunk_tags_known. }
  assert (Hflag : ∀ tag c, tag = "structure"%string ∨ tag = "water"%string →
            keeps tags_known c (flag_designation tag c)).
  { intros tag c Htag Hc. by apply flag_designation_tags_known. }
  split; (eapply chunks_rel_keeps; [|exact Hinv]).
  - by apply sample_pass_chunks_rel; [apply _|].
  - by apply analysis_chunks_rel; [apply _|..].
Qed.

End DesignationInvariants.

Lemma initial_chunks_inv (P : chunk → Prop) (xs zs : nat) :
  P chunk_info_template → chunks_inv P (initial_globals xs zs).
Proof. intros HP x z c Hc. by apply initial_entry_inv in Hc as ->. Qed.

Lemma designations_stay_duplicate_free_witness :
  chunks_inv (λ c, NoDup (designations c))
    (final (sample_pass (H := river_world) (flat_heightmap 32 32 62)
              (initial_globals 2 2)))
  ∧ chunks_inv (λ c, NoDup (designations c))
      (final (analysis (H := river_world) 2 2 (flat_heightmap 32 32 62)
                (initial_globals 2 2))).
Proof.
  apply (designations_stay_duplicate_free (H := river_world)).
  apply initial_chunks_inv. constructor.
Defined.

Lemma designations_stay_known_witness :
  chunks_inv tags_known
    (final (sample_pass (H := river_world) (flat_heightmap 32 32 62)
              (initial_globals 2 2)))
  ∧ chunks_inv tags_known
      (final (analysis (H := river_world) 2 2 (flat_heightmap 32 32 62)
                (initial_globals 2 2))).
Proof.
  apply (designations_stay_known (H := river_world)).
  apply initial_chunks_inv. intros t Ht. by inv Ht.
Defined.

(** ** The debug view *)

Lemma conversion_keys (t : string) :
  is_Some (conversion !! t) ↔ t ∈ designation_tags.
Proof.
  unfold designation_tags. split.
  - intros [b Hb]. unfold conversion in Hb.
    apply elem_of_list_to_map_2, list_elem_of_In in Hb. simpl in Hb.
    rewrite list_elem_of_In. simpl.
    repeat (destruct Hb as [[= <- _]|Hb]; [tauto|]). done.
  - rewrite list_elem_of_In. simpl. intros Ht.
    repeat (destruct Ht as [<-|Ht]; [by eexists|]). done.
Qed.

Lemma convert_known (ds : list string) :
  is_Some (convert ds) ↔ ∀ t, t ∈ ds → t ∈ designation_tags.
Proof.
  unfold convert. rewrite mapM_is_Some, Forall_forall.
  split; intros Hall t Ht; apply conversion_keys, Hall, Ht.
Qed.

Lemma convert_length (ds blocks : list string) :
  convert ds = Some blocks → List.length blocks = List.length ds.
Proof.
  unfold convert. intros Hm%mapM_Some. symmetry. by eapply Forall2_length.
Qed.

Lemma ret_unfold {A} (a : A) (g : globals) : (mret a : M A) g = Ok a g.
Proof. reflexivity. Qed.

Section DebugViewFacts.
Context `{Collaborators}.

Lemma debug_chunk_unfold x z g :
  debug_chunk x z g =
  match entry (chunk_info g) x z with
  | None => Raise IndexError g
  | Some c =>
      match convert (designations c) with
      | None => Raise KeyError g
      | Some blocks =>
          Ok {| corner1 := (STARTX + Z.of_nat x * 16 + 7, 250,
                            STARTZ + Z.of_nat z * 16 + 7);
                corner2 := (STARTX + Z.of_nat x * 16 + 10, 250,
                            STARTZ + Z.of_nat z * 16 + 10);
                filling := match blocks with
                           | [] => Single "redstone_block"
                           | _ => Palette blocks
                           end |} g
      end
  end.
Proof.
  unfold debug_chunk. rewrite bind_unfold, read_chunk_unfold.
  destruct (entry (chunk_info g) x z) as [c|]; [|done].
  rewrite bind_unfold. by destruct (convert (designations c)).
Qed.

Lemma debug_chunk_pure x z g : final (debug_chunk x z g) = g.
Proof.
  rewrite debug_chunk_unfold. destruct (entry (chunk_info g) x z) as [c|]; [|done].
  by destruct (convert (designations c)).
Qed.

Lemma debug_loop_outcome (l : list (nat * nat)) : ∀ acc g,
  match for_each (λ acc '(x, z), p ← debug_chunk x z; mret (acc ++ [p]))
                 l acc g with
  | Ok shown g' =>
      g' = g
      ∧ ∃ ps, shown = acc ++ ps
              ∧ Forall2 (λ xz p, debug_chunk xz.1 xz.2 g = Ok p g) l ps
  | Raise e g' =>
      g' = g ∧ ∃ x z, (x, z) ∈ l ∧ debug_chunk x z g = Raise e g
  end.
Proof.
  induction l as [|[x z] l IH]; intros acc g.
  - simpl. split; [done|]. exists []. by rewrite app_nil_r.
  - rewrite for_each_cons, bind_unfold, bind_unfold.
    pose proof (debug_chunk_pure x z g) as Hpure.
    destruct (debug_chunk x z g) as [p g1|e g1] eqn:Hstep; simpl in Hpure;
      subst g1.
    + cbv beta iota. rewrite ret_unfold. cbv beta iota.
      specialize (IH (acc ++ [p]) g).
      destruct (for_each _ l (acc ++ [p]) g) as [shown g'|e g'].
      * destruct IH as (-> & ps & -> & Hall). split; [done|].
        exists (p :: ps). split; [by rewrite <- app_assoc|].
        by constructor.
      * destruct IH as (-> & x' & z' & Hin & Hr). split; [done|].
        exists x', z'. split; [by right|done].
    + split; [done|]. exists x, z. split; [by left|done].
Qed.

(** X6 (lines 174-189):
    [debug_chunk_info] never changes the globals. On a grid whose
    designations are all known tags it cannot raise KeyError; when in
    addition the grid is rectangular and not empty it finishes with one
    placement per chunk, in scan order, followed by the clearing of the
    layer, and a chunk is shown as "redstone_block" exactly when it has
    no designation and otherwise with one block per designation. *)
Theorem debug_view_of_known_tags (ENDX ENDZ : Z) (g : globals) :
  chunks_inv tags_known g →
  final (debug_chunk_info ENDX ENDZ g) = g
  ∧ (∀ e g', debug_chunk_info ENDX ENDZ g = Raise e g' → e = IndexError)
  ∧ (∀ row,
       chunk_info g !! 0%nat = Some row →
       (∀ x z, (x < List.length (chunk_info g))%nat →
               (z < List.length row)%nat →
               is_Some (entry (chunk_info g) x z)) →
       ∃ ps,
         debug_chunk_info ENDX ENDZ g
         = Ok (ps ++ [{| corner1 := (STARTX, 250, STARTZ);
                         corner2 := (ENDX - 1, 250, ENDZ - 1);
                         filling := Single "air" |}]) g
         ∧ Forall2 (λ xz p, debug_chunk xz.1 xz.2 g = Ok p g)
                   (loop2d (List.length (chunk_info g)) (List.length row)) ps)
  ∧ (∀ x z c p,
       entry (chunk_info g) x z = Some c →
       debug_chunk x z g = Ok p g →
       (filling p = Single "redstone_block" ↔ designations c = [])
       ∧ (designations c ≠ [] →
          ∃ blocks, filling p = Palette blocks
                    ∧ List.length blocks = List.length (designations c))).
Proof.
  intros Hknown.
  assert (Hchunk : ∀ x z e, debug_chunk x z g = Raise e g → e = IndexError).
  { intros x z e Hr. rewrite debug_chunk_unfold in Hr.
    destruct (entry (chunk_info g) x z) as [c|] eqn:Hc; [|by injection Hr].
    destruct (convert_known (designations c)) as [_ [blocks Hb]].
    { apply (Hknown _ _ _ Hc). }
    by rewrite Hb in Hr. }
  assert (Hrun : ∀ zs,
            first_row_length g = Ok zs g →
            debug_chunk_info ENDX ENDZ g =
            match for_each (λ acc '(x, z), p ← debug_chunk x z; mret (acc ++ [p]))
                    (loop2d (List.length (chunk_info g)) zs) [] g with
            | Ok shown g' =>
                Ok (shown ++ [{| corner1 := (STARTX, 250, STARTZ);
                                 corner2 := (ENDX - 1, 250, ENDZ - 1);
                                 filling := Single "air" |}]) g'
            | Raise e g' => Raise e g'
            end).
  { intros zs Hzs. unfold debug_chunk_info.
    rewrite bind_unfold. change (get g) with (Ok g g). cbv beta iota.
    rewrite bind_unfold, Hzs. cbv beta iota. rewrite bind_unfold.
    by destruct (for_each _ _ _ _). }
  assert (Hfirst : first_row_length g = Raise IndexError g
                   ∨ ∃ row, chunk_info g !! 0%nat = Some row
                            ∧ first_row_length g = Ok (List.length row) g).
  { unfold first_row_length. destruct (chunk_info g !! 0%nat) as [row|];
      [right; by exists row|by left]. }
  split; [|split; [|split]].
  - destruct Hfirst as [Hf|(row & _ & Hf)].
    + unfold debug_chunk_info. rewrite bind_unfold.
      change (get g) with (Ok g g). cbv beta iota. by rewrite bind_unfold, Hf.
    + rewrite (Hrun _ Hf).
      pose proof (debug_loop_outcome
                    (loop2d (List.length (chunk_info g)) (List.length row))
                    [] g) as Hloop.
      destruct (for_each _ _ _ _) as [shown g'|e g']; by destruct Hloop.
  - intros e g' Hr. destruct Hfirst as [Hf|(row & _ & Hf)].
    + unfold debug_chunk_info in Hr. rewrite bind_unfold in Hr.
      change (get g) with (Ok g g) in Hr. cbv beta iota in Hr.
      rewrite bind_unfold, Hf in Hr. by injection Hr.
    + rewrite (Hrun _ Hf) in Hr.
      pose proof (debug_loop_outcome
                    (loop2d (List.length (chunk_info g)) (List.length row))
                    [] g) as Hloop.
      destruct (for_each _ _ _ _) as [shown g1|e1 g1]; [done|].
      injection Hr as -> ->. destruct Hloop as (_ & x & z & _ & Hx).
      by eapply Hchunk.
  - intros row Hrow Hrect.
    assert (Hf : first_row_length g = Ok (List.length row) g).
    { unfold first_row_length. by rewrite Hrow. }
    rewrite (Hrun _ Hf).
    pose proof (debug_loop_outcome
                  (loop2d (List.length (chunk_info g)) (List.length row))
                  [] g) as Hloop.
    destruct (for_each _ _ _ _) as [shown g1|e1 g1].
    + destruct Hloop as (-> & ps & -> & Hall). by exists ps.
    + destruct Hloop as (_ & x & z & [Hx Hz]%elem_of_loop2d & Hr).
      pose proof (Hchunk _ _ _ Hr) as ->.
      rewrite debug_chunk_unfold in Hr.
      destruct (Hrect x z Hx Hz) as [c Hc]. rewrite Hc in Hr.
      by destruct (convert (designations c)).
  - intros x z c p Hc Hp. rewrite debug_chunk_unfold, Hc in Hp.
    destruct (convert (designations c)) as [blocks|] eqn:Hb; [|done].
    injection Hp as <-. simpl. apply convert_length in Hb.
    destruct blocks as [|b blocks], (designations c) as [|d ds];
      try discriminate; split; try done.
    intros _. by eexists.
Qed.

End DebugViewFacts.

Lemma debug_view_of_known_tags_witness :
  final (debug_chunk_info (H := pond_world) 48 32 pond_final) = pond_final
  ∧ ∃ ps, debug_chunk_info (H := pond_world) 48 32 pond_final
          = Ok (ps ++ [{| corner1 := (0, 250, 0);
                          corner2 := (48 - 1, 250, 32 - 1);
                          filling := Single "air" |}]) pond_final
          ∧ List.length ps = 6%nat.
Proof.
  assert (Hknown : chunks_inv tags_known pond_final).
  { apply (analysis_keeps_tags_known (H := pond_world)).
    apply initial_chunks_inv. intros t Ht. by inv Ht. }
  destruct (debug_view_of_known_tags (H := pond_world) 48 32 pond_final Hknown)
    as (Hpure & _ & Hrect & _).
  split; [exact Hpure|].
  assert (Hrow : ∃ row, chunk_info pond_final !! 0%nat = Some row
                        ∧ List.length row = 2%nat
                        ∧ List.length (chunk_info pond_final) = 3%nat).
  { eexists. split_and!; vm_compute; reflexivity. }
  destruct Hrow as (row & Hrow & Hlen & Hgrid).
  destruct (Hrect row Hrow) as (ps & Hrun & Hall).
  { rewrite Hlen, Hgrid. intros x z Hx Hz.
    destruct x as [|[|[|x]]]; [| | |lia];
      (destruct z as [|[|z]]; [| |lia]); vm_compute; by eexists. }
  exists ps. split; [exact Hrun|].
  apply Forall2_length in Hall. rewrite <- Hall, Hlen, Hgrid. reflexivity.
Defined.

(** ** More on the heightmap refiner *)

Section RefinerEdges.
Context `{Collaborators}.
Implicit Types (hp : gmap nat (gmap (nat * nat) Z)) (l : nat) (k : nat * nat).

Lemma refine_columns_settled (fuel : nat) ax az l : ∀ cols hp,
  (∀ k, k ∈ cols →
     ∃ h, heap_read l k hp = Some h
          ∧ is_foliage_or_air
              (getBlock (ax + Z.of_nat k.1) h (az + Z.of_nat k.2)) = false) →
  refine_columns (S fuel) ax az l cols hp = Finished hp.
Proof.
  induction cols as [|[x z] cols IH]; intros hp Hcols; [done|].
  destruct (Hcols (x, z)) as (h & Hr & Hstop); [by left|].
  cbn [refine_columns descend]. rewrite Hr. simpl in Hstop. rewrite Hstop.
  apply IH. intros k Hk. apply Hcols. by right.
Qed.

(** X7 (lines 143-157):
    refining a refined heightmap changes nothing: after a call that
    finished, a second call on the memory it left finishes at once with
    the same memory and the same reference, whatever fuel it is given. *)
Theorem refiner_idempotent (fuel fuel' : nat) (m m' : memory) (r : nat) :
  calculateTreelessHeightmap fuel m = Finished (m', r) →
  calculateTreelessHeightmap (S fuel') m' = Finished (m', r).
Proof.
  unfold calculateTreelessHeightmap. intros Hcall.
  destruct (heightmaps (slice m) !! "MOTION_BLOCKING_NO_LEAVES"%string)
    as [l|] eqn:Hl; [|done].
  destruct (rect (slice m)) as [[[ax az] dx] dz] eqn:Hrect.
  destruct (refine_columns fuel ax az l
              (loop2d (Z.to_nat dx) (Z.to_nat dz)) (heap m))
    as [hp'| |] eqn:Hrun; try done.
  injection Hcall as <- <-. cbn [slice heap]. rewrite Hl, Hrect.
  apply refine_columns_finished in Hrun as (_ & _ & _ & Hin);
    [|apply NoDup_loop2d].
  rewrite refine_columns_settled; [done|].
  intros k Hk. destruct (Hin k Hk) as (h & n & _ & Hr & _ & Hstop).
  by exists (lowered n h).
Qed.

(** X8 (lines 143-157):
    what the refiner can raise on a rectangle that is not empty. Without
    a heightmap of the expected name
    it raises KeyError, and only then. With the heightmap present the only
    error is IndexError, raised only when the array lacks a column of the
    rectangle, and on such an array no call returns. When the columns the
    array has all lead down to a block that is neither foliage nor air, a
    call with enough fuel returns if the array has every column of the
    rectangle and raises IndexError if it lacks one. *)
Theorem refiner_raises_only_for_missing_column (m : memory)
    (ax az dx dz : Z) :
  rect (slice m) = (ax, az, dx, dz) →
  0 < dx → 0 < dz →
  ((∃ fuel, calculateTreelessHeightmap fuel m = Failed KeyError)
   ↔ heightmaps (slice m) !! "MOTION_BLOCKING_NO_LEAVES"%string = None)
  ∧ ∀ l, heightmaps (slice m) !! "MOTION_BLOCKING_NO_LEAVES"%string = Some l →
      (∀ fuel e, calculateTreelessHeightmap fuel m = Failed e →
         e = IndexError
         ∧ ∃ x z, (x < Z.to_nat dx)%nat ∧ (z < Z.to_nat dz)%nat
                  ∧ heap_read l (x, z) (heap m) = None)
      ∧ (∀ x z, (x < Z.to_nat dx)%nat → (z < Z.to_nat dz)%nat →
           heap_read l (x, z) (heap m) = None →
           ∀ fuel m' r, calculateTreelessHeightmap fuel m ≠ Finished (m', r))
      ∧ ((∀ x z h, (x < Z.to_nat dx)%nat → (z < Z.to_nat dz)%nat →
            heap_read l (x, z) (heap m) = Some h →
            ∃ n : nat,
              ¬ foliage_or_air
                  (getBlock (ax + Z.of_nat x) (lowered n h)
                            (az + Z.of_nat z))) →
         ∃ fuel0, ∀ fuel, (fuel0 ≤ fuel)%nat →
           ((∀ x z, (x < Z.to_nat dx)%nat → (z < Z.to_nat dz)%nat →
               is_Some (heap_read l (x, z) (heap m)))
            ∧ ∃ m', calculateTreelessHeightmap fuel m = Finished (m', l))
           ∨ ((∃ x z, (x < Z.to_nat dx)%nat ∧ (z < Z.to_nat dz)%nat
                      ∧ heap_read l (x, z) (heap m) = None)
              ∧ calculateTreelessHeightmap fuel m = Failed IndexError)).
Proof.
  intros Hrect _ _. split.
  - unfold calculateTreelessHeightmap. rewrite Hrect. split.
    + intros [fuel Hcall].
      destruct (heightmaps (slice m) !! "MOTION_BLOCKING_NO_LEAVES"%string)
        as [l|]; [|done].
      destruct (refine_columns fuel ax az l _ (heap m)) as [hp'|e|] eqn:Hrun;
        [done| |done].
      apply refine_columns_failed in Hrun as [-> _]; [done|].
      apply NoDup_loop2d.
    + intros ->. by exists 0%nat.
  - intros l Hl. split; [|split].
    + intros fuel e Hcall. unfold calculateTreelessHeightmap in Hcall.
      rewrite Hl, Hrect in Hcall.
      destruct (refine_columns fuel ax az l _ (heap m)) as [hp'|e'|] eqn:Hrun;
        [done| |done].
      injection Hcall as ->.
      apply refine_columns_failed in Hrun as (-> & [x z] & Hin & Hnone);
        [|apply NoDup_loop2d].
      split; [done|]. apply elem_of_loop2d in Hin as [Hx Hz]. by exists x, z.
    + intros x z Hx Hz Hnone fuel m' r Hcall.
      destruct (refiner_returned fuel m m' l r ax az dx dz Hl Hrect Hcall)
        as (_ & _ & _ & _ & _ & Hin).
      destruct (Hin x z Hx Hz) as (h & _ & Hr & _). congruence.
    + intros Hsolid.
      destruct (refine_columns_outcome ax az l
                  (loop2d (Z.to_nat dx) (Z.to_nat dz)) (heap m))
        as [fuel0 Hout]; [apply NoDup_loop2d| |].
      * intros [x z] h [Hx Hz]%elem_of_loop2d Hr.
        destruct (Hsolid x z h Hx Hz Hr) as [n Hn].
        exists n. by apply is_foliage_or_air_false.
      * exists fuel0. intros fuel Hfuel.
        unfold calculateTreelessHeightmap. rewrite Hl, Hrect.
        destruct (Hout fuel Hfuel)
          as [[Hall [hp' ->]] | [(k & Hk & Hnone) ->]].
        -- left. split; [|by eexists]. intros x z Hx Hz.
           apply (Hall (x, z)). by apply elem_of_loop2d.
        -- right. split; [|done]. destruct k as [x z].
           apply elem_of_loop2d in Hk as [Hx Hz]. by exists x, z.
Qed.

End RefinerEdges.

Lemma refiner_idempotent_witness :
  calculateTreelessHeightmap (H := tree_world) 1 (one_column_memory 69)
  = Finished (one_column_memory 69, 0%nat).
Proof.
  apply (refiner_idempotent (H := tree_world) 10 0 (one_column_memory 72)).
  reflexivity.
Defined.

Lemma refiner_raises_only_for_missing_column_witness :
  ∃ fuel,
    calculateTreelessHeightmap (H := tree_world) fuel
      {| slice := {| heightmaps :=
                       {[ "MOTION_BLOCKING_NO_LEAVES"%string := 0%nat ]};
                     rect := (0, 0, 2, 1) |};
         heap := one_column_heap 72 |}
    = Failed IndexError.
Proof.
  destruct (refiner_raises_only_for_missing_column (H := tree_world)
              {| slice := {| heightmaps :=
                               {[ "MOTION_BLOCKING_NO_LEAVES"%string
                                  := 0%nat ]};
                             rect := (0, 0, 2, 1) |};
                 heap := one_column_heap 72 |} 0 0 2 1 eq_refl eq_refl
              eq_refl)
    as [_ Hpresent].
  destruct (Hpresent 0%nat eq_refl) as (_ & _ & Houtcome).
  destruct Houtcome as [fuel0 Hout].
  - intros x z h Hx Hz Hr.
    change (Z.to_nat 2) with 2%nat in Hx. change (Z.to_nat 1) with 1%nat in Hz.
    assert (z = 0%nat) as -> by lia.
    destruct x as [|[|x]]; [| |lia].
    + assert (h = 72) as -> by (vm_compute in Hr; congruence).
      exists 3%nat. apply (is_foliage_or_air_false (H := tree_world)).
      reflexivity.
    + vm_compute in Hr. discriminate.
  - exists fuel0. destruct (Hout fuel0 (le_n fuel0)) as [[Hall _] | [_ Hfail]].
    + destruct (Hall 1%nat 0%nat) as [h Hh];
        [change (Z.to_nat 2) with 2%nat; lia
        |change (Z.to_nat 1) with 1%nat; lia|].
      vm_compute in Hh. discriminate.
    + exact Hfail.
Defined.

(** ** Detection of structures *)

Lemma avoid_all_lookup (region : list coord) : ∀ (m : gmap coord string) r,
  avoid_all region m !! r
  = if decide (r ∈ region) then Some avoid_reason else m !! r.
Proof.
  unfold avoid_all. induction region as [|r0 region IH]; intros m r; simpl.
  - destruct (decide (r ∈ [])) as [Hin|_]; [by inv Hin|done].
  - rewrite IH. destruct (decide (r ∈ region)) as [Hin|Hout].
    + rewrite decide_True; [done|by right].
    + destruct (decide (r = r0)) as [->|Hne].
      * rewrite decide_True by by left. apply lookup_insert_eq.
      * rewrite decide_False; [by rewrite lookup_insert_ne|].
        by intros [?|?]%elem_of_cons.
Qed.

Lemma avoid_loop (region : list coord) : ∀ g,
  for_each (λ _ r, g ← get;
                   put (set_to_avoid
                          (<[r := "Artificial structure detected"%string]>
                             (to_avoid g)) g))
           region tt g
  = Ok tt (set_to_avoid (avoid_all region (to_avoid g)) g).
Proof.
  induction region as [|r region IH]; intros g.
  - by destruct g.
  - rewrite for_each_cons, bind_unfold.
    change ((get ≫= λ g0, put (set_to_avoid
              (<[r := "Artificial structure detected"%string]> (to_avoid g0))
              g0)) g)
      with (Ok tt (set_to_avoid (<[r := avoid_reason]> (to_avoid g)) g)).
    cbv beta iota. rewrite IH. by destruct g.
Qed.

Section DetectStructure.
Context `{Collaborators}.

Lemma detect_structure_unfold cx cz seed lo hi obs g :
  detect_structure cx cz seed lo hi obs g =
  match entry (chunk_info g) cx cz with
  | None => Raise IndexError g
  | Some c =>
      Ok (obs ++ structure_region seed lo hi obs)
         (set_to_avoid
            (avoid_all (structure_region seed lo hi obs) (to_avoid g))
            (set_chunk_info
               (grid_set cx cz (flag_designation "structure" c) (chunk_info g))
               g))
  end.
Proof.
  unfold detect_structure, structure_region.
  destruct seed as [[x y] z], lo as [[x1 y1] z1], hi as [[x2 y2] z2].
  cbn [fst snd].
  assert (Hfs : ∃ region,
            flood_search_3D x y z x1 y1 z1 x2 y2 z2 ARTIFICIAL obs true
            = (region, region)) by (eexists; reflexivity).
  destruct Hfs as [region Hfs]. rewrite Hfs. cbn [fst snd]. clear Hfs.
  rewrite bind_unfold, update_chunk_unfold.
  destruct (entry (chunk_info g) cx cz) as [c|] eqn:Hc; [|done].
  cbv beta iota. rewrite bind_unfold, avoid_loop. cbv beta iota.
  by rewrite ret_unfold.
Qed.

(** X9 (lines 225-238):
    A structure detection can only fail on a chunk that is not on the
    grid. Otherwise it finishes: every coordinate of the region is then in
    [to_avoid] with the fixed reason, every other entry of [to_avoid] is
    as before, the chunk carries "structure", the other records of the
    grid and the water dictionaries are untouched, and the region has been
    added to the observed list. *)
Theorem structure_detection_marks_region (cx cz : nat) (seed lo hi : coord)
    (obs : list coord) (g : globals) :
  (entry (chunk_info g) cx cz = None →
   detect_structure cx cz seed lo hi obs g = Raise IndexError g)
  ∧ (∀ c, entry (chunk_info g) cx cz = Some c →
       ∃ g', detect_structure cx cz seed lo hi obs g
             = Ok (obs ++ structure_region seed lo hi obs) g'
           ∧ (∀ r, r ∈ structure_region seed lo hi obs →
                   to_avoid g' !! r = Some avoid_reason)
           ∧ (∀ r, r ∉ structure_region seed lo hi obs →
                   to_avoid g' !! r = to_avoid g !! r)
           ∧ entry (chunk_info g') cx cz
             = Some (flag_designation "structure" c)
           ∧ "structure"%string
             ∈ designations (flag_designation "structure" c)
           ∧ (∀ x z, (x, z) ≠ (cx, cz) →
                     entry (chunk_info g') x z = entry (chunk_info g) x z)
           ∧ waterways g' = waterways g
           ∧ waterbody_info g' = waterbody_info g).
Proof.
  rewrite detect_structure_unfold. split; [by intros ->|].
  intros c Hc. rewrite Hc. eexists. split; [done|]. simpl. split_and!.
  - intros r Hr. rewrite avoid_all_lookup. by rewrite decide_True.
  - intros r Hr. rewrite avoid_all_lookup. by rewrite decide_False.
  - by eapply entry_grid_set_eq.
  - unfold flag_designation.
    destruct (Py.mem "structure" (designations c)) eqn:Hmem.
    + by apply mem_iff.
    + simpl. apply elem_of_app. right. by left.
  - intros x z Hne. apply entry_grid_set_ne. congruence.
  - done.
  - done.
Qed.

Lemma detect_structure_avoid_grows cx cz seed lo hi obs :
  preserves avoid_grows (detect_structure cx cz seed lo hi obs).
Proof.
  intros g. rewrite detect_structure_unfold.
  destruct (entry (chunk_info g) cx cz) as [c|]; simpl.
  - split.
    + intros r Hr. simpl. rewrite avoid_all_lookup.
      destruct (decide (r ∈ _)); [by eexists|done].
    + intros r v. simpl. rewrite avoid_all_lookup.
      destruct (decide (r ∈ _)); [intros [= <-]; by right|by left].
  - split; [done|]. intros r v Hv. by left.
Qed.

End DetectStructure.

(** ** Invariants of the pass, from invariants of the two detections *)

Section PassFromDetections.
Context `{Collaborators}.
Context (R : relation globals) `{!PreOrder R}.
Hypothesis R_structure : ∀ cx cz seed lo hi obs,
  preserves R (detect_structure cx cz seed lo hi obs).
Hypothesis R_water : ∀ cx cz seed lo hi obs,
  preserves R (detect_water cx cz seed lo hi obs).

Lemma sample_from_detections hm cx cz obs j :
  preserves R (sample hm cx cz obs j).
Proof.
  unfold sample. destruct obs as [obs_struc obs_fluid], j as [jx jz].
  destruct (buildlocal2global _ 0 _) as [[globalx y0] globalz] eqn:Hglobal.
  apply (preserves_bind R); [by apply (preserves_lift R)|]. intros y.
  apply (preserves_get_bind R). intros g.
  destruct (_ && _).
  - apply (preserves_at R), (preserves_bind R);
      [apply R_structure|intros; by apply (preserves_ret R)].
  - destruct (_ && _).
    + apply (preserves_at R), (preserves_bind R);
        [apply R_water|intros; by apply (preserves_ret R)].
    + by apply (preserves_ret R).
Qed.

Lemma sample_pass_from_detections hm : preserves R (sample_pass hm).
Proof.
  unfold sample_pass. apply (preserves_get_bind R). intros g.
  apply (preserves_at R), (preserves_bind R).
  - intros g'. unfold first_row_length.
    destruct (chunk_info g' !! 0%nat); simpl; reflexivity.
  - intros zs. apply (preserves_for_each R). intros _ [cx cz] _.
    unfold scan_chunk.
    apply (preserves_bind R); [|intros; by apply (preserves_ret R)].
    apply (preserves_for_each R). intros obs j _.
    apply sample_from_detections.
Qed.

Lemma analysis_from_detections xs zs hm :
  preserves R (chunk_biome_analysis xs zs) → preserves R (analysis xs zs hm).
Proof.
  intros Hcls. unfold analysis. apply (preserves_bind R); [done|].
  intros _. apply sample_pass_from_detections.
Qed.

End PassFromDetections.

#[local] Instance avoid_grows_preorder : PreOrder avoid_grows.
Proof.
  split.
  - intros g. split; [done|]. intros r v Hv. by left.
  - intros g1 g2 g3 [Hk Hv] [Hk' Hv']. split; [auto|].
    intros r v H3. destruct (Hv' _ _ H3) as [H2 | ->]; [auto|by right].
Qed.

Lemma avoid_grows_same (g g' : globals) :
  to_avoid g' = to_avoid g → avoid_grows g g'.
Proof.
  intros Heq. split; rewrite Heq; [done|]. intros r v Hv. by left.
Qed.

Section AvoidanceFacts.
Context `{Collaborators}.

Lemma update_chunk_avoid_grows x z f : preserves avoid_grows (update_chunk x z f).
Proof.
  intros g. apply avoid_grows_same. rewrite update_chunk_unfold.
  by destruct (entry (chunk_info g) x z).
Qed.

Lemma detect_water_avoid_grows cx cz seed lo hi obs :
  preserves avoid_grows (detect_water cx cz seed lo hi obs).
Proof.
  apply (preserves_detect_water avoid_grows).
  - intros x z tag _. apply update_chunk_avoid_grows.
  - intros g m. by apply avoid_grows_same.
  - intros g r name _. by apply avoid_grows_same.
Qed.

(** X10 (lines 210-284):
    the avoidance dictionary only grows: through the sample pass and the
    whole analysis, however they end, no coordinate leaves [to_avoid], and
    every value found afterwards was either there before or is the fixed
    reason "Artificial structure detected". *)
Theorem to_avoid_only_grows (xs zs : nat) (hm : gmap (nat * nat) Z)
    (g : globals) :
  avoid_grows g (final (sample_pass hm g))
  ∧ avoid_grows g (final (analysis xs zs hm g))
  ∧ (∀ g', avoid_grows g g' →
       (∀ r, is_Some (to_avoid g !! r) → is_Some (to_avoid g' !! r))
       ∧ (to_avoid g = ∅ →
          ∀ r v, to_avoid g' !! r = Some v → v = avoid_reason)).
Proof.
  split; [|split].
  - apply (sample_pass_from_detections avoid_grows).
    + apply detect_structure_avoid_grows.
    + apply detect_water_avoid_grows.
  - apply (analysis_from_detections avoid_grows).
    + apply detect_structure_avoid_grows.
    + apply detect_water_avoid_grows.
    + unfold chunk_biome_analysis. apply (preserves_for_each avoid_grows).
      intros [] [x z] _. apply update_chunk_avoid_grows.
  - intros g' [Hk Hv]. split; [done|]. intros Hempty r v Hr.
    destruct (Hv _ _ Hr) as [Hold | ->]; [|done].
    rewrite Hempty in Hold. by rewrite lookup_empty in Hold.
Qed.

End AvoidanceFacts.

(** ** Indexing the grid around a chunk *)

Lemma index_unfold {A} (l : list A) (i : Z) :
  Py.index l i = k ← index_pos (List.length l) i; l !! k.
Proof.
  unfold Py.index, index_pos. destruct (0 <=? i); [done|].
  by destruct (0 <=? i + Z.of_nat (List.length l)).
Qed.

Lemma index_of_nat {A} (l : list A) (i : nat) : Py.index l (Z.of_nat i) = l !! i.
Proof.
  unfold Py.index. destruct (Z.leb_spec 0 (Z.of_nat i)); [|lia].
  by rewrite Nat2Z.id.
Qed.

Lemma index_insert {A} (l : list A) (n : nat) (v a : A) (i : Z) :
  l !! n = Some a →
  Py.index (<[n := v]> l) i
  = if decide (index_pos (List.length l) i = Some n) then Some v
    else Py.index l i.
Proof.
  intros Hn. rewrite !index_unfold, length_insert.
  destruct (index_pos (List.length l) i) as [k|]; simpl; [|done].
  destruct (decide (k = n)) as [->|Hne].
  - rewrite decide_True by done. apply list_lookup_insert_eq.
    by eapply lookup_lt_Some.
  - rewrite decide_False by congruence. by apply list_lookup_insert_ne.
Qed.

Lemma biome_at_grid_set (ci : list (list chunk)) (x z : nat) (c c' : chunk)
    (i j : Z) :
  entry ci x z = Some c →
  primary_biome c' = primary_biome c →
  biome_at (grid_set x z c' ci) i j = biome_at ci i j.
Proof.
  unfold entry, grid_set, biome_at.
  destruct (ci !! x) as [row|] eqn:Hx; [|done]. simpl. intros Hz Hpb.
  rewrite (index_insert _ _ _ row) by done.
  destruct (decide (index_pos (List.length ci) i = Some x)) as [Hi|Hi].
  - assert (Hrow : Py.index ci i = Some row).
    { by rewrite index_unfold, Hi. }
    rewrite Hrow, (index_insert _ _ _ c) by done.
    destruct (decide (index_pos (List.length row) j = Some z)) as [Hj|Hj];
      [|done].
    assert (Hc : Py.index row j = Some c) by by rewrite index_unfold, Hj.
    by rewrite Hc, Hpb.
  - done.
Qed.

Lemma primary_biome_at_unfold (i j : Z) (g : globals) :
  primary_biome_at i j g =
  match biome_at (chunk_info g) i j with
  | Some (Some pb) => Ok pb g
  | Some None => Raise TypeError g
  | None => Raise IndexError g
  end.
Proof.
  unfold primary_biome_at, biome_at.
  destruct (Py.index (chunk_info g) i) as [row|]; [|done].
  destruct (Py.index row j) as [c|]; [|done]. by destruct (primary_biome c).
Qed.

Lemma biome_operand_unfold (i j : Z) (g : globals) :
  biome_operand i j g =
  match biome_at (chunk_info g) i j with
  | Some o => Ok o g
  | None => Raise IndexError g
  end.
Proof.
  unfold biome_operand, biome_at.
  destruct (Py.index (chunk_info g) i) as [row|]; [|done].
  by destruct (Py.index row j) as [c|].
Qed.

Lemma surrounding_biomes_ready cx cz g :
  neighbours_ready cx cz (chunk_info g) →
  ∃ s, surrounding_biomes cx cz g = Ok s g.
Proof.
  intros ([p1 H1] & [p2 H2] & [p3 H3] & [p4 H4]). unfold surrounding_biomes.
  rewrite bind_unfold, biome_operand_unfold, H1.
  rewrite bind_unfold, biome_operand_unfold, H2.
  rewrite bind_unfold. cbn [concat]. rewrite ret_unfold.
  rewrite bind_unfold, biome_operand_unfold, H3.
  rewrite bind_unfold. cbn [concat]. rewrite ret_unfold.
  rewrite bind_unfold, biome_operand_unfold, H4.
  rewrite bind_unfold. cbn [concat]. rewrite ret_unfold.
  by eexists.
Qed.

Lemma surrounding_biomes_past_edge cx cz g :
  biome_at (chunk_info g) (Z.of_nat cx + 1) (Z.of_nat cz + 1) = None →
  surrounding_biomes cx cz g = Raise IndexError g.
Proof.
  intros Hnone. unfold surrounding_biomes.
  by rewrite bind_unfold, biome_operand_unfold, Hnone.
Qed.

Lemma biome_at_past_edge (ci : list (list chunk)) (cx cz : nat) :
  (∀ row, ci !! (cx + 1)%nat = Some row → (List.length row ≤ cz + 1)%nat) →
  biome_at ci (Z.of_nat cx + 1) (Z.of_nat cz + 1) = None.
Proof.
  intros Hedge. unfold biome_at.
  replace (Z.of_nat cx + 1) with (Z.of_nat (cx + 1)) by lia.
  replace (Z.of_nat cz + 1) with (Z.of_nat (cz + 1)) by lia.
  rewrite index_of_nat. destruct (ci !! (cx + 1)%nat) as [row|] eqn:Hrow; [|done].
  rewrite index_of_nat. specialize (Hedge row eq_refl).
  by rewrite lookup_ge_None_2.
Qed.

(** What an iteration of the claiming loop can change, however it ends. *)
Lemma claim_frame name cx cz r g :
  chunk_info (final (claim name cx cz r g)) = chunk_info g
  ∧ to_avoid (final (claim name cx cz r g)) = to_avoid g
  ∧ (waterways (final (claim name cx cz r g)) = waterways g
     ∨ waterways g !! r = None
       ∧ waterways (final (claim name cx cz r g))
         = <[r := name]> (waterways g)).
Proof.
  rewrite claim_unfold. destruct (waterways g !! r) as [owner|] eqn:Hr.
  - destruct (waterbody_info g !! name) as [w|]; [|by auto].
    destruct (Py.mem owner (connections w)); simpl; auto.
  - cbv zeta. destruct (entry (chunk_info g) cx cz) as [c|]; [|simpl; auto].
    destruct (waterbody_info g !! name) as [w|]; [|simpl; auto].
    destruct (surrounding_biomes cx cz _); simpl; auto.
Qed.

(** ** Detection of water at the edge of the grid and inside it *)

Lemma flag_designation_biomes tag c :
  primary_biome (flag_designation tag c) = primary_biome c
  ∧ biomes (flag_designation tag c) = biomes c.
Proof. unfold flag_designation. by destruct (Py.mem _ _). Qed.

Lemma claim_step_finishes name cx cz r g :
  is_Some (entry (chunk_info g) cx cz) →
  is_Some (waterbody_info g !! name) →
  neighbours_ready cx cz (chunk_info g) →
  ∃ g', claim name cx cz r g = Ok tt g'
        ∧ chunk_info g' = chunk_info g
        ∧ is_Some (waterbody_info g' !! name).
Proof.
  intros [c Hc] [w Hw] Hready. rewrite claim_unfold, Hc, Hw.
  destruct (waterways g !! r) as [owner|].
  - destruct (Py.mem owner (connections w)).
    + exists g. by rewrite Hw.
    + eexists. split; [done|]. simpl. split; [done|].
      by rewrite lookup_insert_eq.
  - cbv zeta.
    destruct (surrounding_biomes_ready cx cz
      (set_waterbody_info (<[name := set_biomes_touching (biomes c) w]>
                             (waterbody_info g))
         (set_waterways (<[r := name]> (waterways g)) g))) as [s Hs];
      [done|].
    rewrite Hs. eexists. split; [done|]. simpl. split; [done|].
    by rewrite lookup_insert_eq.
Qed.

Lemma claim_loop_finishes name cx cz : ∀ region g,
  is_Some (entry (chunk_info g) cx cz) →
  is_Some (waterbody_info g !! name) →
  neighbours_ready cx cz (chunk_info g) →
  ∃ g', for_each (λ _ r, claim name cx cz r) region tt g = Ok tt g'.
Proof.
  induction region as [|r region IH]; intros g Hc Hw Hready.
  - by exists g.
  - rewrite for_each_cons, bind_unfold.
    destruct (claim_step_finishes name cx cz r g Hc Hw Hready)
      as (g1 & -> & Hci & Hw1).
    apply IH; by rewrite ?Hci.
Qed.

Section WaterDetectionEdges.
Context `{Collaborators}.

(** X11 (lines 239-284, with the indexing of lines 281-284): inside the
    grid the detection of a body of water finishes.  When chunk [cx][cz]
    has a record with a string as primary biome, and the four chunks that
    [surrounding] indexes (with Python's negative indices, so [cx - 1] for
    [cx = 0] is the last row) exist and hold strings as well, the water
    branch returns normally, with the region of the search appended to
    the observed coordinates. *)
Theorem detect_water_finishes_inside (cx cz : nat) (seed lo hi : coord)
    (obs : list coord) (g : globals) (c : chunk) (pb : string) :
  entry (chunk_info g) cx cz = Some c →
  primary_biome c = Some pb →
  neighbours_ready cx cz (chunk_info g) →
  ∃ g', detect_water cx cz seed lo hi obs g
        = Ok (obs ++ water_region seed lo hi obs) g'.
Proof.
  intros Hc Hpb Hready. rewrite detect_water_unfold, Hc. cbv zeta.
  rewrite Hpb.
  destruct (claim_loop_finishes
    (body_name pb cx cz (List.length (water_region seed lo hi obs))) cx cz
    (water_region seed lo hi obs)
    (set_waterbody_info
       (<[body_name pb cx cz (List.length (water_region seed lo hi obs))
          := empty_waterbody]> (waterbody_info g))
       (set_chunk_info
          (grid_set cx cz (flag_designation "water" c) (chunk_info g)) g)))
    as [g' Hloop].
  - simpl. erewrite entry_grid_set_eq by done. by eexists.
  - simpl. by rewrite lookup_insert_eq.
  - simpl. destruct (flag_designation_biomes "water" c) as [Hsame _].
    destruct Hready as (H1 & H2 & H3 & H4).
    unfold neighbours_ready.
    by rewrite !(biome_at_grid_set _ _ _ c) by done.
  - rewrite Hloop. by eexists.
Qed.

(** X12 (lines 267-284): at the edge of the grid the detection of a body
    of water raises IndexError after it has written.  When row [cx + 1]
    of the grid does not exist or has no column [cz + 1], and the first
    coordinate [r] of the region has no owner, the water branch raises
    IndexError at line 281; the state it leaves behind has chunk
    [cx][cz] flagged, the record of the body created with the biomes of
    the chunk as [biomes_touching], and [r] claimed for the body. *)
Theorem detect_water_raises_at_edge (cx cz : nat) (seed lo hi : coord)
    (obs : list coord) (g : globals) (c : chunk) (pb : string) (r : coord)
    (rest : list coord) :
  entry (chunk_info g) cx cz = Some c →
  primary_biome c = Some pb →
  (∀ row, chunk_info g !! (cx + 1)%nat = Some row →
          (List.length row ≤ cz + 1)%nat) →
  water_region seed lo hi obs = r :: rest →
  waterways g !! r = None →
  let name := body_name pb cx cz (List.length (r :: rest)) in
  ∃ g', detect_water cx cz seed lo hi obs g = Raise IndexError g'
        ∧ entry (chunk_info g') cx cz = Some (flag_designation "water" c)
        ∧ waterways g' = <[r := name]> (waterways g)
        ∧ waterbody_info g'
          = <[name := set_biomes_touching (biomes c) empty_waterbody]>
              (waterbody_info g)
        ∧ to_avoid g' = to_avoid g.
Proof.
  intros Hc Hpb Hedge Hregion Hr name.
  rewrite detect_water_unfold, Hc. cbv zeta. rewrite Hpb, Hregion.
  fold name. rewrite for_each_cons, bind_unfold, claim_unfold.
  cbn [waterways set_waterbody_info set_chunk_info chunk_info waterbody_info].
  rewrite Hr. cbv zeta.
  cbn [waterways set_waterbody_info set_chunk_info chunk_info waterbody_info].
  erewrite entry_grid_set_eq by done. rewrite lookup_insert_eq.
  rewrite surrounding_biomes_past_edge.
  - eexists. split; [done|]. simpl.
    erewrite entry_grid_set_eq by done.
    destruct (flag_designation_biomes "water" c) as [_ ->].
    by rewrite insert_insert_eq.
  - simpl. rewrite (biome_at_grid_set _ _ _ c); [|done|].
    + by apply biome_at_past_edge.
    + by destruct (flag_designation_biomes "water" c).
Qed.

End WaterDetectionEdges.

Lemma detect_water_finishes_inside_witness :
  ∃ g', detect_water (H := pond_world) 0 0 (12, 62, 0) (-1, 0, -1)
          (17, 255, 17) [] pond_classified
        = Ok ([] ++ water_region (H := pond_world) (12, 62, 0) (-1, 0, -1)
                      (17, 255, 17) []) g'.
Proof.
  eapply (detect_water_finishes_inside (H := pond_world) 0 0 (12, 62, 0)
            (-1, 0, -1) (17, 255, 17) [] pond_classified _ "plains").
  - vm_compute. reflexivity.
  - reflexivity.
  - split_and!; exists "plains"%string; vm_compute; reflexivity.
Defined.

Lemma detect_water_raises_at_edge_witness :
  ∃ g', detect_water (H := pond_world) 0 0 (12, 62, 0) (-1, 0, -1)
          (17, 255, 17) [] strip_classified = Raise IndexError g'
        ∧ waterways g' !! (12, 62, 0) = Some "pond-0-0"%string.
Proof.
  destruct (detect_water_raises_at_edge (H := pond_world) 0 0 (12, 62, 0)
              (-1, 0, -1) (17, 255, 17) [] strip_classified
              (Chunk ["flat"%string] (Some "plains"%string)
                 ["plains"%string])
              "plains" (12, 62, 0)
              [(13, 62, 0); (14, 62, 0); (15, 62, 0); (16, 62, 0);
               (17, 62, 0)])
    as (g' & Hraise & _ & Hways & _).
  - vm_compute. reflexivity.
  - reflexivity.
  - intros row Hrow. vm_compute in Hrow. injection Hrow as <-. simpl. lia.
  - vm_compute. reflexivity.
  - reflexivity.
  - exists g'. split; [exact Hraise|]. rewrite Hways.
    apply lookup_insert_eq.
Defined.

(** ** The network of water bodies *)

#[local] Instance keeps_inv_preorder (I : globals → Prop) :
  PreOrder (keeps_inv I).
Proof.
  split; [intros g Hi; exact Hi|].
  intros g1 g2 g3 H12 H23 Hi. by apply H23, H12.
Qed.

Lemma insert_keeps_key {A} (m : gmap string A) (n b : string) (v : A) :
  is_Some (m !! b) → is_Some (<[n := v]> m !! b).
Proof. intros Hb. apply lookup_insert_is_Some'. by right. Qed.

Lemma claim_keeps_closed name cx cz r :
  preserves
    (keeps_inv (λ g, network_closed g ∧ is_Some (waterbody_info g !! name)))
    (claim name cx cz r).
Proof.
  intros g [[Hown Hconn] [w Hw]].
  destruct (claim_effect name cx cz r g w Hw) as (w' & Hinfo & _ & Heffect).
  destruct (claim_frame name cx cz r g) as (_ & _ & Hways).
  split; [split|].
  - intros c b Hcb. rewrite Hinfo. destruct Hways as [Hsame | [_ Hnew]].
    + rewrite Hsame in Hcb. apply insert_keeps_key. by eapply Hown.
    + rewrite Hnew in Hcb. destruct (decide (c = r)) as [->|Hne].
      * rewrite lookup_insert_eq in Hcb. injection Hcb as <-.
        by rewrite lookup_insert_eq.
      * rewrite lookup_insert_ne in Hcb by done.
        apply insert_keeps_key. by eapply Hown.
  - intros n wn o Hn Ho. rewrite Hinfo in Hn |- *.
    apply insert_keeps_key.
    destruct (decide (n = name)) as [->|Hne].
    + rewrite lookup_insert_eq in Hn. injection Hn as <-.
      destruct (waterways g !! r) as [owner|] eqn:Hr.
      * destruct Heffect as (_ & e & _ & _ & [Heq | [Heq _]]);
          rewrite Heq in Ho.
        -- by eapply Hconn.
        -- apply elem_of_app in Ho as [Ho | Ho%list_elem_of_singleton].
           ++ by eapply Hconn.
           ++ subst o. by eapply Hown.
      * destruct Heffect as [_ Heq]. rewrite Heq in Ho. by eapply Hconn.
    + rewrite lookup_insert_ne in Hn by done. by eapply Hconn.
  - rewrite Hinfo, lookup_insert_eq. by eexists.
Qed.

Lemma initial_network_closed (xs zs : nat) :
  network_closed (initial_globals xs zs).
Proof.
  split.
  - intros c b Hcb. simpl in Hcb. by rewrite lookup_empty in Hcb.
  - intros n w o Hn. simpl in Hn. by rewrite lookup_empty in Hn.
Qed.

Section WaterNetwork.
Context `{Collaborators}.

Lemma update_chunk_keeps_closed x z f :
  preserves (keeps_inv network_closed) (update_chunk x z f).
Proof.
  intros g Hclosed. rewrite update_chunk_unfold.
  by destruct (entry (chunk_info g) x z).
Qed.

Lemma detect_structure_keeps_closed cx cz seed lo hi obs :
  preserves (keeps_inv network_closed) (detect_structure cx cz seed lo hi obs).
Proof.
  intros g Hclosed. rewrite detect_structure_unfold.
  by destruct (entry (chunk_info g) cx cz).
Qed.

Lemma detect_water_keeps_closed cx cz seed lo hi obs :
  preserves (keeps_inv network_closed) (detect_water cx cz seed lo hi obs).
Proof.
  intros g Hclosed. rewrite detect_water_unfold.
  destruct (entry (chunk_info g) cx cz) as [c|]; [|done]. cbv zeta.
  destruct (primary_biome c) as [pb|]; [|done].
  set (name := body_name pb cx cz _). set (g2 := set_waterbody_info _ _).
  pose proof (preserves_for_each
    (keeps_inv (λ g, network_closed g ∧ is_Some (waterbody_info g !! name)))
    (λ _ r, claim name cx cz r) (water_region seed lo hi obs)
    (λ _ r _, claim_keeps_closed name cx cz r) tt g2) as Hloop.
  assert (Hstart : network_closed g2 ∧ is_Some (waterbody_info g2 !! name)).
  { destruct Hclosed as [Hown Hconn]. subst g2. simpl. split; [split|].
    - intros c' b Hcb. simpl in *. apply insert_keeps_key. by eapply Hown.
    - intros n w o Hn Ho. simpl in *. apply insert_keeps_key.
      destruct (decide (n = name)) as [->|Hne].
      + rewrite lookup_insert_eq in Hn. injection Hn as <-.
        simpl in Ho. by apply elem_of_nil in Ho.
      + rewrite lookup_insert_ne in Hn by done. by eapply Hconn.
    - rewrite lookup_insert_eq. by eexists. }
  apply Hloop in Hstart as [Hend _].
  by destruct (for_each _ _ _ g2).
Qed.

Lemma classifier_keeps_closed xs zs :
  preserves (keeps_inv network_closed) (chunk_biome_analysis xs zs).
Proof.
  unfold chunk_biome_analysis.
  apply (preserves_for_each (keeps_inv network_closed)).
  intros [] [x z] _. apply update_chunk_keeps_closed.
Qed.

(** X13 (lines 264-275): the network of water bodies stays closed.  When
    every owner in [waterways] and every name in a list of connections
    has a record in [waterbody_info], the same holds after the sample
    pass and after the whole analysis, however they end: no coordinate is
    ever owned by, and no body is ever connected to, a name without a
    record. *)
Theorem water_network_stays_closed (xs zs : nat) (hm : gmap (nat * nat) Z)
    (g : globals) :
  network_closed g →
  network_closed (final (sample_pass hm g))
  ∧ network_closed (final (analysis xs zs hm g)).
Proof.
  intros Hclosed. split.
  - apply (sample_pass_from_detections (keeps_inv network_closed));
      [apply detect_structure_keeps_closed
      |apply detect_water_keeps_closed|done].
  - apply (analysis_from_detections (keeps_inv network_closed));
      [apply detect_structure_keeps_closed
      |apply detect_water_keeps_closed| |done].
    apply classifier_keeps_closed.
Qed.

End WaterNetwork.

Lemma water_network_stays_closed_witness :
  network_closed
    (final (sample_pass (H := pond_world) pond_heightmap pond_classified))
  ∧ network_closed pond_final.
Proof.
  split.
  - apply (water_network_stays_closed (H := pond_world) 3 2 pond_heightmap
             pond_classified).
    apply (classifier_keeps_closed (H := pond_world) 3 2).
    apply initial_network_closed.
  - apply (water_network_stays_closed (H := pond_world) 3 2 pond_heightmap
             (initial_globals 3 2)).
    apply initial_network_closed.
Defined.

(** ** Owners of coordinates and the tag "water" *)

Lemma flag_designation_has tag c : tag ∈ designations (flag_designation tag c).
Proof.
  unfold flag_designation. destruct (Py.mem tag (designations c)) eqn:Hmem.
  - by apply mem_iff.
  - simpl. set_solver.
Qed.

Lemma flag_designation_keeps tag t c :
  t ∈ designations c → t ∈ designations (flag_designation tag c).
Proof.
  intros Ht. unfold flag_designation.
  destruct (Py.mem tag (designations c)); [done|]. simpl. set_solver.
Qed.

Lemma owners_flagged_empty g : waterways g = ∅ → owners_flagged g.
Proof. intros Hempty c b Hcb. by rewrite Hempty, lookup_empty in Hcb. Qed.

Lemma owners_flagged_flag tag cx cz c g g' :
  entry (chunk_info g) cx cz = Some c →
  chunk_info g' = grid_set cx cz (flag_designation tag c) (chunk_info g) →
  waterways g' = waterways g →
  owners_flagged g → owners_flagged g'.
Proof.
  intros Hc Hci Hways Hown r b Hrb. rewrite Hways in Hrb.
  destruct (Hown r b Hrb) as (x & z & pb & size & ch & Hb & Hch & Hwater).
  exists x, z, pb, size. rewrite Hci.
  destruct (decide ((cx, cz) = (x, z))) as [[= <- <-]|Hne].
  - exists (flag_designation tag c). split; [done|].
    split; [by eapply entry_grid_set_eq|].
    apply flag_designation_keeps. congruence.
  - exists ch. by rewrite entry_grid_set_ne.
Qed.

Lemma claim_keeps_owners pb cx cz size r :
  preserves
    (keeps_inv (λ g, owners_flagged g
                     ∧ ∃ ch, entry (chunk_info g) cx cz = Some ch
                             ∧ "water"%string ∈ designations ch))
    (claim (body_name pb cx cz size) cx cz r).
Proof.
  intros g [Hown (ch & Hch & Hwater)].
  destruct (claim_frame (body_name pb cx cz size) cx cz r g)
    as (Hci & _ & Hways).
  split; [|rewrite Hci; by exists ch].
  intros c b Hcb. rewrite Hci. destruct Hways as [Hsame | [_ Hnew]].
  - rewrite Hsame in Hcb. exact (Hown c b Hcb).
  - rewrite Hnew in Hcb. destruct (decide (c = r)) as [->|Hne].
    + rewrite lookup_insert_eq in Hcb. injection Hcb as <-.
      by exists cx, cz, pb, size, ch.
    + rewrite lookup_insert_ne in Hcb by done. exact (Hown c b Hcb).
Qed.

Section OwnersFlagged.
Context `{Collaborators}.

Lemma detect_structure_keeps_owners cx cz seed lo hi obs :
  preserves (keeps_inv owners_flagged) (detect_structure cx cz seed lo hi obs).
Proof.
  intros g Hown. rewrite detect_structure_unfold.
  destruct (entry (chunk_info g) cx cz) as [c|] eqn:Hc; [|done].
  by eapply (owners_flagged_flag "structure" cx cz c g).
Qed.

Lemma detect_water_keeps_owners cx cz seed lo hi obs :
  preserves (keeps_inv owners_flagged) (detect_water cx cz seed lo hi obs).
Proof.
  intros g Hown. rewrite detect_water_unfold.
  destruct (entry (chunk_info g) cx cz) as [c|] eqn:Hc; [|done]. cbv zeta.
  destruct (primary_biome c) as [pb|].
  - set (size := List.length _). set (g2 := set_waterbody_info _ _).
    pose proof (preserves_for_each _
      (λ _ r, claim (body_name pb cx cz size) cx cz r)
      (water_region seed lo hi obs)
      (λ _ r _, claim_keeps_owners pb cx cz size r) tt g2) as Hloop.
    assert (Hstart : owners_flagged g2
                     ∧ ∃ ch, entry (chunk_info g2) cx cz = Some ch
                             ∧ "water"%string ∈ designations ch).
    { split.
      - by eapply (owners_flagged_flag "water" cx cz c g).
      - exists (flag_designation "water" c). subst g2. simpl.
        split; [by eapply entry_grid_set_eq|apply flag_designation_has]. }
    apply Hloop in Hstart as [Hend _].
    by destruct (for_each _ _ _ g2).
  - by eapply (owners_flagged_flag "water" cx cz c g).
Qed.

Lemma classifier_keeps_no_owner xs zs :
  preserves (keeps_inv (λ g, waterways g = ∅)) (chunk_biome_analysis xs zs).
Proof.
  unfold chunk_biome_analysis.
  apply (preserves_for_each (keeps_inv (λ g, waterways g = ∅))).
  intros [] [x z] _ g Hempty. rewrite analyse_chunk_unfold.
  by destruct (entry (chunk_info g) x z).
Qed.

(** X14 (lines 239-242, 275): owners belong to chunks tagged "water".
    When every owner in [waterways] is the name of a body detected from a
    chunk that carries the tag "water", the same holds after the sample
    pass, however it ends; and it holds after the whole analysis when
    [waterways] was empty before. *)
Theorem waterway_owners_are_flagged (xs zs : nat) (hm : gmap (nat * nat) Z)
    (g : globals) :
  owners_flagged g →
  owners_flagged (final (sample_pass hm g))
  ∧ (waterways g = ∅ → owners_flagged (final (analysis xs zs hm g))).
Proof.
  intros Hown.
  assert (Hpass : ∀ g0, owners_flagged g0 →
                        owners_flagged (final (sample_pass hm g0))).
  { intros g0. apply (sample_pass_from_detections (keeps_inv owners_flagged));
      [apply detect_structure_keeps_owners|apply detect_water_keeps_owners]. }
  split; [by apply Hpass|]. intros Hempty. rewrite analysis_final.
  pose proof (classifier_keeps_no_owner xs zs g Hempty) as Hstill.
  destruct (chunk_biome_analysis xs zs g) as [[] g1|e g1]; simpl in Hstill.
  - by apply Hpass, owners_flagged_empty.
  - by apply owners_flagged_empty.
Qed.

End OwnersFlagged.

Lemma waterway_owners_are_flagged_witness :
  owners_flagged
    (final (sample_pass (H := pond_world) pond_heightmap pond_classified))
  ∧ (waterways pond_classified = ∅ →
     owners_flagged
       (final (analysis (H := pond_world) 3 2 pond_heightmap pond_classified))).
Proof.
  apply (waterway_owners_are_flagged (H := pond_world) 3 2 pond_heightmap
           pond_classified).
  apply owners_flagged_empty. vm_compute. reflexivity.
Defined.

(** ** A pass over a world with nothing left to detect *)

Lemma for_each_unchanged {A B} (f : A → B → M A) (l : list B) (a : A)
    (g : globals) :
  (∀ b, b ∈ l → f a b g = Ok a g) → for_each f l a g = Ok a g.
Proof.
  induction l as [|b l IH]; intros Hf; [done|].
  rewrite for_each_cons, bind_unfold, Hf by by left.
  apply IH. intros b' Hb'. apply Hf. by right.
Qed.

Section SettledWorld.
Context `{Collaborators}.

Lemma sample_settled hm cx cz obs jx jz g :
  settled hm g cx cz jx jz → sample hm cx cz obs (jx, jz) g = Ok obs g.
Proof.
  intros (y & Hy & Hart & Hfluid). unfold sample.
  destruct obs as [obs_struc obs_fluid]. unfold buildlocal2global.
  cbv zeta. rewrite bind_unfold, Hy. simpl lift. rewrite ret_unfold.
  rewrite bind_unfold. unfold get at 1. cbv beta iota.
  simpl in Hart, Hfluid.
  replace (Py.mem _ ARTIFICIAL && negb _) with false.
  - replace (Py.mem _ FLUID && negb _) with false; [done|].
    symmetry. apply andb_false_iff.
    destruct (Py.mem _ FLUID) eqn:Hmem; [right|by left].
    apply mem_iff, Hfluid in Hmem. by rewrite bool_decide_eq_true_2.
  - symmetry. apply andb_false_iff.
    destruct (Py.mem _ ARTIFICIAL) eqn:Hmem; [right|by left].
    apply mem_iff, Hart in Hmem. by rewrite bool_decide_eq_true_2.
Qed.

(** X15 (lines 210-226, 239-240): the edges of the sample pass.  On an
    empty grid the pass raises IndexError at [len(chunk_info[0])] and
    changes nothing.  On a grid whose every sample point has a height and
    starts no detection (the block is neither an unavoided artificial
    block nor an unowned fluid), the pass finishes and leaves the globals
    exactly as they were. *)
Theorem sample_pass_on_settled_world (hm : gmap (nat * nat) Z) (g : globals) :
  (chunk_info g = [] → sample_pass hm g = Raise IndexError g)
  ∧ (∀ row, chunk_info g !! 0%nat = Some row →
       (∀ cx cz jx jz, (cx < List.length (chunk_info g))%nat →
          (cz < List.length row)%nat →
          (jx < SUB_CHUNK_RES)%nat → (jz < SUB_CHUNK_RES)%nat →
          settled hm g cx cz jx jz) →
       sample_pass hm g = Ok tt g).
Proof.
  split.
  - intros Hempty. unfold sample_pass.
    rewrite bind_unfold. unfold get at 1. cbv beta iota.
    rewrite bind_unfold. unfold first_row_length. by rewrite Hempty.
  - intros row Hrow Hsettled. unfold sample_pass.
    rewrite bind_unfold. unfold get at 1. cbv beta iota.
    rewrite bind_unfold. unfold first_row_length. rewrite Hrow.
    apply for_each_unchanged. intros [cx cz] [Hcx Hcz]%elem_of_loop2d.
    unfold scan_chunk. rewrite bind_unfold.
    rewrite (for_each_unchanged (sample hm cx cz)); [done|].
    intros [jx jz] [Hjx Hjz]%elem_of_loop2d.
    apply sample_settled. by apply Hsettled.
Qed.

End SettledWorld.

Lemma sample_pass_on_settled_world_witness :
  sample_pass (H := hollow_world) (flat_heightmap 16 16 64)
    (initial_globals 1 1)
  = Ok tt (initial_globals 1 1).
Proof.
  apply (proj2 (sample_pass_on_settled_world (H := hollow_world)
                  (flat_heightmap 16 16 64) (initial_globals 1 1))
           [chunk_info_template]); [reflexivity|].
  intros cx cz jx jz Hcx Hcz Hjx Hjz. simpl in Hcx, Hcz.
  unfold SUB_CHUNK_RES in Hjx, Hjz.
  assert (cx = 0%nat) as -> by lia. assert (cz = 0%nat) as -> by lia.
  destruct jx as [|[|[|[|jx]]]]; [..|lia];
    (destruct jz as [|[|[|[|jz]]]]; [..|lia]);
    (exists 64; split; [vm_compute; reflexivity|];
     split; intros Hin%mem_iff; vm_compute in Hin; discriminate).
Defined.

(** ** Ownership of coordinates and the connections of a body *)

(** The claiming loop in a chunk of the last row or column: the owned
    coordinates at the head of the region are recorded, and the first
    coordinate without an owner ends the loop with IndexError. *)
Lemma claim_loop_edge name cx cz r rest : ∀ pre g c w,
  entry (chunk_info g) cx cz = Some c →
  waterbody_info g !! name = Some w →
  biome_at (chunk_info g) (Z.of_nat cx + 1) (Z.of_nat cz + 1) = None →
  (∀ p, p ∈ pre → is_Some (waterways g !! p)) →
  waterways g !! r = None →
  ∃ g' w',
    for_each (λ _ r, claim name cx cz r) (pre ++ r :: rest) tt g
    = Raise IndexError g'
    ∧ waterways g' = <[r := name]> (waterways g)
    ∧ waterbody_info g' = <[name := w']> (waterbody_info g)
    ∧ (NoDup (connections w) → NoDup (connections w'))
    ∧ (∀ o, o ∈ connections w'
            ↔ o ∈ connections w ∨ ∃ p, p ∈ pre ∧ waterways g !! p = Some o).
Proof.
  induction pre as [|p pre IH]; intros g c w Hc Hw Hedge Hpre Hr.
  - cbn [app]. rewrite for_each_cons, bind_unfold, claim_unfold, Hr.
    cbv zeta. rewrite Hc, Hw, surrounding_biomes_past_edge by done.
    eexists _, (set_biomes_touching (biomes c) w).
    split; [done|]. split; [done|]. split; [done|]. split; [done|].
    intros o. split; [by left|]. intros [Ho | (p & Hp & _)]; [done|].
    by inv Hp.
  - destruct (Hpre p) as [o Hp]; [by left|].
    destruct (claim_effect name cx cz p g w Hw) as (w1 & Hinfo & _ & Hcase).
    destruct (claim_frame name cx cz p g) as (Hci & _ & _).
    rewrite Hp in Hcase.
    destruct Hcase as (Hways & g1 & Hstep & Ho & Hconn).
    rewrite Hstep in Hinfo, Hways, Hci. simpl in Hinfo, Hways, Hci.
    destruct (IH g1 c w1) as (g' & w' & Hrun & Hways' & Hinfo' & Hnd & Hin).
    + by rewrite Hci.
    + rewrite Hinfo. apply lookup_insert_eq.
    + by rewrite Hci.
    + intros p' Hp'. rewrite Hways. apply Hpre. by right.
    + by rewrite Hways.
    + exists g', w'. cbn [app].
      rewrite for_each_cons, bind_unfold, Hstep. split; [exact Hrun|].
      split; [by rewrite Hways', Hways|].
      split; [by rewrite Hinfo', Hinfo, insert_insert_eq|]. split.
      * intros Hnd0. apply Hnd. destruct Hconn as [-> | [-> Hnew]]; [done|].
        apply NoDup_app. split; [done|]. split; [|apply NoDup_singleton].
        by intros x Hx ->%list_elem_of_singleton.
      * intros o'. rewrite Hin. rewrite Hways. split.
        -- intros [Ho' | (p' & Hp' & Hown)].
           ++ destruct Hconn as [Heq | [Heq _]]; rewrite Heq in Ho'.
              ** by left.
              ** apply elem_of_app in Ho' as [Ho' | ->%list_elem_of_singleton];
                   [by left|]. right. exists p. split; [by left|done].
           ++ right. exists p'. split; [by right|done].
        -- intros [Ho' | (p' & [-> | Hp']%elem_of_cons & Hown)].
           ++ left. destruct Hconn as [-> | [-> _]]; [done|].
              apply elem_of_app. by left.
           ++ left. congruence.
           ++ right. by exists p'.
Qed.

Section ClaimedOnce.
Context `{Collaborators}.

(** C3 on the code. A coordinate that has an owner in [waterways] keeps
    that owner through the sample pass and through the whole analysis,
    however they end. An iteration of the claiming loop on an owned
    coordinate finishes, leaves [waterways] as it is and has the owner in
    the connections of the new body, adding it only when it is not there
    yet; a detection that finishes has thus recorded the owner of every
    coordinate of its region that was owned, without duplicates. A
    detection in the last row or column of the grid does not finish: its
    first coordinate without an owner is claimed and line 281 raises
    IndexError, so that the connections hold the owners of the
    coordinates before it and of no coordinate after it. *)
Theorem waterways_claimed_once (hm : gmap (nat * nat) Z) (cx cz : nat)
    (seed lo hi : coord) (obs : list coord) (g : globals) :
  waterways_kept g (final (sample_pass hm g))
  ∧ (∀ xs zs, waterways_kept g (final (analysis xs zs hm g)))
  ∧ (∀ name r w owner,
       waterbody_info g !! name = Some w →
       waterways g !! r = Some owner →
       ∃ g' w',
         claim name cx cz r g = Ok tt g'
         ∧ waterways g' = waterways g
         ∧ waterbody_info g' !! name = Some w'
         ∧ owner ∈ connections w'
         ∧ (NoDup (connections w) → NoDup (connections w')))
  ∧ (∀ obs' g', detect_water cx cz seed lo hi obs g = Ok obs' g' →
       ∃ c pb w',
         entry (chunk_info g) cx cz = Some c
         ∧ primary_biome c = Some pb
         ∧ waterbody_info g'
             !! body_name pb cx cz (List.length (water_region seed lo hi obs))
           = Some w'
         ∧ NoDup (connections w')
         ∧ ∀ r, r ∈ water_region seed lo hi obs →
             (∀ o, waterways g !! r = Some o →
                   waterways g' !! r = Some o ∧ o ∈ connections w')
             ∧ (waterways g !! r = None →
                waterways g' !! r
                = Some (body_name pb cx cz
                          (List.length (water_region seed lo hi obs)))))
  ∧ (∀ c pb pre r rest,
       entry (chunk_info g) cx cz = Some c →
       primary_biome c = Some pb →
       (∀ row, chunk_info g !! (cx + 1)%nat = Some row →
               (List.length row ≤ cz + 1)%nat) →
       water_region seed lo hi obs = pre ++ r :: rest →
       (∀ p, p ∈ pre → is_Some (waterways g !! p)) →
       waterways g !! r = None →
       ∃ g' w',
         detect_water cx cz seed lo hi obs g = Raise IndexError g'
         ∧ waterways g'
           = <[r := body_name pb cx cz (List.length (pre ++ r :: rest))]>
               (waterways g)
         ∧ waterbody_info g'
             !! body_name pb cx cz (List.length (pre ++ r :: rest))
           = Some w'
         ∧ NoDup (connections w')
         ∧ ∀ o, o ∈ connections w'
                ↔ ∃ p, p ∈ pre ∧ waterways g !! p = Some o).
Proof.
  destruct (claiming_facts hm cx cz seed lo hi obs g) as (Ha & Hb & Hc & Hd).
  split; [exact Ha|]. split; [exact Hb|]. split; [exact Hc|].
  split; [exact Hd|].
  intros c pb pre r rest Hentry Hpb Hedge Hregion Hpre Hr.
  rewrite detect_water_unfold, Hentry. cbv zeta. rewrite Hpb, Hregion.
  set (name := body_name pb cx cz (List.length (pre ++ r :: rest))).
  set (g2 := set_waterbody_info _ _).
  destruct (claim_loop_edge name cx cz r rest pre g2
              (flag_designation "water" c) empty_waterbody)
    as (g' & w' & Hrun & Hways & Hinfo & Hnd & Hin).
  - subst g2. simpl. by eapply entry_grid_set_eq.
  - subst g2. simpl. apply lookup_insert_eq.
  - subst g2. simpl. rewrite (biome_at_grid_set _ _ _ c); [|done|].
    + by apply biome_at_past_edge.
    + by destruct (flag_designation_biomes "water" c).
  - done.
  - done.
  - rewrite Hrun. exists g', w'. split; [done|]. split; [exact Hways|].
    split; [rewrite Hinfo; apply lookup_insert_eq|].
    split; [apply Hnd; constructor|].
    intros o. rewrite Hin. split; [|by right].
    intros [Ho | Ho]; [by apply elem_of_nil in Ho|done].
Qed.

End ClaimedOnce.

Lemma waterways_claimed_once_witness :
  ∃ obs' g' w',
    detect_water (H := pond_world) 1 0 (20, 62, 0) (15, 0, -1) (33, 255, 17)
      [] pond_after_first_chunk = Ok obs' g'
    ∧ waterbody_info g' !! "pond-1-0"%string = Some w'
    ∧ waterways g' !! (17, 62, 0) = Some "pond-0-0"%string
    ∧ "pond-0-0"%string ∈ connections w'.
Proof.
  destruct (detect_water (H := pond_world) 1 0 (20, 62, 0) (15, 0, -1)
              (33, 255, 17) [] pond_after_first_chunk)
    as [obs' g'|e g'] eqn:Hrun; [|vm_compute in Hrun; discriminate].
  destruct (waterways_claimed_once (H := pond_world) pond_heightmap 1 0
              (20, 62, 0) (15, 0, -1) (33, 255, 17) [] pond_after_first_chunk)
    as (_ & _ & _ & Hdetect & _).
  destruct (Hdetect obs' g' Hrun) as (c & pb & w' & Hc & Hpb & Hw' & _ & Hreg).
  assert (Hc0 : entry (chunk_info pond_after_first_chunk) 1 0
                = Some {| designations := ["flat"%string];
                          primary_biome := Some "plains"%string;
                          biomes := ["plains"%string] |})
    by (vm_compute; reflexivity).
  rewrite Hc0 in Hc. injection Hc as <-. injection Hpb as <-.
  exists obs', g', w'. split; [done|].
  assert (Hname : body_name "plains" 1 0
            (List.length (water_region (H := pond_world) (20, 62, 0)
                            (15, 0, -1) (33, 255, 17) []))
          = "pond-1-0"%string) by (vm_compute; reflexivity).
  rewrite Hname in Hw', Hreg. split; [done|].
  destruct (Hreg (17, 62, 0)) as [Hown _].
  { apply list_elem_of_In. vm_compute. tauto. }
  apply Hown. vm_compute. reflexivity.
Defined.

(** C3 fails on a grid of two by two chunks of the pond world. The channel
    of water crosses from chunk (0,0) into chunk (1,0), which lies in the
    last row. The detection started in chunk (1,0) at (20,62,0) claims that
    coordinate and ends the analysis with IndexError; its region reaches
    (17,62,0), (16,62,0) and (15,62,0), which belong to "pond-0-0", yet
    the connections of "pond-1-0" stay empty. *)
Lemma connections_lost_at_grid_edge :
  ∃ g w,
    analysis (H := pond_world) 2 2 (flat_heightmap 32 32 62)
      (initial_globals 2 2) = Raise IndexError g
    ∧ water_region (H := pond_world) (20, 62, 0) (15, 0, -1) (33, 255, 17) []
      = [(20, 62, 0); (19, 62, 0); (18, 62, 0); (17, 62, 0); (16, 62, 0);
         (15, 62, 0)]
    ∧ waterways g !! (20, 62, 0) = Some "pond-1-0"%string
    ∧ waterways g !! (19, 62, 0) = None
    ∧ waterways g !! (17, 62, 0) = Some "pond-0-0"%string
    ∧ waterways g !! (16, 62, 0) = Some "pond-0-0"%string
    ∧ waterways g !! (15, 62, 0) = Some "pond-0-0"%string
    ∧ waterbody_info g !! "pond-1-0"%string = Some w
    ∧ connections w = [].
Proof.
  eexists _, _. split_and!; vm_compute; reflexivity.
Qed.
